(** * uw-generate-usfm: the USFM block assembly engine and chapter postprocessor

    A shallow embedding of [tools/unfolding-word/uw-generate-usfm] (the
    generator that turns tokenised USFM lines into per-chapter HTML) together
    with the properties of its tag dispatch, its block flags, its unit-end
    cleanup and its postprocessing pass.  The module that feeds it,
    [tools/unfolding-word/uw-grab-available-texts], which reads the catalog
    of Bible versions and prepares one input directory per version, is
    embedded after it, with the properties of its lookups, of the objects it
    builds and of its callbacks.

    The file has three parts: the embedding of the source, function by
    function; the vocabulary in which the properties are stated; the
    properties, each with the lemmas it rests on and with its evaluation on
    concrete files.

    Conventions of the embedding.
    - JavaScript strings are [string]s; a character is one code unit below
      256.  The regular expression class [\s] and [String.prototype.trim]
      are written out for that range; so is [toUpperCase], up to the two
      code units whose upper case lies beyond 255 (see [Js.upper_units]).
    - JavaScript numbers occur only as results of [parseInt] and as the note
      counter; they are integers in [Z] plus [NaN] (magnitudes beyond 2^53
      are not rounded).
    - The closure variables of the module, the locals of [generate] and the
      locals of the per-file callback are the three layers of [State]; code
      that mutates them lives in the state-and-exception monad [M].  An
      exception keeps the state reached, as the closure variables of a
      module instance survive a call that throws.
    - The collaborators that are [require]d from outside the file (tokenizer,
      book table, formatter) are the fields of the class [Collaborators]; the
      verse indexer, which only receives submissions, is represented by the
      ordered list of the submissions made to it.
    - A piece of markup appended to the chapter html carries the block
      events it stands for (an opening or a closing of a verse, text,
      list-item or footnote block).  The html is the string the source
      builds; the events are recorded next to it and are read by no code. *)

From stdpp Require Import base list strings.
From Stdlib Require Import ZArith DecimalString Ascii Lia.

Open Scope string_scope.
Open Scope Z_scope.

(** ** JavaScript values handled by the engine *)

Inductive JsNum : Type :=
| NaN
| Int (z : Z).

Inductive JsVal : Type :=
| JsUndefined
| JsNull
| JsString (s : string)
| JsNumber (n : JsNum).

#[global] Instance JsNum_eq_dec : EqDecision JsNum.
Proof. solve_decision. Defined.

#[global] Instance JsVal_eq_dec : EqDecision JsVal.
Proof. solve_decision. Defined.

(** ** String primitives *)

Module Js.

(** The double quote character and the line feed, which the sources
    write inside single-quoted literals. *)
Definition dq : string := String (ascii_of_nat 34) EmptyString.
Definition nl : string := String (ascii_of_nat 10) EmptyString.
Definition quoted (s : string) : string := dq +:+ s +:+ dq.

(** [\s] restricted to code units below 256: TAB, LF, VT, FF, CR, SPACE
    and NO-BREAK SPACE. *)
Definition is_whitespace (a : ascii) : bool :=
  let n := nat_of_ascii a in
  ((9 <=? n)%nat && (n <=? 13)%nat) || (n =? 32)%nat || (n =? 160)%nat.

Fixpoint filter_chars (p : ascii -> bool) (s : string) : string :=
  match s with
  | EmptyString => EmptyString
  | String a s' => if p a then String a (filter_chars p s') else filter_chars p s'
  end.

(** [s.replace(/\s/g, '')] *)
Definition remove_whitespace (s : string) : string :=
  filter_chars (fun a => negb (is_whitespace a)) s.

Fixpoint trim_start (s : string) : string :=
  match s with
  | String a s' => if is_whitespace a then trim_start s' else s
  | EmptyString => EmptyString
  end.

(** Removes trailing whitespace: a character is kept when something that
    is kept follows it or when it is not whitespace itself. *)
Fixpoint trim_end (s : string) : string :=
  match s with
  | EmptyString => EmptyString
  | String a s' =>
      match trim_end s' with
      | EmptyString => if is_whitespace a then EmptyString else String a EmptyString
      | t => String a t
      end
  end.

(** [s.trim()] *)
Definition trim (s : string) : string := trim_end (trim_start s).

(** The upper case of a code unit: the letters [a] to [z], the Latin-1
    letters from 224 to 254 (the division sign, 247, is no letter), and the
    sharp s, 223, whose upper case is the two letters [SS].  The micro sign,
    181, and the y with diaeresis, 255, have their upper case beyond 255,
    outside the strings of this file: they are left as they are, and
    [upper_case_in_range] tells the texts without them, on which
    [toUpperCase] is what JavaScript computes. *)
Definition upper_units (a : ascii) : string :=
  let n := nat_of_ascii a in
  if ((97 <=? n)%nat && (n <=? 122)%nat) then String (ascii_of_nat (n - 32)) EmptyString
  else if (n =? 223)%nat then "SS"
  else if ((224 <=? n)%nat && (n <=? 254)%nat && negb (n =? 247)%nat)
       then String (ascii_of_nat (n - 32)) EmptyString
  else String a EmptyString.

Fixpoint flat_map_chars (f : ascii -> string) (s : string) : string :=
  match s with
  | EmptyString => EmptyString
  | String a s' => f a +:+ flat_map_chars f s'
  end.

(** [s.toUpperCase()] *)
Definition toUpperCase (s : string) : string := flat_map_chars upper_units s.

Fixpoint upper_case_in_range (s : string) : bool :=
  match s with
  | EmptyString => true
  | String a s' =>
      negb (nat_of_ascii a =? 181)%nat && negb (nat_of_ascii a =? 255)%nat
      && upper_case_in_range s'
  end.

(** [s.indexOf(pat)], with [None] for [-1]. *)
Definition indexOf (pat s : string) : option nat := String.index 0 pat s.

(** [s.substring(n)] for [n >= 0]. *)
Fixpoint substring_from (n : nat) (s : string) : string :=
  match n, s with
  | O, _ => s
  | S n', String _ s' => substring_from n' s'
  | S _, EmptyString => EmptyString
  end.

(** [s.substring(0, n)] *)
Fixpoint substring_to (n : nat) (s : string) : string :=
  match n, s with
  | S n', String a s' => String a (substring_to n' s')
  | _, _ => EmptyString
  end.

(** [s.split(sep)] for a one-character separator: never the empty list. *)
Fixpoint split (sep : ascii) (s : string) : list string :=
  match s with
  | EmptyString => [EmptyString]
  | String a s' =>
      if Ascii.eqb a sep then EmptyString :: split sep s'
      else match split sep s' with
           | [] => [String a EmptyString]
           | w :: ws => String a w :: ws
           end
  end.

(** [s.split(sep)[0]] *)
Definition first_field (sep : ascii) (s : string) : string :=
  match split sep s with
  | w :: _ => w
  | [] => EmptyString
  end.

Fixpoint last_char (s : string) : option ascii :=
  match s with
  | EmptyString => None
  | String a EmptyString => Some a
  | String _ s' => last_char s'
  end.

Fixpoint drop_last (s : string) : string :=
  match s with
  | EmptyString => EmptyString
  | String _ EmptyString => EmptyString
  | String a s' => String a (drop_last s')
  end.

(** [array.join(sep)] *)
Fixpoint join (sep : string) (l : list string) : string :=
  match l with
  | [] => EmptyString
  | [x] => x
  | x :: l' => x +:+ sep +:+ join sep l'
  end.

(** *** Numbers *)

Definition digit_value (radix : Z) (a : ascii) : option Z :=
  let n := Z.of_nat (nat_of_ascii a) in
  let v :=
    if (48 <=? n) && (n <=? 57) then Some (n - 48)
    else if (97 <=? n) && (n <=? 122) then Some (n - 87)
    else if (65 <=? n) && (n <=? 90) then Some (n - 55)
    else None in
  match v with
  | Some d => if d <? radix then Some d else None
  | None => None
  end.

(** Reads the longest prefix of digits; [None] when there is no digit. *)
Fixpoint read_digits (radix : Z) (acc : option Z) (s : string) : option Z :=
  match s with
  | EmptyString => acc
  | String a s' =>
      match digit_value radix a with
      | Some d => read_digits radix (Some (radix * default 0 acc + d)) s'
      | None => acc
      end
  end.

Definition strip_hex_prefix (s : string) : option string :=
  match s with
  | String z (String x s') =>
      if Ascii.eqb z "0"%char && (Ascii.eqb x "x"%char || Ascii.eqb x "X"%char)
      then Some s' else None
  | _ => None
  end.

Definition parse_unsigned (s : string) : option Z :=
  match strip_hex_prefix s with
  | Some s' => read_digits 16 None s'
  | None => read_digits 10 None s
  end.

(** [parseInt(s)] with no radix argument. *)
Definition parseInt_string (s : string) : JsNum :=
  let s := trim_start s in
  let '(neg, body) :=
    match s with
    | String a s' =>
        if Ascii.eqb a "-"%char then (true, s')
        else if Ascii.eqb a "+"%char then (false, s')
        else (false, s)
    | EmptyString => (false, s)
    end in
  match parse_unsigned body with
  | Some z => Int (if neg : bool then - z else z)
  | None => NaN
  end.

(** [n.toString()] *)
Definition num_toString (n : JsNum) : string :=
  match n with
  | NaN => "NaN"
  | Int z => NilZero.string_of_int (Z.to_int z)
  end.

(** [ToString] as used by [+] with a string operand and by [parseInt]. *)
Definition toString (v : JsVal) : string :=
  match v with
  | JsUndefined => "undefined"
  | JsNull => "null"
  | JsString s => s
  | JsNumber n => num_toString n
  end.

Definition parseInt (v : JsVal) : JsNum := parseInt_string (toString v).

(** [n > 1]: false on [NaN]. *)
Definition gt1 (n : JsNum) : bool :=
  match n with
  | NaN => false
  | Int z => 1 <? z
  end.

(** [v == s] for a string [s] that does not read as a number. *)
Definition loose_eq_string (v : JsVal) (s : string) : bool :=
  match v with
  | JsString t => String.eqb t s
  | _ => false
  end.

End Js.

(** ** Data model *)

(** One record of the tokenizer: [{key, number, text}].  [number] is absent
    ([JsUndefined]) on markers that carry none. *)
Module TagRecord.
Record t : Type := mk { key : string; number : JsVal; text : string }.
End TagRecord.

(** An entry of the book table, as far as the generator reads it:
    [dbsCode], [name] and [names.eng]. *)
Module BookInfo.
Record t : Type := mk { dbsCode : string; name : string; names_eng : list string }.
End BookInfo.

(** [currentBook].  [parsedInfo] starts as the empty object, all of whose
    properties read as [undefined]; that is [None] here. *)
Module Book.
Record t : Type := mk { name : string; abbreviation : string; parsedInfo : option BookInfo.t }.

Definition set_name (s : string) (b : t) : t := mk s (abbreviation b) (parsedInfo b).
Definition set_abbreviation (s : string) (b : t) : t := mk (name b) s (parsedInfo b).
Definition set_parsedInfo (i : option BookInfo.t) (b : t) : t := mk (name b) (abbreviation b) i.

Definition dbsCode (b : t) : JsVal :=
  match parsedInfo b with
  | Some i => JsString (BookInfo.dbsCode i)
  | None => JsUndefined
  end.

Definition parsedName (b : t) : JsVal :=
  match parsedInfo b with
  | Some i => JsString (BookInfo.name i)
  | None => JsUndefined
  end.
End Book.

(** [currentChapter] *)
Module Chapter.
Record t : Type :=
  mk { header : string; html : string; id : JsVal; number : JsNum; title : string }.

Definition set_header (h : string) (c : t) : t := mk h (html c) (id c) (number c) (title c).
Definition set_html (h : string) (c : t) : t := mk (header c) h (id c) (number c) (title c).
Definition set_id (v : JsVal) (c : t) : t := mk (header c) (html c) v (number c) (title c).
Definition set_number (n : JsNum) (c : t) : t := mk (header c) (html c) (id c) n (title c).
Definition set_title (s : string) (c : t) : t := mk (header c) (html c) (id c) (number c) s.
End Chapter.

(** [currentVerse] *)
Module Verse.
Record t : Type := mk { id : JsVal; number : JsVal; text : string }.
End Verse.

(** An element of [bibleData.chapterData].  [previd] and [nextid] do not
    exist ([JsUndefined]) until [addChapterNavigation] writes them. *)
Module ChapterRecord.
Record t : Type :=
  mk { id : JsVal; title : string; html : string; previd : JsVal; nextid : JsVal }.

Definition set_previd (v : JsVal) (c : t) : t :=
  mk (id c) (title c) (html c) v (nextid c).
Definition set_nextid (v : JsVal) (c : t) : t :=
  mk (id c) (title c) (html c) (previd c) v.
Definition set_html (h : string) (c : t) : t :=
  mk (id c) (title c) h (previd c) (nextid c).
End ChapterRecord.

(** One call [verseIndexer.indexVerse(id, text, bibleData.indexData, info.lang)]. *)
Module IndexCall.
Record t : Type := mk { verseId : JsVal; verseText : string; lang : JsVal }.
End IndexCall.

(** The [info] object: the language read by the indexer and the properties
    that [generate] writes into it. *)
Module Info.
Record t : Type :=
  mk { lang : JsVal;
       type : JsVal;
       divisions : list JsVal;
       divisionNames : list string;
       divisionAbbreviations : list string;
       sections : list JsVal }.
End Info.

(** The four kinds of block whose closing markup is owed through a flag. *)
Inductive BlockKind : Type := TextBlock | VerseBlock | FootnoteBlock | ListItemBlock.

#[global] Instance BlockKind_eq_dec : EqDecision BlockKind.
Proof. solve_decision. Defined.

(** What a piece of markup does to the blocks, kept next to the markup when
    it is appended.  The engine never reads these labels. *)
Inductive BlockEvent : Type :=
| Opened (k : BlockKind)
| Closed (k : BlockKind).

Module Fragment.
Record t : Type := mk { text : string; events : list BlockEvent }.
Definition plain (s : string) : t := mk s [].
Definition empty : t := plain "".
End Fragment.

(** Observable effects outside the returned data. *)
Inductive Effect : Type :=
| StartProgress (total : nat) (label : string)
| ConsoleLog (line : string).

(** *** State *)

(** Closure variables of [uwGenerateUsfm] and public properties of
    [uwObject]: they live as long as the module instance.  [emitted] is the
    history of block events of all markup appended so far. *)
Module Module_.
Record t : Type :=
  mk { textBlockOpen : bool;
       verseBlockOpen : bool;
       footnoteBlockOpen : bool;
       listItemBlockOpen : bool;
       htmlBreakingElement : string;
       unparsedTags : list string;
       outputUnparsedTags : bool;
       effects : list Effect;
       emitted : list BlockEvent }.

(** The state right after [new uwGenerateUsfm()]. *)
Definition initial : t :=
  mk false false false false Js.nl [] true [] [].

Definition flag (k : BlockKind) (m : t) : bool :=
  match k with
  | TextBlock => textBlockOpen m
  | VerseBlock => verseBlockOpen m
  | FootnoteBlock => footnoteBlockOpen m
  | ListItemBlock => listItemBlockOpen m
  end.

Definition set_flag (k : BlockKind) (b : bool) (m : t) : t :=
  match k with
  | TextBlock =>
      mk b (verseBlockOpen m) (footnoteBlockOpen m) (listItemBlockOpen m)
         (htmlBreakingElement m) (unparsedTags m) (outputUnparsedTags m) (effects m) (emitted m)
  | VerseBlock =>
      mk (textBlockOpen m) b (footnoteBlockOpen m) (listItemBlockOpen m)
         (htmlBreakingElement m) (unparsedTags m) (outputUnparsedTags m) (effects m) (emitted m)
  | FootnoteBlock =>
      mk (textBlockOpen m) (verseBlockOpen m) b (listItemBlockOpen m)
         (htmlBreakingElement m) (unparsedTags m) (outputUnparsedTags m) (effects m) (emitted m)
  | ListItemBlock =>
      mk (textBlockOpen m) (verseBlockOpen m) (footnoteBlockOpen m) b
         (htmlBreakingElement m) (unparsedTags m) (outputUnparsedTags m) (effects m) (emitted m)
  end.

Definition set_unparsedTags (l : list string) (m : t) : t :=
  mk (textBlockOpen m) (verseBlockOpen m) (footnoteBlockOpen m) (listItemBlockOpen m)
     (htmlBreakingElement m) l (outputUnparsedTags m) (effects m) (emitted m).

Definition add_effect (e : Effect) (m : t) : t :=
  mk (textBlockOpen m) (verseBlockOpen m) (footnoteBlockOpen m) (listItemBlockOpen m)
     (htmlBreakingElement m) (unparsedTags m) (outputUnparsedTags m) (effects m ++ [e]) (emitted m).

Definition add_emitted (l : list BlockEvent) (m : t) : t :=
  mk (textBlockOpen m) (verseBlockOpen m) (footnoteBlockOpen m) (listItemBlockOpen m)
     (htmlBreakingElement m) (unparsedTags m) (outputUnparsedTags m) (effects m) (emitted m ++ l).
End Module_.

(** [bibleData] and the locals of [generate], with the [info] argument. *)
Module Run.
Record t : Type :=
  mk { chapterData : list ChapterRecord.t;
       indexData : list IndexCall.t;
       aboutHtml : string;
       bookCodes : list JsVal;
       bookNames : list string;
       bookAbbreviations : list string;
       chapterCodes : list JsVal;
       info : Info.t;
       createIndex : bool }.

Definition set_chapterData (l : list ChapterRecord.t) (r : t) : t :=
  mk l (indexData r) (aboutHtml r) (bookCodes r) (bookNames r) (bookAbbreviations r)
     (chapterCodes r) (info r) (createIndex r).
Definition set_indexData (l : list IndexCall.t) (r : t) : t :=
  mk (chapterData r) l (aboutHtml r) (bookCodes r) (bookNames r) (bookAbbreviations r)
     (chapterCodes r) (info r) (createIndex r).
Definition set_aboutHtml (s : string) (r : t) : t :=
  mk (chapterData r) (indexData r) s (bookCodes r) (bookNames r) (bookAbbreviations r)
     (chapterCodes r) (info r) (createIndex r).
Definition set_chapterCodes (l : list JsVal) (r : t) : t :=
  mk (chapterData r) (indexData r) (aboutHtml r) (bookCodes r) (bookNames r)
     (bookAbbreviations r) l (info r) (createIndex r).
Definition push_book (code : JsVal) (name abbr : string) (r : t) : t :=
  mk (chapterData r) (indexData r) (aboutHtml r) (bookCodes r ++ [code])
     (bookNames r ++ [name]) (bookAbbreviations r ++ [abbr])
     (chapterCodes r) (info r) (createIndex r).
Definition set_info (i : Info.t) (r : t) : t :=
  mk (chapterData r) (indexData r) (aboutHtml r) (bookCodes r) (bookNames r)
     (bookAbbreviations r) (chapterCodes r) i (createIndex r).

(** The locals as [generate] initialises them. *)
Definition fresh (i : Info.t) (ci : bool) : t :=
  mk [] [] "" [] [] [] [] i ci.
End Run.

(** Locals of the callback that handles one file. *)
Module Unit_.
Record t : Type :=
  mk { currentBook : Book.t;
       currentChapter : Chapter.t;
       currentVerse : Verse.t;
       noteNumber : Z }.

Definition fresh : t :=
  mk (Book.mk "" "" None)
     (Chapter.mk "" "" (JsString "") (Int 0) "")
     (Verse.mk (JsString "") (JsNumber (Int 0)) "")
     1.

Definition set_book (b : Book.t) (u : t) : t :=
  mk b (currentChapter u) (currentVerse u) (noteNumber u).
Definition set_chapter (c : Chapter.t) (u : t) : t :=
  mk (currentBook u) c (currentVerse u) (noteNumber u).
Definition set_verse (v : Verse.t) (u : t) : t :=
  mk (currentBook u) (currentChapter u) v (noteNumber u).
Definition set_noteNumber (n : Z) (u : t) : t :=
  mk (currentBook u) (currentChapter u) (currentVerse u) n.
End Unit_.

Record State : Type :=
  mkState { st_module : Module_.t; st_run : Run.t; st_unit : Unit_.t }.

Definition on_module (f : Module_.t -> Module_.t) (st : State) : State :=
  mkState (f (st_module st)) (st_run st) (st_unit st).
Definition on_run (f : Run.t -> Run.t) (st : State) : State :=
  mkState (st_module st) (f (st_run st)) (st_unit st).
Definition on_unit (f : Unit_.t -> Unit_.t) (st : State) : State :=
  mkState (st_module st) (st_run st) (f (st_unit st)).

Definition book (st : State) : Book.t := Unit_.currentBook (st_unit st).
Definition chapter (st : State) : Chapter.t := Unit_.currentChapter (st_unit st).
Definition verse (st : State) : Verse.t := Unit_.currentVerse (st_unit st).
Definition chapterData (st : State) : list ChapterRecord.t := Run.chapterData (st_run st).
Definition indexData (st : State) : list IndexCall.t := Run.indexData (st_run st).
Definition chapterCodes (st : State) : list JsVal := Run.chapterCodes (st_run st).
Definition unparsedTags (st : State) : list string := Module_.unparsedTags (st_module st).
Definition emitted (st : State) : list BlockEvent := Module_.emitted (st_module st).
Definition flag (k : BlockKind) (st : State) : bool := Module_.flag k (st_module st).
Definition br (st : State) : string := Module_.htmlBreakingElement (st_module st).

(** ** The state and exception monad *)

Inductive Outcome (A : Type) : Type :=
| Ok (a : A) (st : State)
| Throw (error : string) (st : State).
Arguments Ok {A} a st.
Arguments Throw {A} error st.

Definition outcome_state {A} (o : Outcome A) : State :=
  match o with Ok _ st => st | Throw _ st => st end.

Definition M (A : Type) : Type := State -> Outcome A.

Definition ret {A} (a : A) : M A := fun st => Ok a st.

Definition bind {A B} (m : M A) (k : A -> M B) : M B :=
  fun st =>
    match m st with
    | Ok a st' => k a st'
    | Throw e st' => Throw e st'
    end.

Definition throw {A} (e : string) : M A := fun st => Throw e st.
Definition gets {A} (f : State -> A) : M A := fun st => Ok (f st) st.
Definition modify (f : State -> State) : M unit := fun st => Ok tt (f st).

Notation "'let*' x ':=' m 'in' k" := (bind m (fun x => k))
  (at level 10, x name, m at level 100, k at level 200).
Notation "m ';;' k" := (bind m (fun _ => k))
  (at level 100, k at level 200, right associativity).

Definition when (b : bool) (m : M unit) : M unit := if b then m else ret tt.

(** [for (...) body] and [forEach]: the body on each element in order; an
    exception ends the loop. *)
Fixpoint forEach {A} (body : A -> M unit) (l : list A) : M unit :=
  match l with
  | [] => ret tt
  | x :: l' => body x ;; forEach body l'
  end.

(** ** Collaborators

    The modules the generator [require]s: the tokenizer
    ([usfmParser.parseLine]), the book table
    ([bibleDataParser.getBookInfoByUsfmCode], [None] when the code is not
    in the table) and the formatter ([bibleFormatter]).  Everything below is
    stated for arbitrary collaborators. *)
Class Collaborators : Type :=
  { parseLine : string -> list TagRecord.t;
    getBookInfoByUsfmCode : string -> option BookInfo.t;
    formatChapterCode : JsVal -> JsNum -> JsVal;
    formatVerseCode : JsVal -> JsNum -> JsVal -> JsVal;
    openVerse : JsVal -> JsVal -> string;
    closeVerse : string;
    openChapter : Info.t -> ChapterRecord.t -> string;
    bibleFormatter_closeChapter : string }.

(** The [case] labels of the [switch] in [generate], grouped as the source
    groups them by fall-through. *)
Inductive Case : Type :=
| CaseB | CaseC | CaseH | CaseIde | CaseId | CaseToc1 | CaseToc2 | CaseToc3
| CaseHeading | CaseV | CaseParagraph | CaseListItem | CaseNoteOpen
| CaseFqa | CaseFt | CaseNoteClose
| CaseWj | CaseWjEnd | CaseQs | CaseQsEnd | CaseNd | CaseNdEnd
| CaseDefault.

Definition key_in (k : string) (l : list string) : bool := existsb (String.eqb k) l.

Definition headingKeys : list string :=
  ["is"; "is1"; "ip"; "ili"; "ili1"; "ili2";
   "mt"; "mt1"; "mt2"; "mt3"; "ms"; "d"; "sp"; "sr"; "s1"; "s2"; "r"].
Definition paragraphKeys : list string :=
  ["cp"; "m"; "mi"; "nb"; "p"; "pi"; "q"; "q1"; "q2"; "q3"].
Definition listItemKeys : list string := ["li"; "li1"; "li2"; "li3"].

Definition classify (k : string) : Case :=
  if String.eqb k "b" then CaseB
  else if String.eqb k "c" then CaseC
  else if String.eqb k "h" then CaseH
  else if String.eqb k "ide" then CaseIde
  else if String.eqb k "id" then CaseId
  else if String.eqb k "toc1" then CaseToc1
  else if String.eqb k "toc2" then CaseToc2
  else if String.eqb k "toc3" then CaseToc3
  else if key_in k headingKeys then CaseHeading
  else if String.eqb k "v" then CaseV
  else if key_in k paragraphKeys then CaseParagraph
  else if key_in k listItemKeys then CaseListItem
  else if key_in k ["x"; "f"] then CaseNoteOpen
  else if String.eqb k "fqa" then CaseFqa
  else if String.eqb k "ft" then CaseFt
  else if key_in k ["x*"; "f*"] then CaseNoteClose
  else if String.eqb k "wj" then CaseWj
  else if String.eqb k "wj*" then CaseWjEnd
  else if String.eqb k "qs" then CaseQs
  else if String.eqb k "qs*" then CaseQsEnd
  else if String.eqb k "nd" then CaseNd
  else if String.eqb k "nd*" then CaseNdEnd
  else CaseDefault.

(** ** Utility functions of the module *)

(** [stripPlural]: drops a final [s]. *)
Definition stripPlural (text : string) : string :=
  match Js.last_char text with
  | Some a => if Ascii.eqb a "s"%char then Js.drop_last text else text
  | None => text
  end.

(** [stripCaller]: [text.substring(text.indexOf(' ') + 1)]; [indexOf] is
    [-1] when there is no space, and then the whole text is returned. *)
Definition stripCaller (text : string) : string :=
  match Js.indexOf " " text with
  | Some firstSpace => Js.substring_from (firstSpace + 1) text
  | None => Js.substring_from 0 text
  end.

(** [abbreviate] *)
Definition abbreviate (text : string) : string :=
  Js.substring_to 3 (Js.remove_whitespace text).

Definition div (cls : string) : string := "<div class=" +:+ Js.quoted cls +:+ ">".
Definition span (cls : string) : string := "<span class=" +:+ Js.quoted cls +:+ ">".

(** [getChapterHeader] *)
Definition getChapterHeader (breaking : string) (c : Chapter.t) : string :=
  let psalmChapter := "PS" +:+ Js.num_toString (Chapter.number c) in
  let content :=
    if Js.loose_eq_string (Chapter.id c) psalmChapter
    then stripPlural (Chapter.header c) +:+ " "
    else "" in
  let content := content +:+ Js.num_toString (Chapter.number c) in
  div "c" +:+ content +:+ "</div>" +:+ breaking.

(** The markup that opens a note, up to the place of its text. *)
Definition noteMarkup (noteNumber : Z) : string :=
  let n := Js.num_toString (Int noteNumber) in
  "<span class=" +:+ Js.quoted "note" +:+ " id=" +:+ Js.quoted ("note-" +:+ n)
  +:+ "><a class=" +:+ Js.quoted "key" +:+ " href=" +:+ Js.quoted ("#footnote-" +:+ n)
  +:+ ">" +:+ n +:+ "</a>" +:+ span "text".

(** What the [x] and [f] cases append. *)
Definition noteOpening (noteNumber : Z) (text : string) : string :=
  noteMarkup noteNumber +:+ stripCaller text.

(** ** The engine *)

Section Engine.
Context `{C : Collaborators}.

(** [currentChapter.html += f] *)
Definition appendHtml (f : Fragment.t) : M unit :=
  modify (fun st =>
    on_module (Module_.add_emitted (Fragment.events f))
      (on_unit (Unit_.set_chapter
                  (Chapter.set_html (Chapter.html (chapter st) +:+ Fragment.text f) (chapter st)))
               st)).

Definition setFlag (k : BlockKind) (b : bool) : M unit :=
  modify (on_module (Module_.set_flag k b)).

(** [closeTextBlock] *)
Definition closeTextBlock : M Fragment.t :=
  let* isOpen := gets (flag TextBlock) in
  if isOpen : bool then
    setFlag TextBlock false ;;
    let* b := gets br in
    ret (Fragment.mk ("</div>" +:+ b) [Closed TextBlock])
  else ret Fragment.empty.

(** [closeVerseBlock] *)
Definition closeVerseBlock : M Fragment.t :=
  let* isOpen := gets (flag VerseBlock) in
  if isOpen : bool then
    setFlag VerseBlock false ;;
    ret (Fragment.mk closeVerse [Closed VerseBlock])
  else ret Fragment.empty.

(** [closeFootnoteBlock] *)
Definition closeFootnoteBlock : M Fragment.t :=
  let* isOpen := gets (flag FootnoteBlock) in
  if isOpen : bool then
    setFlag FootnoteBlock false ;;
    ret (Fragment.mk "</span></span>" [Closed FootnoteBlock])
  else ret Fragment.empty.

(** [closeListItemBlock] *)
Definition closeListItemBlock : M Fragment.t :=
  let* isOpen := gets (flag ListItemBlock) in
  if isOpen : bool then
    setFlag ListItemBlock false ;;
    let* b := gets br in
    ret (Fragment.mk ("</div>" +:+ b) [Closed ListItemBlock])
  else ret Fragment.empty.

Definition closeBlock (k : BlockKind) : M Fragment.t :=
  match k with
  | TextBlock => closeTextBlock
  | VerseBlock => closeVerseBlock
  | FootnoteBlock => closeFootnoteBlock
  | ListItemBlock => closeListItemBlock
  end.

(** [closeChapter(chapter)]: a new record with the chapter's [id], [title]
    and [html] is pushed.  [bibleData] has its [chapterData] property from
    the first statement of [generate] on, so the throwing branch cannot be
    taken. *)
Definition closeChapter (c : Chapter.t) : M unit :=
  let chapterData :=
    ChapterRecord.mk (Chapter.id c) (Chapter.title c) (Chapter.html c) JsUndefined JsUndefined in
  modify (on_run (fun r => Run.set_chapterData (Run.chapterData r ++ [chapterData]) r)).

Definition setChapter (f : Chapter.t -> Chapter.t) : M unit :=
  modify (fun st => on_unit (Unit_.set_chapter (f (chapter st))) st).
Definition setBook (f : Book.t -> Book.t) : M unit :=
  modify (fun st => on_unit (Unit_.set_book (f (book st))) st).
Definition setVerse (f : Verse.t -> Verse.t) : M unit :=
  modify (fun st => on_unit (Unit_.set_verse (f (verse st))) st).

(** The statements that follow [closeChapter(currentChapter)] both in the
    [c] case and in the cleanup. *)
Definition resetChapter : M unit :=
  setChapter (Chapter.set_title "") ;;
  setChapter (Chapter.set_id (JsString "")) ;;
  setChapter (Chapter.set_html "").

(** The test and the call shared by the [v] case and the cleanup. *)
Definition indexPendingVerse : M unit :=
  let* createIndex := gets (fun st => Run.createIndex (st_run st)) in
  let* v := gets verse in
  when (createIndex
        && negb (String.eqb (Verse.text v) "")
        && negb (bool_decide (Verse.id v = JsNull)))
    (modify (on_run (fun r =>
       Run.set_indexData
         (Run.indexData r ++ [IndexCall.mk (Verse.id v) (Verse.text v) (Info.lang (Run.info r))])
         r))).

(** The three closes that open the [b], [c] and heading cases. *)
Definition closeVerseListText : M unit :=
  (let* f := closeVerseBlock in appendHtml f) ;;
  (let* f := closeListItemBlock in appendHtml f) ;;
  (let* f := closeTextBlock in appendHtml f).

(** The body of the [switch] for one tag record. *)
Definition dispatch (usfmData : TagRecord.t) : M unit :=
  let key := TagRecord.key usfmData in
  let text := TagRecord.text usfmData in
  match classify key with
  | CaseB =>
      closeVerseListText ;;
      let* b := gets br in
      appendHtml (Fragment.plain (div "b" +:+ "&nbsp;</div>" +:+ b))
  | CaseC =>
      closeVerseListText ;;
      setChapter (Chapter.set_number (Js.parseInt (TagRecord.number usfmData))) ;;
      let* number := gets (fun st => Chapter.number (chapter st)) in
      when (Js.gt1 number)
        ((let* c := gets chapter in closeChapter c) ;; resetChapter) ;;
      let* bk := gets book in
      setChapter (Chapter.set_title
                    (Js.toString (Book.parsedName bk) +:+ " " +:+ Js.num_toString number)) ;;
      setChapter (Chapter.set_id (formatChapterCode (Book.dbsCode bk) number)) ;;
      let* id := gets (fun st => Chapter.id (chapter st)) in
      modify (on_run (fun r => Run.set_chapterCodes (Run.chapterCodes r ++ [id]) r)) ;;
      let* b := gets br in
      let* c := gets chapter in
      appendHtml (Fragment.plain (getChapterHeader b c))
  | CaseH =>
      setChapter (Chapter.set_header (Js.trim text))
  | CaseIde =>
      ret tt
  | CaseId =>
      let bookId := Js.toUpperCase (Js.trim (Js.first_field " " text)) in
      match getBookInfoByUsfmCode bookId with
      | None => throw "TypeError: cannot read property names of an unresolved book"
      | Some parsedInfo =>
          setBook (Book.set_parsedInfo (Some parsedInfo)) ;;
          match BookInfo.names_eng parsedInfo with
          | [] => throw "TypeError: cannot read property replace of undefined"
          | name :: _ =>
              setBook (Book.set_name name) ;;
              setBook (Book.set_abbreviation (abbreviate name))
          end
      end
  | CaseToc1 | CaseToc2 =>
      when (negb (String.eqb (Js.trim text) "")) (setBook (Book.set_name (Js.trim text)))
  | CaseToc3 =>
      when (negb (String.eqb (Js.trim text) "")) (setBook (Book.set_abbreviation (Js.trim text)))
  | CaseHeading =>
      closeVerseListText ;;
      let* b := gets br in
      appendHtml (Fragment.plain (div key +:+ text +:+ "</div>" +:+ b))
  | CaseV =>
      (let* f := closeVerseBlock in appendHtml f) ;;
      indexPendingVerse ;;
      setVerse (fun v => Verse.mk (Verse.id v) (Verse.number v) text) ;;
      setVerse (fun v => Verse.mk (Verse.id v) (TagRecord.number usfmData) (Verse.text v)) ;;
      let* bk := gets book in
      let* c := gets chapter in
      setVerse (fun v =>
        Verse.mk (formatVerseCode (Book.dbsCode bk) (Chapter.number c) (Verse.number v))
                 (Verse.number v) (Verse.text v)) ;;
      let* v := gets verse in
      appendHtml (Fragment.mk (openVerse (Verse.id v) (Verse.number v) +:+ Verse.text v)
                              [Opened VerseBlock]) ;;
      setFlag VerseBlock true
  | CaseParagraph =>
      (let* f := closeVerseBlock in appendHtml f) ;;
      (let* f := closeTextBlock in appendHtml f) ;;
      let* b := gets br in
      appendHtml (Fragment.mk (div key +:+ b) [Opened TextBlock]) ;;
      let* v := gets verse in
      when (negb (String.eqb text ""))
        (appendHtml (Fragment.mk (openVerse (Verse.id v) JsNull +:+ text +:+ closeVerse)
                                 [Opened VerseBlock; Closed VerseBlock])) ;;
      setFlag TextBlock true
  | CaseListItem =>
      (let* f := closeVerseBlock in appendHtml f) ;;
      (let* f := closeListItemBlock in appendHtml f) ;;
      appendHtml (Fragment.mk (div key +:+ text) [Opened ListItemBlock]) ;;
      setFlag ListItemBlock true
  | CaseNoteOpen =>
      let* noteNumber := gets (fun st => Unit_.noteNumber (st_unit st)) in
      appendHtml (Fragment.mk (noteOpening noteNumber text) [Opened FootnoteBlock]) ;;
      modify (on_unit (Unit_.set_noteNumber (noteNumber + 1))) ;;
      setFlag FootnoteBlock true
  | CaseFqa =>
      appendHtml (Fragment.plain ("<em>" +:+ text +:+ "</em>"))
  | CaseFt =>
      appendHtml (Fragment.plain text)
  | CaseNoteClose =>
      let* f := closeFootnoteBlock in appendHtml f
  | CaseWj =>
      appendHtml (Fragment.plain (span "wj woj" +:+ text))
  | CaseQs =>
      appendHtml (Fragment.plain (span "qs" +:+ text))
  | CaseNd =>
      appendHtml (Fragment.plain (span "nog" +:+ text))
  | CaseWjEnd | CaseQsEnd | CaseNdEnd =>
      appendHtml (Fragment.plain "</span>")
  | CaseDefault =>
      let* tags := gets unparsedTags in
      when (negb (String.eqb key "") && negb (key_in key tags))
        (modify (on_module (Module_.set_unparsedTags (tags ++ [key]))))
  end.

(** The body of the loop over the lines of a file. *)
Definition processLine (line : string) : M unit :=
  let usfmLineData := parseLine line in
  match usfmLineData with
  | [] =>
      when (negb (String.eqb (Js.remove_whitespace line) ""))
        (appendHtml (Fragment.plain (" " +:+ line)))
  | _ => forEach dispatch usfmLineData
  end.

(** The statements after the loop over the lines. *)
Definition cleanup : M unit :=
  (let* f := closeFootnoteBlock in appendHtml f) ;;
  (let* f := closeVerseBlock in appendHtml f) ;;
  indexPendingVerse ;;
  (let* f := closeListItemBlock in appendHtml f) ;;
  (let* f := closeTextBlock in appendHtml f) ;;
  (let* c := gets chapter in closeChapter c) ;;
  resetChapter ;;
  let* bk := gets book in
  modify (on_run (Run.push_book (Book.dbsCode bk) (Book.name bk) (Book.abbreviation bk))).

Definition isUsfm (filename : string) : bool :=
  match Js.indexOf ".usfm" filename with
  | Some _ => true
  | None => false
  end.

(** The callback of [usfmFiles.forEach]; a directory entry is a file name
    with the content [readFileSync] returns for it. *)
Definition processFile (file : string * string) : M unit :=
  let '(filename, fileContent) := file in
  if isUsfm filename then
    let lines := Js.split (ascii_of_nat 10) fileContent in
    modify (on_unit (fun _ => Unit_.fresh)) ;;
    forEach processLine lines ;;
    cleanup
  else ret tt.
End Engine.

(** ** The postprocessor and [generate] *)

(** The object [generate] returns.  [indexLemmaData] is created empty and
    never written. *)
Module RunResult.
Record t : Type :=
  mk { chapterData : list ChapterRecord.t;
       indexData : list IndexCall.t;
       indexLemmaData : list IndexCall.t;
       aboutHtml : string }.
End RunResult.

Section Postprocessor.
Context `{C : Collaborators}.

Definition setChapterData (l : list ChapterRecord.t) : M unit :=
  modify (on_run (Run.set_chapterData l)).

(** [bibleData.chapterData[j]], which is [undefined] out of range; reading
    or writing a property of it then throws. *)
Definition chapterAt (j : nat) : M ChapterRecord.t :=
  let* cd := gets chapterData in
  match cd !! j with
  | Some c => ret c
  | None => throw "TypeError: cannot access a property of undefined"
  end.

(** [bibleData.chapterData[j].field = ...], a write into the record that
    sits at index [j]. *)
Definition updateChapterAt (j : nat) (f : ChapterRecord.t -> ChapterRecord.t) : M unit :=
  let* c := chapterAt j in
  let* cd := gets chapterData in
  setChapterData (<[j := f c]> cd).

(** [addChapterNavigation] *)
Definition addChapterNavigation : M unit :=
  let* il := gets (fun st => length (chapterData st)) in
  forEach (fun i : nat =>
    (let* previd :=
       if (i =? 0)%nat then ret JsNull
       else (let* p := chapterAt (i - 1) in ret (ChapterRecord.id p)) in
     updateChapterAt i (ChapterRecord.set_previd previd)) ;;
    (let* nextid :=
       if (i =? il - 1)%nat then ret JsNull
       else (let* n := chapterAt (i + 1) in ret (ChapterRecord.id n)) in
     updateChapterAt i (ChapterRecord.set_nextid nextid)))
    (seq 0 il).

(** [wrapChapterHtmlElements(info)] *)
Definition wrapChapterHtmlElements (info : Info.t) : M unit :=
  let* il := gets (fun st => length (chapterData st)) in
  forEach (fun i : nat =>
    let* chapter := chapterAt i in
    updateChapterAt i
      (ChapterRecord.set_html
         (openChapter info chapter +:+ ChapterRecord.html chapter
          +:+ bibleFormatter_closeChapter)))
    (seq 0 il).

(** [outputFinalComments] *)
Definition outputFinalComments : M unit :=
  let* m := gets st_module in
  when (Module_.outputUnparsedTags m)
    (modify (on_module (Module_.add_effect
       (ConsoleLog ("Unparsed USFM Tags: [ " +:+ Js.join "," (Module_.unparsedTags m) +:+ " ]"))))).

(** [getAboutContent]: the content of [about.html] when the directory has
    one, the empty string otherwise. *)
Definition getAboutContent (dir : list (string * string)) : string :=
  match find (fun f => String.eqb (fst f) "about.html") dir with
  | Some f => snd f
  | None => ""
  end.

Definition result (st : State) : RunResult.t :=
  RunResult.mk (chapterData st) (indexData st) [] (Run.aboutHtml (st_run st)).

(** The properties [generate] adds to [info] after the last file. *)
Definition completeInfo (r : Run.t) : Info.t :=
  Info.mk (Info.lang (Run.info r)) (JsString "bible")
          (Run.bookCodes r) (Run.bookNames r) (Run.bookAbbreviations r)
          (Run.chapterCodes r).

(** [uwObject.generate]: [dir] is what [readdirSync(inputBasePath)] lists,
    each name with the content of the file. *)
Definition generate (dir : list (string * string)) (info : Info.t) (createIndex : bool)
  : M RunResult.t :=
  modify (on_run (fun _ => Run.fresh info createIndex)) ;;
  let usfmFiles := dir in
  modify (on_run (Run.set_aboutHtml (getAboutContent dir))) ;;
  modify (on_module (Module_.add_effect (StartProgress (length usfmFiles) "Books"))) ;;
  forEach processFile usfmFiles ;;
  modify (on_run (fun r => Run.set_info (completeInfo r) r)) ;;
  addChapterNavigation ;;
  (let* info := gets (fun st => Run.info (st_run st)) in wrapChapterHtmlElements info) ;;
  outputFinalComments ;;
  gets result.
End Postprocessor.

(** A state of a module instance on which [generate] has not run yet. *)
Definition initialState : State :=
  mkState Module_.initial
          (Run.fresh (Info.mk JsUndefined JsUndefined [] [] [] []) false)
          Unit_.fresh.

(** ** A concrete set of collaborators for running the engine

    The theorems hold for every tokenizer, book table and formatter; this
    instance serves to evaluate the engine on concrete files.  Its tokenizer
    reads one marker per line (a backslash, the key and the text, with a
    number in between for [c] and [v]); its formatter builds the chapter
    code as book code followed by the chapter number, as in the identifiers
    [GEN1] and [GEN2] of the specification. *)
Module Sample.

Definition parseLine (line : string) : list TagRecord.t :=
  match line with
  | String bs rest =>
      if Ascii.eqb bs (ascii_of_nat 92) then
        let key := Js.first_field " " rest in
        let after := Js.substring_from (String.length key + 1) rest in
        if String.eqb key "" then []
        else if key_in key ["c"; "v"] then
          let num := Js.first_field " " after in
          [TagRecord.mk key (JsString num) (Js.substring_from (String.length num + 1) after)]
        else [TagRecord.mk key JsUndefined after]
      else []
  | EmptyString => []
  end.

Definition books : list (string * BookInfo.t) :=
  [("GEN", BookInfo.mk "GEN" "Genesis" ["Genesis"; "Gen"]);
   ("PSA", BookInfo.mk "PS" "Psalms" ["Psalms"; "Ps"]);
   ("REV", BookInfo.mk "RV" "Revelation" ["Revelation"; "Rev"])].

Definition getBookInfoByUsfmCode (code : string) : option BookInfo.t :=
  snd <$> find (fun b => String.eqb (fst b) code) books.

Definition formatChapterCode (dbsCode : JsVal) (n : JsNum) : JsVal :=
  JsString (Js.toString dbsCode +:+ Js.num_toString n).

Definition formatVerseCode (dbsCode : JsVal) (n : JsNum) (v : JsVal) : JsVal :=
  JsString (Js.toString dbsCode +:+ Js.num_toString n +:+ "_" +:+ Js.toString v).

Definition openVerse (id number : JsVal) : string :=
  match number with
  | JsNull => ""
  | _ => span "v-num" +:+ Js.toString number +:+ "&nbsp;</span>"
  end +:+ span ("v " +:+ Js.toString id).

Definition openChapter (info : Info.t) (c : ChapterRecord.t) : string :=
  "<div class=" +:+ Js.quoted "section chapter" +:+ " data-id=" +:+ Js.quoted (Js.toString (ChapterRecord.id c))
  +:+ " data-nextid=" +:+ Js.quoted (Js.toString (ChapterRecord.nextid c))
  +:+ " data-previd=" +:+ Js.quoted (Js.toString (ChapterRecord.previd c))
  +:+ " lang=" +:+ Js.quoted (Js.toString (Info.lang info)) +:+ ">" +:+ Js.nl.

Definition collaborators : Collaborators :=
  Build_Collaborators parseLine getBookInfoByUsfmCode formatChapterCode formatVerseCode
    openVerse ("</span>" +:+ Js.nl) openChapter ("</div>" +:+ Js.nl).

Definition info : Info.t := Info.mk (JsString "en") JsUndefined [] [] [] [].

(** Runs [generate] on a fresh module instance. *)
Definition run (dir : list (string * string)) (createIndex : bool) : Outcome RunResult.t :=
  generate (C := collaborators) dir info createIndex initialState.

Definition lines (l : list string) : string := Js.join Js.nl l.

(** The scenario of the specification (two chapters of Genesis), and a
    directory made of it, a file that is not USFM and a psalm. *)
Definition genesis : string :=
  lines ["\id GEN"; "\c 1"; "\v 1 In the beginning"; "\p"; "\c 2"; "\v 1 Now the earth"].

Definition psalm : string :=
  lines ["\id PSA"; "\h Psalms"; "\c 1"; "\q"; "\v 1 Blessed is the man"].

Definition library : list (string * string) :=
  [("01-GEN.usfm", genesis); ("about.html", "<p>About</p>"); ("19-PSA.usfm", psalm)].

End Sample.

(** ** The catalog reader, [tools/unfolding-word/uw-grab-available-texts]

    The module that reads the catalog of Bible versions and prepares one
    input directory per version.  The values it receives come from
    [JSON.parse]; the fields it concatenates or tests for truth are scalar
    [JsVal]s, the fields it calls string methods on are strings.  The
    network, the file system and the console are the events it emits; the
    callbacks it hands to [request], [del] and [mkdirp] are functions of what
    the environment passes to them.  The arrays of the catalog hold objects;
    a property the module reads through is optional: it is [None] when it is
    absent or null, and reading through it then throws; when it is there it
    has the type the catalog gives it, a string, an object or an array of
    objects.  An error passed to a callback is
    [JsNull] when there is none and otherwise the text the error reads as;
    an uncaught exception in a callback is the outcome [Throw]. *)

(** An entry of the language list: [lc], [ln], [ang], [ld]. *)
Module Language.
Record t : Type := mk { lc : string; ln : JsVal; ang : JsVal; ld : JsVal }.
End Language.

(** The [status] object of a version; a property that is absent reads as
    [JsUndefined]. *)
Module Status.
Record t : Type :=
  mk { contributors : JsVal;
       checking_entity : JsVal;
       checking_level : JsVal;
       publish_date : JsVal;
       version : JsVal;
       comments : JsVal }.
End Status.

(** An entry of the [toc] of a version, of which the module reads [src]. *)
Module TocEntry.
Record t : Type := mk { src : JsVal; title : JsVal }.
End TocEntry.

(** A version of the catalog.  The module calls a string method on [slug],
    reads properties of [status] and reads the length of [toc]: each of the
    three is [None] when it is absent or null, and the read then throws.
    [name] is only concatenated. *)
Module Version.
Record t : Type :=
  mk { slug : option string;
       name : JsVal;
       status : option Status.t;
       toc : option (list TocEntry.t) }.
End Version.

(** An element of [langs]: the language code and the versions, each [None]
    when it is absent or null. *)
Module CatalogLanguage.
Record t : Type := mk { lc : option string; vers : option (list Version.t) }.
End CatalogLanguage.

(** An element of [data.cat]; [langs] is [None] when it is absent or null. *)
Module Category.
Record t : Type := mk { slug : JsVal; langs : option (list CatalogLanguage.t) }.
End Category.

(** The [version_info] object written to [info.json]. *)
Module VersionInfo.
Record t : Type :=
  mk { id : string;
       abbr : string;
       name : JsVal;
       nameEnglish : string;
       lang : string;
       langName : JsVal;
       langNameEnglish : JsVal;
       dir : JsVal;
       generator : string;
       checking_level : JsVal }.
End VersionInfo.

(** A [bible] object as [getBibleVersions] builds it. *)
Module Bible.
Record t : Type := mk { about : string; version_info : VersionInfo.t; files : list JsVal }.
End Bible.

(** What the module does to the outside. *)
Inductive GrabEvent : Type :=
| ConsoleLine (line : string)
| ConsoleValue (v : JsVal)
| Request (url : string)
| Del (pattern : string)
| Mkdirp (path : string)
| WriteFile (path content : string)
| DownloadGet (url : JsVal)
| DownloadDest (path : JsVal)
| DownloadRun.

(** The public properties of [uwObject], with the events emitted so far. *)
Module GrabState.
Record t : Type :=
  mk { destinationFolder : string;
       catalogUrl : string;
       languagesUrl : string;
       silenceNotification : bool;
       languageData : list Language.t;
       events : list GrabEvent }.

Definition initial : t :=
  mk "../../input" "" "http://td.unfoldingword.org/exports/langnames.json" false [] [].

Definition emit (e : GrabEvent) (s : t) : t :=
  mk (destinationFolder s) (catalogUrl s) (languagesUrl s) (silenceNotification s)
     (languageData s) (events s ++ [e])%list.

Definition set_languageData (l : list Language.t) (s : t) : t :=
  mk (destinationFolder s) (catalogUrl s) (languagesUrl s) (silenceNotification s)
     l (events s).
End GrabState.

(** What [request] passes to its callback. *)
Module Response.
Record t : Type := mk { error : JsVal; statusCode : Z; body : string }.
End Response.

(** The libraries the module calls on data: [moment] for the publish date,
    [JSON.stringify] for [info.json], [JSON.parse] for the two bodies
    ([None] when it throws). *)
Class GrabLibraries : Type :=
  { formatPublishDate : string -> string;
    stringifyVersionInfo : VersionInfo.t -> string;
    parseLanguages : string -> option (list Language.t);
    parseCatalog : string -> option (list Category.t) }.

Module Grab.

(** The state and exception monad of the module. *)
Inductive Outcome (A : Type) : Type :=
| Ok (a : A) (s : GrabState.t)
| Throw (error : string) (s : GrabState.t).
Arguments Ok {A} a s.
Arguments Throw {A} error s.

Definition G (A : Type) : Type := GrabState.t -> Outcome A.

Definition ret {A} (a : A) : G A := fun s => Ok a s.

Definition bind {A B} (m : G A) (k : A -> G B) : G B :=
  fun s =>
    match m s with
    | Ok a s' => k a s'
    | Throw e s' => Throw e s'
    end.

Definition throw {A} (e : string) : G A := fun s => Throw e s.
Definition gets {A} (f : GrabState.t -> A) : G A := fun s => Ok (f s) s.
Definition emit (e : GrabEvent) : G unit := fun s => Ok tt (GrabState.emit e s).

Definition outcome_state {A} (o : Outcome A) : GrabState.t :=
  match o with Ok _ s => s | Throw _ s => s end.

Notation "'do*' x ':=' m 'in' k" := (bind m (fun x => k))
  (at level 10, x name, m at level 100, k at level 200).
Notation "m ';;;' k" := (bind m (fun _ => k))
  (at level 100, k at level 200, right associativity).

Fixpoint forEach {A} (body : A -> G unit) (l : list A) : G unit :=
  match l with
  | [] => ret tt
  | x :: l' => body x ;;; forEach body l'
  end.

(** The truth value of a scalar in a condition. *)
Definition truthy (v : JsVal) : bool :=
  match v with
  | JsUndefined | JsNull => false
  | JsString s => negb (String.eqb s "")
  | JsNumber NaN => false
  | JsNumber (Int z) => negb (z =? 0)
  end.

(** [display] *)
Definition display (msg : string) (isError : bool) : G unit :=
  let start := if isError then "X Error > " else "> " in
  do* silence := gets GrabState.silenceNotification in
  if silence : bool then ret tt else emit (ConsoleLine (start +:+ msg)).

(** [getFiles]; [tocData.length] throws when there is no [toc]. *)
Definition getFiles (tocData : option (list TocEntry.t)) : G (list JsVal) :=
  match tocData with
  | None => throw "TypeError: cannot read property length of undefined"
  | Some tocData =>
      ret (fold_left (fun files entry => (files ++ [TocEntry.src entry])%list) tocData [])
  end.

(** [getLanguageData]: [None] is [null]. *)
Definition getLanguageData (lang_code : string) : G (option Language.t) :=
  do* languageData := gets GrabState.languageData in
  let found := List.filter (fun lang => String.eqb (Language.lc lang) lang_code) languageData in
  match found with
  | [lang] => ret (Some lang)
  | _ => ret None
  end.

Section WithLibraries.
Context `{L : GrabLibraries}.

Definition item (title : string) (v : string) : string :=
  "<dt>" +:+ title +:+ "</dt><dd>" +:+ v +:+ "</dd>".

(** [createAboutFile]; reading a property of a missing [status] throws. *)
Definition createAboutFile (version : Version.t) : G string :=
  let content := item "Information" (Js.toString (Version.name version)) in
  match Version.status version with
  | None => throw "TypeError: cannot read property contributors of undefined"
  | Some status =>
      let content :=
        if truthy (Status.contributors status)
        then content +:+ item "Contributors" (Js.toString (Status.contributors status))
        else content in
      let content :=
        if truthy (Status.checking_entity status)
        then content +:+ item "Checking Entity" (Js.toString (Status.checking_entity status))
        else content in
      let content :=
        if truthy (Status.checking_level status)
        then content +:+ item "Checking Level" (Js.toString (Status.checking_level status))
        else content in
      let content :=
        if truthy (Status.publish_date status) then
          let publishDate :=
            match Status.publish_date status with
            | JsString s => if (String.length s =? 8)%nat then formatPublishDate s else s
            | v => Js.toString v
            end in
          content +:+ item "Published" publishDate
        else content in
      let content :=
        if truthy (Status.version status)
        then content +:+ item "Version" (Js.toString (Status.version status))
        else content in
      let content :=
        if truthy (Status.comments status)
        then content +:+ item "Comments" (Js.toString (Status.comments status))
        else content in
      ret content
  end.

(** The language code used for a catalog language. *)
Definition languageCode (lc : string) : string :=
  match Js.indexOf "-" lc with
  | Some _ => Js.first_field "-" lc
  | None => lc
  end.

(** The body of the inner loop of [getBibleVersions]. *)
Definition makeBible (langCode : string) (languageData : Language.t) (version : Version.t)
  : G Bible.t :=
  let checkingLevel :=
    match Version.status version with
    | Some status =>
        match Status.checking_level status with
        | JsUndefined => JsString ""
        | v => v
        end
    | None => JsString ""
    end in
  do* about := createAboutFile version in
  match Version.slug version with
  | None => throw "TypeError: version.slug.toUpperCase is not a function"
  | Some slug =>
      let version_info :=
        VersionInfo.mk ("uw_" +:+ langCode +:+ "_" +:+ slug)
                       (Js.toUpperCase slug)
                       (Version.name version)
                       ""
                       (Language.lc languageData)
                       (Language.ln languageData)
                       (Language.ang languageData)
                       (Language.ld languageData)
                       "../unfolding-word/uw-generate-usfm"
                       checkingLevel in
      do* files := getFiles (Version.toc version) in
      ret (Bible.mk about version_info files)
  end.

Fixpoint makeBibles (langCode : string) (languageData : Language.t)
  (versions : list Version.t) (bibleVersions : list Bible.t) : G (list Bible.t) :=
  match versions with
  | [] => ret bibleVersions
  | version :: versions' =>
      do* bible := makeBible langCode languageData version in
      makeBibles langCode languageData versions' (bibleVersions ++ [bible])%list
  end.

(** The outer loop of [getBibleVersions], from the versions collected so
    far. *)
Fixpoint collectBibleVersions (languages : list CatalogLanguage.t)
  (bibleVersions : list Bible.t) : G (list Bible.t) :=
  match languages with
  | [] => ret bibleVersions
  | language :: languages' =>
      match CatalogLanguage.lc language with
      | None => throw "TypeError: cannot read property indexOf of undefined"
      | Some lc =>
          let langCode := languageCode lc in
          do* languageData := getLanguageData langCode in
          match languageData with
          | None =>
              display ("Error - getBibleVersions, Language not found: " +:+ langCode) true ;;;
              collectBibleVersions languages' bibleVersions
          | Some languageData =>
              match CatalogLanguage.vers language with
              | None => throw "TypeError: cannot read property length of undefined"
              | Some versions =>
                  do* bibleVersions :=
                    makeBibles langCode languageData versions bibleVersions in
                  collectBibleVersions languages' bibleVersions
              end
          end
      end
  end.

(** [getBibleVersions] *)
Definition getBibleVersions (languages : list CatalogLanguage.t) : G (list Bible.t) :=
  collectBibleVersions languages [].

(** [uwObject.downloadLanguageData] up to the call of [request], and the
    callback it passes. *)
Definition downloadLanguageData : G unit :=
  do* url := gets GrabState.languagesUrl in
  display ("Getting the list of languages from " +:+ url +:+ ".") false ;;;
  emit (Request url).

Definition onLanguagesResponse (response : Response.t) (_callback : G unit) : G unit :=
  if truthy (Response.error response) then
    display "Error - downloadLanguageData:" true ;;;
    emit (ConsoleValue (Response.error response))
  else if negb (Response.statusCode response =? 200) then
    display ("Error - downloadLanguageData: status code = "
             +:+ Js.num_toString (Int (Response.statusCode response))) true ;;;
    display (Response.body response) false
  else
    match parseLanguages (Response.body response) with
    | None => throw "SyntaxError: JSON.parse"
    | Some languages =>
        (fun s => Ok tt (GrabState.set_languageData languages s)) ;;;
        _callback
    end.

(** [uwObject.getBibles] up to the call of [request], and the callback it
    passes.  [getBibleVersions(undefined)] throws at its first statement,
    which is written at the call. *)
Definition getBibles : G unit :=
  do* url := gets GrabState.catalogUrl in
  display ("Getting the bibles available from " +:+ url +:+ ".") false ;;;
  emit (Request url).

Fixpoint collectCategories (cat : list Category.t) (bibles : list Bible.t)
  : G (list Bible.t) :=
  match cat with
  | [] => ret bibles
  | c :: cat' =>
      if Js.loose_eq_string (Category.slug c) "bible" then
        match Category.langs c with
        | None => throw "TypeError: cannot read property length of undefined"
        | Some langs =>
            do* versions := getBibleVersions langs in
            collectCategories cat' (bibles ++ versions)%list
        end
      else collectCategories cat' bibles
  end.

Definition onCatalogResponse (response : Response.t) (_callback : list Bible.t -> G unit)
  : G unit :=
  if negb (truthy (Response.error response)) && (Response.statusCode response =? 200) then
    match parseCatalog (Response.body response) with
    | None => throw "SyntaxError: JSON.parse"
    | Some cat =>
        do* bibles := collectCategories cat [] in
        _callback bibles
    end
  else
    throw ("uwGrabAvailableTexts - Unable to grab Unfolding Word content: "
           +:+ Js.toString (Response.error response) +:+ ".").

(** [downloadThisOne] up to the call of [mkdirp], and the callback it
    passes; [madePath] is what [mkdirp] hands back, which need not be a
    string. *)
Definition downloadThisOne (bible : Bible.t) : G unit :=
  do* destinationFolder := gets GrabState.destinationFolder in
  let directoryPath := destinationFolder +:+ "/" +:+ VersionInfo.id (Bible.version_info bible) in
  emit (Mkdirp directoryPath).

Definition onDirectoryMade (bible : Bible.t) (err : JsVal) (madePath : JsVal) : G unit :=
  if truthy err then throw (Js.toString err)
  else
    emit (WriteFile (Js.toString madePath +:+ "/info.json")
                    (stringifyVersionInfo (Bible.version_info bible))) ;;;
    emit (WriteFile (Js.toString madePath +:+ "/about.html") (Bible.about bible)) ;;;
    display "Downloading the usfm files... This may take a while... Go grab a cup of coffee..."
            false ;;;
    forEach (fun file => emit (DownloadGet file)) (Bible.files bible) ;;;
    emit (DownloadDest madePath) ;;;
    emit DownloadRun.

(** [uwObject.downloadBibles] *)
Definition downloadBibles (bibles : list Bible.t) : G unit :=
  display "Parsing the Bible data." false ;;;
  forEach downloadThisOne bibles.

(** [prepareFolder] up to the call of [del], and the callback it passes. *)
Definition prepareFolder : G unit :=
  display "Preparing the input folder." false ;;;
  do* destinationFolder := gets GrabState.destinationFolder in
  emit (Del (destinationFolder +:+ "/uw_*")).

Definition onFolderPrepared (error : JsVal) (_callback : G unit) : G unit :=
  if truthy error then
    display ("Unable to locate directories to clean up received error: "
             +:+ Js.toString error) true
  else _callback.

(** [uwObject.process], with what [del] and the two calls of [request] pass
    to their callbacks.  The callbacks of [mkdirp] run after it, one per
    directory. *)
Definition process (delError : JsVal) (languages catalog : Response.t) : G unit :=
  prepareFolder ;;;
  onFolderPrepared delError
    (downloadLanguageData ;;;
     onLanguagesResponse languages
       (getBibles ;;;
        onCatalogResponse catalog downloadBibles)).

End WithLibraries.
End Grab.

(** ** Further inputs for running the engine *)

(** Files and states on which the properties of whole runs are evaluated. *)
Module Sample2.

(** A file with two tags the switch does not know. *)
Definition unknownTags : list (string * string) :=
[("01-GEN.usfm", Sample.lines ["\id GEN"; "\c 1"; "\zz unknown"; "\v 1 In the beginning";
                               "\yy other"; "\zz again"])].

(** A file with three notes. *)
Definition notes : string * string :=
("01-GEN.usfm",
 Sample.lines ["\id GEN"; "\c 1"; "\v 1 In the beginning"; "\f + first"; "\f*";
               "\x - second"; "\x*"; "\v 2 God created"; "\f + third"; "\f*"]).


(** A state in which a paragraph, a verse and a note are open, and one in
    which a list item is open. *)
Definition noteOpen : State :=
outcome_state
  (forEach (dispatch (C := Sample.collaborators))
     [TagRecord.mk "p" JsUndefined ""; TagRecord.mk "v" (JsString "1") "In the beginning";
      TagRecord.mk "f" JsUndefined "+ a note"]
     initialState).

Definition listItemOpen : State :=
outcome_state
  (forEach (dispatch (C := Sample.collaborators))
     [TagRecord.mk "li" JsUndefined "an item"] initialState).

End Sample2.

(** ** Concrete answers for running the catalog reader

    Stand-ins for the libraries, a language list in which one code occurs
    twice, and a catalog with a category that is not the Bible, a language
    with a dash in its code, a language listed twice and an unknown
    language; the version of the language listed twice has no status, the
    unknown language has no versions and the other category no languages. *)
Module GrabSample.

Definition languages : list Language.t :=
  [Language.mk "en" (JsString "English") (JsString "English") (JsString "ltr");
   Language.mk "pt" (JsString "Portugues") (JsString "Portuguese") (JsString "ltr");
   Language.mk "ar" (JsString "Arabic") (JsString "Arabic") (JsString "rtl");
   Language.mk "ar" (JsString "Arabic") (JsString "Arabic, Standard") (JsString "rtl")].

Definition status : Status.t :=
  Status.mk (JsString "Wycliffe Associates") (JsString "Wycliffe Associates") (JsString "3")
            (JsString "20150801") (JsString "3.1") (JsString "").

Definition ulb : Version.t :=
  Version.mk (Some "ulb") (JsString "Unlocked Literal Bible") (Some status)
    (Some [TocEntry.mk (JsString "https://api.unfoldingword.org/ulb/txt/1/ulb-en/01-GEN.usfm")
                 (JsString "Genesis");
     TocEntry.mk (JsString "https://api.unfoldingword.org/ulb/txt/1/ulb-en/02-EXO.usfm")
                 (JsString "Exodus")]).

Definition udb : Version.t :=
  Version.mk (Some "udb") (JsString "Unlocked Dynamic Bible") (Some status)
    (Some [TocEntry.mk (JsString "https://api.unfoldingword.org/udb/txt/1/udb-en/01-GEN.usfm")
                       (JsString "Genesis")]).

Definition draft : Version.t := Version.mk (Some "draft") (JsString "Draft") None None.

Definition bibleLanguages : list CatalogLanguage.t :=
  [CatalogLanguage.mk (Some "en") (Some [ulb; udb]);
   CatalogLanguage.mk (Some "pt-br") (Some [ulb]);
   CatalogLanguage.mk (Some "ar") (Some [draft]);
   CatalogLanguage.mk (Some "xx") None].

Definition catalog : list Category.t :=
  [Category.mk (JsString "obs") None;
   Category.mk (JsString "bible") (Some bibleLanguages)].

Definition libraries : GrabLibraries :=
  Build_GrabLibraries
    (fun date => date)
    (fun info => VersionInfo.id info)
    (fun body => if String.eqb body "languages" then Some languages else None)
    (fun body => if String.eqb body "catalog" then Some catalog else None).

(** The module as [uw-grab-bibles] configures it, with the input folder
    next to the script; the same with the language list loaded; the same
    silenced. *)
Definition configured : GrabState.t :=
  GrabState.mk "input" "https://api.unfoldingword.org/uw/txt/2/catalog.json"
               "http://td.unfoldingword.org/exports/langnames.json" false [] [].

Definition loaded : GrabState.t := GrabState.set_languageData languages configured.

Definition silenced : GrabState.t :=
  GrabState.mk "input" "https://api.unfoldingword.org/uw/txt/2/catalog.json"
               "http://td.unfoldingword.org/exports/langnames.json" true [] [].

Definition answer (body : string) : Response.t := Response.mk JsNull 200 body.

Definition notFound : Response.t := Response.mk JsNull 404 "Not Found".

End GrabSample.

Close Scope Z_scope.
Open Scope list_scope.
Open Scope nat_scope.

(** * Vocabulary of the statements

    The predicates, closed forms and measures in which the properties
    below are stated. *)

Section Vocabulary.
Context `{C : Collaborators}.

(** [preserves P m]: running [m] from a state in [P] ends in [P], whether
    it returns or throws. *)
Definition preserves {A} (P : State -> Prop) (m : M A) : Prop :=
  forall st, P st -> P (outcome_state (m st)).

(** The condition of the [if] that guards [verseIndexer.indexVerse]. *)
Definition indexable (st : State) : bool :=
  Run.createIndex (st_run st)
  && negb (String.eqb (Verse.text (verse st)) "")
  && negb (bool_decide (Verse.id (verse st) = JsNull)).

Definition pendingCall (st : State) : IndexCall.t :=
  IndexCall.mk (Verse.id (verse st)) (Verse.text (verse st)) (Info.lang (Run.info (st_run st))).

(** What [addChapterNavigation] makes of the record at index [i] of [cd]. *)
Definition navigatedAt (cd : list ChapterRecord.t) (i : nat) (c : ChapterRecord.t)
  : ChapterRecord.t :=
  ChapterRecord.mk (ChapterRecord.id c) (ChapterRecord.title c) (ChapterRecord.html c)
    (if i =? 0 then JsNull else from_option ChapterRecord.id JsUndefined (cd !! (i - 1)))
    (if i =? length cd - 1 then JsNull
     else from_option ChapterRecord.id JsUndefined (cd !! (i + 1))).

Definition navigated (cd : list ChapterRecord.t) : list ChapterRecord.t :=
  imap (navigatedAt cd) cd.

Definition withChapterData (l : list ChapterRecord.t) (st : State) : State :=
  on_run (Run.set_chapterData l) st.

Definition wrappedAt (info : Info.t) (c : ChapterRecord.t) : ChapterRecord.t :=
  ChapterRecord.set_html
    (openChapter info c +:+ ChapterRecord.html c +:+ bibleFormatter_closeChapter) c.

Definition wrapped (info : Info.t) (cd : list ChapterRecord.t) : list ChapterRecord.t :=
  wrappedAt info <$> cd.

Definition navigatedUpTo (cd : list ChapterRecord.t) (k : nat) : list ChapterRecord.t :=
  imap (fun j c => if j <? k then navigatedAt cd j c else c) cd.

Definition wrappedUpTo (info : Info.t) (cd : list ChapterRecord.t) (k : nat)
  : list ChapterRecord.t :=
  imap (fun j c => if j <? k then wrappedAt info c else c) cd.

(** The two phases of [generate]: the statements up to the end of the
    loop over the files, and the statements after it. *)
Definition assemble (dir : list (string * string)) (info : Info.t) (createIndex : bool)
  : M unit :=
  modify (on_run (fun _ => Run.fresh info createIndex)) ;;
  modify (on_run (Run.set_aboutHtml (getAboutContent dir))) ;;
  modify (on_module (Module_.add_effect (StartProgress (length dir) "Books"))) ;;
  forEach processFile dir.

Definition postprocess : M unit :=
  modify (on_run (fun r => Run.set_info (completeInfo r) r)) ;;
  addChapterNavigation ;;
  (let* info := gets (fun st => Run.info (st_run st)) in wrapChapterHtmlElements info) ;;
  outputFinalComments.

(** [extends f m]: [m] only appends to the list [f] reads from the state. *)
Definition extends {A B} (f : State -> list A) (m : M B) : Prop :=
forall st, f st `prefix_of` f (outcome_state (m st)).

(** The effect of one event on whether closing markup of kind [k] is owed. *)
Definition track (k : BlockKind) (b : bool) (e : BlockEvent) : bool :=
match e with
| Opened k' => if decide (k' = k) then true else b
| Closed k' => if decide (k' = k) then false else b
end.

Definition owed (k : BlockKind) (evs : list BlockEvent) : bool :=
fold_left (track k) evs false.

(** An opening of kind [k] has been emitted and no closing of that kind has
    been emitted after it. *)
Definition owes (k : BlockKind) (evs : list BlockEvent) : Prop :=
exists before after, evs = before ++ Opened k :: after /\ Closed k ∉ after.

(** The invariant: each flag says whether closing markup is owed. *)
Definition flags_track (st : State) : Prop :=
forall k, flag k st = true <-> owes k (emitted st).

Definition flags_owed (st : State) : Prop :=
forall k, flag k st = owed k (emitted st).

(** Openings of kind [k] minus closings of kind [k]. *)
Definition balance (k : BlockKind) (evs : list BlockEvent) : Z :=
fold_left (fun d e =>
             match e with
             | Opened k' => if decide (k' = k) then (d + 1)%Z else d
             | Closed k' => if decide (k' = k) then (d - 1)%Z else d
             end) evs 0%Z.

(** The kinds whose opening case closes an open block of the kind first:
    for them at most one block is open, and the flag is the balance. *)
Definition flags_balanced (st : State) : Prop :=
forall k, k <> FootnoteBlock ->
          balance k (emitted st) = (if flag k st then 1 else 0)%Z.

(** The closing markup the cleanup emits for a block kind. *)
Definition closing (k : BlockKind) (st : State) : string :=
if flag k st then
  match k with
  | FootnoteBlock => "</span></span>"
  | VerseBlock => closeVerse
  | ListItemBlock | TextBlock => "</div>" +:+ br st
  end
else "".

Definition closingEvent (k : BlockKind) (st : State) : list BlockEvent :=
if flag k st then [Closed k] else [].



Fixpoint count {A} (p : A -> bool) (l : list A) : nat :=
match l with
| [] => 0
| x :: l' => (if p x then 1 else 0) + count p l'
end.

(** A [c] record, and a [c] record whose number is above 1: the test of the
    [if] that pushes the chapter accumulated so far. *)
Definition isChapterMarker (r : TagRecord.t) : bool :=
match classify (TagRecord.key r) with
| CaseC => true
| _ => false
end.

Definition flushes (r : TagRecord.t) : bool :=
isChapterMarker r && Js.gt1 (Js.parseInt (TagRecord.number r)).

(** The tag records of a file, in the order in which they are dispatched. *)
Definition recordsOf (fileContent : string) : list TagRecord.t :=
flat_map parseLine (Js.split (ascii_of_nat 10) fileContent).

(** Records and sections a directory entry contributes. *)
Definition recordsPushedBy (file : string * string) : nat :=
if isUsfm (fst file) then S (count flushes (recordsOf (snd file))) else 0.

Definition markersIn (file : string * string) : nat :=
if isUsfm (fst file) then count isChapterMarker (recordsOf (snd file)) else 0.

(** The numbering under which the test [number > 1] singles out the markers
    that are not the first of their file: the first marker has a number that
    is not above 1, every later one a number above 1. *)
Fixpoint numberedOk (seen : bool) (rs : list TagRecord.t) : bool :=
match rs with
| [] => true
| r :: rs' =>
    if isChapterMarker r
    then (if seen then flushes r else negb (flushes r)) && numberedOk true rs'
    else numberedOk seen rs'
end.

Definition seenAfter (seen : bool) (rs : list TagRecord.t) : bool :=
seen || existsb isChapterMarker rs.

(** The records of a file that has a marker and whose markers are numbered
    so. *)
Definition wellNumbered (rs : list TagRecord.t) : bool :=
numberedOk false rs && existsb isChapterMarker rs.

Definition wellNumberedFile (file : string * string) : bool :=
if isUsfm (fst file) then wellNumbered (recordsOf (snd file)) else true.

(** For each chapter marker of [rs], in order, whether it pushes the chapter
    accumulated before it. *)
Fixpoint markerFlags (rs : list TagRecord.t) : list bool :=
match rs with
| [] => []
| r :: rs' => if isChapterMarker r then flushes r :: markerFlags rs' else markerFlags rs'
end.

(** The ids of the records pushed in a file, from the id [current] of the
    chapter being accumulated, the flags of the markers still to come and
    the ids recorded at them: a marker that flushes pushes the chapter that
    stood before it, and the end of the file pushes the last one. *)
Fixpoint pushedIds (current : JsVal) (flags : list bool) (codes : list JsVal) : list JsVal :=
match flags, codes with
| fl :: flags', id :: codes' => (if fl : bool then [current] else []) ++ pushedIds id flags' codes'
| _, _ => [current]
end.

(** The same over the entries of a directory, each file taking from [codes]
    the ids of its own markers. *)
Fixpoint idsPushed (dir : list (string * string)) (codes : list JsVal) : list JsVal :=
match dir with
| [] => []
| file :: dir' =>
    if isUsfm (fst file) then
      let flags := markerFlags (recordsOf (snd file)) in
      pushedIds (JsString "") flags (take (length flags) codes)
      ++ idsPushed dir' (drop (length flags) codes)
    else idsPushed dir' codes
end.

(** The ids of the records pushed, followed by the id of the chapter being
    accumulated once a marker has been seen in the file, are the sections
    recorded at the markers. *)
Definition idsMatch (seen : bool) (st : State) : Prop :=
(ChapterRecord.id <$> chapterData st) ++ (if seen then [Chapter.id (chapter st)] else [])
= chapterCodes st.

(** Between the first statements of [generate] and its postprocessing, a run
    is a sequence of steps: the initialisation of the locals of a file, the
    dispatch of a record, the handling of a line without records, and the
    cleanup of a file.  The states a run passes through are the states after
    the prefixes of that sequence. *)
Inductive Step : Type :=
| StepFile
| StepDispatch (r : TagRecord.t)
| StepUntagged (line : string)
| StepCleanup.

Definition runStep (s : Step) : M unit :=
match s with
| StepFile => modify (on_unit (fun _ => Unit_.fresh))
| StepDispatch r => dispatch r
| StepUntagged line =>
    when (negb (String.eqb (Js.remove_whitespace line) ""))
         (appendHtml (Fragment.plain (" " +:+ line)))
| StepCleanup => cleanup
end.

Definition stepsOfLine (line : string) : list Step :=
match parseLine line with
| [] => [StepUntagged line]
| rs => StepDispatch <$> rs
end.

Definition stepsOfFile (file : string * string) : list Step :=
if isUsfm (fst file)
then StepFile :: flat_map stepsOfLine (Js.split (ascii_of_nat 10) (snd file)) ++ [StepCleanup]
else [].

Definition stepsOf (dir : list (string * string)) : list Step :=
flat_map stepsOfFile dir.

(** The statements of [generate] before the loop over the files. *)
Definition beginRun (dir : list (string * string)) (info : Info.t) (createIndex : bool)
  : M unit :=
modify (on_run (fun _ => Run.fresh info createIndex)) ;;
modify (on_run (Run.set_aboutHtml (getAboutContent dir))) ;;
modify (on_module (Module_.add_effect (StartProgress (length dir) "Books"))).

(** The state a run is in after the steps [done] of its first phase. *)
Definition stateDuring (dir : list (string * string)) (info : Info.t) (createIndex : bool)
  (done : list Step) (st : State) : State :=
outcome_state ((beginRun dir info createIndex ;; forEach runStep done) st).

End Vocabulary.

Section FlagVocabulary.
Context `{C : Collaborators}.

(** [P] holds after the dispatch of a record (also when it throws), after a
    line, after the cleanup, after a file, after a whole call of [generate]
    and in every state a run passes through, whenever it holds before. *)
Definition keptThroughout (P : State -> Prop) : Prop :=
forall st,
  P st ->
  (forall r, P (outcome_state (dispatch r st))) /\
  (forall line, P (outcome_state (processLine line st))) /\
  P (outcome_state (cleanup st)) /\
  (forall file, P (outcome_state (processFile file st))) /\
  (forall dir info createIndex, P (outcome_state (generate dir info createIndex st))) /\
  (forall dir info createIndex done, P (stateDuring dir info createIndex done st)).

(** The keys of the cases that append an opening of a block: the verse
    marker, the paragraph markers, the list-item markers and the two note
    markers. *)
Definition openerKeys : list string :=
"v" :: paragraphKeys ++ listItemKeys ++ ["x"; "f"].

Definition isClosing (e : BlockEvent) : bool :=
match e with
| Closed _ => true
| Opened _ => false
end.

End FlagVocabulary.

(** ** Vocabulary of the further properties *)

(** [s] consists of whitespace. *)
Fixpoint allWhitespace (s : string) : bool :=
match s with
| EmptyString => true
| String a s' => Js.is_whitespace a && allWhitespace s'
end.

(** The character [c] occurs in [s]. *)
Fixpoint hasChar (c : ascii) (s : string) : bool :=
match s with
| EmptyString => false
| String a s' => Ascii.eqb a c || hasChar c s'
end.

Section RunVocabulary.
Context `{C : Collaborators}.

(** The tag records of the USFM files of a directory, in the order in which
    [generate] dispatches them. *)
Definition dispatched (dir : list (string * string)) : list TagRecord.t :=
flat_map (fun file => if isUsfm (fst file) then recordsOf (snd file) else []) dir.

(** The keys the [default] case records: those no [case] names, the empty
    key apart. *)
Definition unrecognised (k : string) : bool :=
match classify k with
| CaseDefault => negb (String.eqb k "")
| _ => false
end.

(** The entries of a directory the loop of [generate] works on. *)
Definition usfmEntries (dir : list (string * string)) : list (string * string) :=
filter (fun file => isUsfm (fst file) = true) dir.

Definition isNoteOpen (r : TagRecord.t) : bool :=
match classify (TagRecord.key r) with
| CaseNoteOpen => true
| _ => false
end.

(** The book code an [id] record is looked up with. *)
Definition bookIdOf (r : TagRecord.t) : string :=
Js.toUpperCase (Js.trim (Js.first_field " " (TagRecord.text r))).

(** An [id] record whose code is in the book table, with an English name;
    any record that is not an [id] record. *)
Definition resolves (r : TagRecord.t) : bool :=
match classify (TagRecord.key r) with
| CaseId =>
    match getBookInfoByUsfmCode (bookIdOf r) with
    | Some parsedInfo =>
        match BookInfo.names_eng parsedInfo with
        | [] => false
        | _ :: _ => true
        end
    | None => false
    end
| _ => true
end.

(** What a submission to the verse indexer looks like in a run on [info]. *)
Definition wellFormedCall (info : Info.t) (c : IndexCall.t) : Prop :=
IndexCall.verseText c <> "" /\ IndexCall.verseId c <> JsNull /\
IndexCall.lang c = Info.lang info.

(** What no step of the first phase writes. *)
Definition frame (st : State) : Info.t * bool * string * list Effect * bool * string :=
(Run.info (st_run st), Run.createIndex (st_run st), Run.aboutHtml (st_run st),
 Module_.effects (st_module st), Module_.outputUnparsedTags (st_module st),
 Module_.htmlBreakingElement (st_module st)).

End RunVocabulary.

Section RunVocabulary2.
Context `{C : Collaborators}.

(** The three lists a file adds one entry to when it has been handled. *)
Definition divisionsOf (st : State) : list JsVal * list string * list string :=
(Run.bookCodes (st_run st), Run.bookNames (st_run st), Run.bookAbbreviations (st_run st)).

(** The line [outputFinalComments] prints. *)
Definition unparsedTagsLine (tags : list string) : string :=
"Unparsed USFM Tags: [ " +:+ Js.join "," tags +:+ " ]".

(** The block a paragraph marker and a list-item marker do not close: the
    list item for the first, the text block for the second. *)
Definition blockLeftOpen (key : string) : BlockKind :=
if key_in key paragraphKeys then ListItemBlock else TextBlock.

End RunVocabulary2.

(** ** Vocabulary of the catalog reader *)

Section GrabVocabulary.
Context `{L : GrabLibraries}.

(** [keeps P m]: running [m] from a state in [P] ends in [P], whether it
    returns or throws. *)
Definition keeps {A} (P : GrabState.t -> Prop) (m : Grab.G A) : Prop :=
forall s, P s -> P (Grab.outcome_state (m s)).

(** The state with more events. *)
Definition addEvents (l : list GrabEvent) (s : GrabState.t) : GrabState.t :=
GrabState.mk (GrabState.destinationFolder s) (GrabState.catalogUrl s) (GrabState.languagesUrl s)
  (GrabState.silenceNotification s) (GrabState.languageData s) (GrabState.events s ++ l).

(** What [display] prints in state [s]. *)
Definition shown (s : GrabState.t) (msg : string) (isError : bool) : list GrabEvent :=
if GrabState.silenceNotification s then []
else [ConsoleLine ((if isError then "X Error > " else "> ") +:+ msg)].

(** The settings of the module, which none of its functions writes. *)
Definition settings (s : GrabState.t) : string * string * string * bool :=
(GrabState.destinationFolder s, GrabState.catalogUrl s, GrabState.languagesUrl s,
 GrabState.silenceNotification s).

(** The language list has exactly one entry with the code. *)
Definition knownIn (languageData : list Language.t) (code : string) : bool :=
Nat.eqb (count (fun lang => String.eqb (Language.lc lang) code) languageData) 1.

Definition languageKnown (s : GrabState.t) (code : string) : bool :=
knownIn (GrabState.languageData s) code.

(** A version that has the three properties the module reads through. *)
Definition complete (version : Version.t) : bool :=
match Version.status version, Version.slug version, Version.toc version with
| Some _, Some _, Some _ => true
| _, _, _ => false
end.

(** A catalog language the loop of [getBibleVersions] gets past: it has a
    code, and either the code is not known, so that the language is
    skipped, or it has versions and each of them is complete. *)
Definition describable (s : GrabState.t) (language : CatalogLanguage.t) : bool :=
match CatalogLanguage.lc language with
| None => false
| Some lc =>
    if languageKnown s (Grab.languageCode lc)
    then match CatalogLanguage.vers language with
         | Some versions => forallb complete versions
         | None => false
         end
    else true
end.

(** The versions of the catalog languages whose code is known among
    [languageData], each with the language code it is described under, in
    the order of the catalog. *)
Definition versionsIn (languageData : list Language.t) (languages : list CatalogLanguage.t)
  : list (string * Version.t) :=
flat_map (fun language =>
            match CatalogLanguage.lc language, CatalogLanguage.vers language with
            | Some lc, Some versions =>
                let code := Grab.languageCode lc in
                if knownIn languageData code
                then (fun version => (code, version)) <$> versions
                else []
            | _, _ => []
            end)
         languages.

Definition versionsOf (s : GrabState.t) (languages : list CatalogLanguage.t)
  : list (string * Version.t) :=
versionsIn (GrabState.languageData s) languages.

(** The same over the categories of a catalog: the versions of the
    categories whose slug is [bible]. *)
Definition catalogVersions (languageData : list Language.t) (cat : list Category.t)
  : list (string * Version.t) :=
flat_map (fun c =>
            if Js.loose_eq_string (Category.slug c) "bible"
            then match Category.langs c with
                 | Some languages => versionsIn languageData languages
                 | None => []
                 end
            else [])
         cat.

(** [bible] is the object made for a version described under [code], from
    the entry [lang] of the language list.  The abbreviation is stated for
    the slugs whose upper case stays within the strings of this file. *)
Definition bibleFor (lang : Language.t) (code : string) (version : Version.t)
  (bible : Bible.t) : Prop :=
let info := Bible.version_info bible in
Language.lc lang = code /\
(exists slug,
   Version.slug version = Some slug /\
   VersionInfo.id info = "uw_" +:+ code +:+ "_" +:+ slug /\
   (Js.upper_case_in_range slug = true -> VersionInfo.abbr info = Js.toUpperCase slug)) /\
VersionInfo.name info = Version.name version /\
VersionInfo.nameEnglish info = "" /\
VersionInfo.lang info = Language.lc lang /\
VersionInfo.langName info = Language.ln lang /\
VersionInfo.langNameEnglish info = Language.ang lang /\
VersionInfo.dir info = Language.ld lang /\
VersionInfo.generator info = "../unfolding-word/uw-generate-usfm" /\
(exists toc, Version.toc version = Some toc /\ Bible.files bible = TocEntry.src <$> toc).

Definition bibleOf (s : GrabState.t) (described : string * Version.t) (bible : Bible.t)
  : Prop :=
exists lang,
  lang ∈ GrabState.languageData s /\ bibleFor lang (fst described) (snd described) bible.

(** The error lines for the catalog languages whose code is not known. *)
Definition skippedLines (s : GrabState.t) (languages : list CatalogLanguage.t)
  : list GrabEvent :=
flat_map (fun language =>
            match CatalogLanguage.lc language with
            | Some lc =>
                let code := Grab.languageCode lc in
                if languageKnown s code then []
                else shown s ("Error - getBibleVersions, Language not found: " +:+ code) true
            | None => []
            end)
         languages.

Definition isConsoleLine (e : GrabEvent) : bool :=
match e with
| ConsoleLine _ => true
| _ => false
end.

(** The directory [downloadThisOne] asks for. *)
Definition directoryOf (s : GrabState.t) (bible : Bible.t) : string :=
GrabState.destinationFolder s +:+ "/" +:+ VersionInfo.id (Bible.version_info bible).

(** The path of the directory of a version with [slug] described under
    [code]. *)
Definition versionDirectory (s : GrabState.t) (code slug : string) : string :=
GrabState.destinationFolder s +:+ "/" +:+ ("uw_" +:+ code +:+ "_" +:+ slug).

(** [path] names an entry of the destination folder itself, not of a
    folder below or beside it, and the name of the entry begins with
    [uw_]. *)
Definition directChild (s : GrabState.t) (path : string) : Prop :=
exists name,
  path = GrabState.destinationFolder s +:+ "/" +:+ name /\
  String.prefix "uw_" name = true /\
  hasChar "/" name = false.

(** A response that [request] reports as failed, or whose status is not
    200. *)
Definition failed (response : Response.t) : bool :=
Grab.truthy (Response.error response) || negb (Z.eqb (Response.statusCode response) 200).

End GrabVocabulary.

(** * Properties *)

(** ** Evaluation on concrete inputs *)

Example parseInt_examples :
  Js.parseInt (JsString "12") = Int 12 /\
  Js.parseInt (JsString " 3a") = Int 3 /\
  Js.parseInt (JsString "-7") = Int (-7) /\
  Js.parseInt (JsString "0x1f") = Int 31 /\
  Js.parseInt (JsString "") = NaN /\
  Js.parseInt JsUndefined = NaN /\
  Js.parseInt (JsNumber (Int 150)) = Int 150.
Proof. repeat split. Qed.

Example string_examples :
  Js.trim "  ab c  " = "ab c" /\
  Js.split " " "GEN en ulb" = ["GEN"; "en"; "ulb"] /\
  Js.split " " "" = [""] /\
  Js.toUpperCase "gen1" = "GEN1" /\
  Js.remove_whitespace " a b " = "ab" /\
  Js.indexOf ".usfm" "01-GEN.usfm" = Some 6%nat /\
  Js.indexOf ".usfm" "about.html" = None /\
  Js.join "," ["a"; "b"; "c"] = "a,b,c".
Proof. repeat split. Qed.

Example sample_run_ids :
  match Sample.run Sample.library true with
  | Ok res _ =>
      ChapterRecord.id <$> RunResult.chapterData res
        = [JsString "GEN1"; JsString "GEN2"; JsString "PS1"]
      /\ IndexCall.verseId <$> RunResult.indexData res
        = [JsString "GEN1_1"; JsString "GEN2_1"; JsString "PS1_1"]
      /\ RunResult.aboutHtml res = "<p>About</p>"
  | Throw _ _ => False
  end.
Proof. vm_compute. repeat split. Qed.

(** The end-to-end scenario of the specification: the two chapters of
    Genesis give two records, the first verse is submitted once with its
    text, and no tag is left unparsed. *)
Example specification_scenario :
  match Sample.run [("01-GEN.usfm", Sample.genesis)] true with
  | Ok res st =>
      ChapterRecord.id <$> RunResult.chapterData res = [JsString "GEN1"; JsString "GEN2"]
      /\ count (fun c => String.eqb (IndexCall.verseText c) "In the beginning")
               (RunResult.indexData res) = 1
      /\ unparsedTags st = []
  | Throw _ _ => False
  end.
Proof. vm_compute. repeat split. Qed.

(** ** Strings *)

Lemma append_cons (a : ascii) (s t : string) : String a s +:+ t = String a (s +:+ t).
Proof. reflexivity. Qed.

Lemma append_empty_r (s : string) : s +:+ "" = s.
Proof.
  induction s as [|a s IH]; [reflexivity|]. now rewrite append_cons, IH.
Qed.

Lemma append_assoc (s1 s2 s3 : string) : (s1 +:+ s2) +:+ s3 = s1 +:+ (s2 +:+ s3).
Proof.
  induction s1 as [|a s1 IH]; [reflexivity|]. now rewrite !append_cons, IH.
Qed.

(** ** The monad *)

Lemma bind_Ok {A B} (m : M A) (k : A -> M B) st b st2 :
  bind m k st = Ok b st2 ->
  exists a st1, m st = Ok a st1 /\ k a st1 = Ok b st2.
Proof.
  unfold bind. destruct (m st) as [a st1|e st1]; [eauto | discriminate].
Qed.

Lemma bind_Ok_intro {A B} (m : M A) (k : A -> M B) st a st1 :
  m st = Ok a st1 -> bind m k st = k a st1.
Proof. unfold bind. now intros ->. Qed.

Lemma forEach_app {A} (body : A -> M unit) (l1 l2 : list A) st :
  forEach body (l1 ++ l2) st = (forEach body l1 ;; forEach body l2) st.
Proof.
  revert st. induction l1 as [|x l1 IH]; intros st; simpl.
  - reflexivity.
  - unfold bind. destruct (body x st) as [[] st1|e st1]; [|reflexivity].
    rewrite IH. reflexivity.
Qed.

Section Preserves.
Context (P : State -> Prop).

Lemma preserves_ret {A} (a : A) : preserves P (ret a).
Proof. intros st H. exact H. Qed.

Lemma preserves_throw {A} (e : string) : preserves P (throw (A := A) e).
Proof. intros st H. exact H. Qed.

Lemma preserves_gets {A} (f : State -> A) : preserves P (gets f).
Proof. intros st H. exact H. Qed.

Lemma preserves_modify (f : State -> State) :
  (forall st, P st -> P (f st)) -> preserves P (modify f).
Proof. intros Hf st H. apply Hf, H. Qed.

Lemma preserves_bind {A B} (m : M A) (k : A -> M B) :
  preserves P m -> (forall a, preserves P (k a)) -> preserves P (bind m k).
Proof.
  intros Hm Hk st H. unfold bind. specialize (Hm st H).
  destruct (m st) as [a st1|e st1]; simpl in *; [apply Hk, Hm | exact Hm].
Qed.

Lemma preserves_when (b : bool) (m : M unit) :
  preserves P m -> preserves P (when b m).
Proof. intros Hm. destruct b; [exact Hm | apply preserves_ret]. Qed.

Lemma preserves_forEach {A} (body : A -> M unit) (l : list A) :
  (forall x, preserves P (body x)) -> preserves P (forEach body l).
Proof.
  intros Hb. induction l as [|x l IH]; simpl.
  - apply preserves_ret.
  - apply preserves_bind; [apply Hb | intros _; exact IH].
Qed.

End Preserves.

(** Evaluation of the monadic code on a state whose records are split into
    their fields. *)
Ltac split_state st :=
  let m := fresh "md" in
  let r := fresh "rn" in
  let u := fresh "un" in
  destruct st as [m r u]; destruct m, r, u.

Ltac eval_engine :=
  cbv [bind ret gets modify when throw setFlag setChapter setVerse setBook appendHtml
       closeBlock closeVerseBlock closeTextBlock closeListItemBlock closeFootnoteBlock
       closeVerseListText indexPendingVerse closeChapter resetChapter
       on_module on_run on_unit flag chapter verse book br
       chapterData indexData chapterCodes unparsedTags emitted outcome_state
       st_module st_run st_unit
       Module_.flag Module_.set_flag Module_.add_emitted Module_.set_unparsedTags
       Module_.add_effect
       Module_.textBlockOpen Module_.verseBlockOpen Module_.footnoteBlockOpen
       Module_.listItemBlockOpen Module_.htmlBreakingElement Module_.unparsedTags
       Module_.outputUnparsedTags Module_.effects Module_.emitted
       Run.set_chapterData Run.set_indexData Run.set_chapterCodes Run.push_book
       Run.set_aboutHtml Run.set_info
       Run.chapterData Run.indexData Run.aboutHtml Run.bookCodes Run.bookNames
       Run.bookAbbreviations Run.chapterCodes Run.info Run.createIndex
       Unit_.set_book Unit_.set_chapter Unit_.set_verse Unit_.set_noteNumber
       Unit_.currentBook Unit_.currentChapter Unit_.currentVerse Unit_.noteNumber
       Fragment.plain Fragment.empty Fragment.text Fragment.events].

(** ** Closing a block that is not open *)

Section Closing.
Context `{C : Collaborators}.

Lemma appendHtml_empty st : appendHtml Fragment.empty st = Ok tt st.
Proof.
  split_state st. destruct currentChapter. eval_engine.
  cbv [Chapter.set_html Chapter.html Chapter.header Chapter.id Chapter.number Chapter.title].
  now rewrite append_empty_r, app_nil_r.
Qed.

(** C6.  For each of the four block kinds, the close operation called while
    the block's flag is false returns the empty string, changes nothing
    in the state and does not throw; appending what it returned leaves the
    chapter html, and the whole state, as they were. *)
Theorem close_unopened_block_is_noop (k : BlockKind) (st : State) :
  flag k st = false ->
  closeBlock k st = Ok Fragment.empty st /\
  Fragment.text Fragment.empty = "" /\
  (let* f := closeBlock k in appendHtml f) st = Ok tt st.
Proof.
  intros Hk.
  assert (Hclose : closeBlock k st = Ok Fragment.empty st).
  { destruct k; unfold closeBlock, closeTextBlock, closeVerseBlock,
      closeFootnoteBlock, closeListItemBlock, bind, gets; rewrite Hk; reflexivity. }
  split; [exact Hclose|]. split; [reflexivity|].
  rewrite (bind_Ok_intro _ _ _ _ _ Hclose). apply appendHtml_empty.
Qed.

End Closing.

Lemma close_unopened_block_is_noop_witness :
  closeBlock (C := Sample.collaborators) FootnoteBlock initialState
    = Ok Fragment.empty initialState /\
  Fragment.text Fragment.empty = "" /\
  (let* f := closeBlock (C := Sample.collaborators) FootnoteBlock in appendHtml f) initialState
    = Ok tt initialState.
Proof.
  apply (close_unopened_block_is_noop (C := Sample.collaborators) FootnoteBlock initialState).
  reflexivity.
Defined.

(** ** The verse marker *)

Section VerseMarker.
Context `{C : Collaborators}.

Lemma dispatch_v (r : TagRecord.t) (st : State) :
  TagRecord.key r = "v" ->
  let newId := formatVerseCode (Book.dbsCode (book st)) (Chapter.number (chapter st))
                               (TagRecord.number r) in
  exists st',
    dispatch r st = Ok tt st' /\
    Chapter.html (chapter st') =
      (Chapter.html (chapter st) +:+ (if flag VerseBlock st then closeVerse else ""))
      +:+ (openVerse newId (TagRecord.number r) +:+ TagRecord.text r) /\
    emitted st' =
      (emitted st ++ (if flag VerseBlock st then [Closed VerseBlock] else []))
      ++ [Opened VerseBlock] /\
    indexData st' = indexData st ++ (if indexable st then [pendingCall st] else []) /\
    verse st' = Verse.mk newId (TagRecord.number r) (TagRecord.text r) /\
    flag VerseBlock st' = true.
Proof.
  intros Hk. unfold dispatch. rewrite Hk. change (classify "v") with CaseV. cbv iota.
  unfold indexable, pendingCall.
  split_state st. destruct currentChapter, currentVerse. eval_engine.
  destruct verseBlockOpen; cbn;
    (destruct (createIndex && negb (String.eqb text "") && negb (bool_decide (id0 = JsNull)));
     cbn; eexists; (split; [reflexivity|]); cbn;
     rewrite ?app_nil_r; auto 10).
Qed.

(** A record that is not a verse marker leaves the pending verse and the
    submissions to the indexer as they are. *)
Lemma dispatch_other_keeps_verse (r : TagRecord.t) (st : State) :
  classify (TagRecord.key r) <> CaseV ->
  verse (outcome_state (dispatch r st)) = verse st /\
  indexData (outcome_state (dispatch r st)) = indexData st.
Proof.
  intros Hk. unfold dispatch.
  destruct (classify (TagRecord.key r)); try congruence; clear Hk;
    split_state st; eval_engine;
    repeat match goal with
           | |- context [match ?b with true => _ | false => _ end] => destruct b; cbn
           | |- context [match getBookInfoByUsfmCode ?x with _ => _ end] =>
               destruct (getBookInfoByUsfmCode x) as [[? ? []]|]; cbn
           end; auto.
Qed.

Lemma forEach_other_keeps_verse (rs : list TagRecord.t) (st : State) :
  Forall (fun r => classify (TagRecord.key r) <> CaseV) rs ->
  verse (outcome_state (forEach dispatch rs st)) = verse st /\
  indexData (outcome_state (forEach dispatch rs st)) = indexData st.
Proof.
  intros H. revert st. induction H as [|r rs Hr _ IH]; intros st; simpl.
  - auto.
  - unfold bind. destruct (dispatch_other_keeps_verse r st Hr) as [Hv Hi].
    destruct (dispatch r st) as [[] st1|e st1]; simpl in *.
    + destruct (IH st1) as [Hv' Hi']. split; congruence.
    + auto.
Qed.

(** C2.  On a verse marker the verse block is closed first (its closing
    markup and event precede the new opening ones), and the pending verse is
    submitted to the indexer exactly when index creation is enabled, its
    text is not empty and its id is not null, before it is overwritten by
    the new verse.  Hence, after a verse marker whose text is empty, the
    next verse marker, whatever records other than verse markers lie in
    between, makes no submission. *)
Theorem verse_marker_indexes_pending_verse (r : TagRecord.t) (st : State) :
  TagRecord.key r = "v" ->
  exists st',
    dispatch r st = Ok tt st' /\
    Chapter.html (chapter st') =
      (Chapter.html (chapter st) +:+ (if flag VerseBlock st then closeVerse else ""))
      +:+ (openVerse (Verse.id (verse st')) (TagRecord.number r) +:+ TagRecord.text r) /\
    emitted st' =
      (emitted st ++ (if flag VerseBlock st then [Closed VerseBlock] else []))
      ++ [Opened VerseBlock] /\
    indexData st' = indexData st ++ (if indexable st then [pendingCall st] else []) /\
    verse st' =
      Verse.mk (formatVerseCode (Book.dbsCode (book st)) (Chapter.number (chapter st))
                                (TagRecord.number r))
               (TagRecord.number r) (TagRecord.text r) /\
    flag VerseBlock st' = true /\
    (forall (between : list TagRecord.t) (next : TagRecord.t),
       TagRecord.text r = "" ->
       Forall (fun r' => classify (TagRecord.key r') <> CaseV) between ->
       TagRecord.key next = "v" ->
       indexData (outcome_state ((forEach dispatch between ;; dispatch next) st'))
         = indexData st').
Proof.
  intros Hk. destruct (dispatch_v r st Hk) as (st' & Hd & Hh & He & Hi & Hv & Hf).
  exists st'. rewrite Hv. simpl. do 6 (split; [assumption || reflexivity|]).
  intros between next Ht Hb Hk2.
  destruct (forEach_other_keeps_verse between st' Hb) as [Hv' Hi'].
  unfold bind. destruct (forEach dispatch between st') as [[] st2|e st2]; simpl in *.
  - destruct (dispatch_v next st2 Hk2) as (st3 & Hd3 & _ & _ & Hi3 & _).
    rewrite Hd3. simpl. rewrite Hi3, <- Hi'.
    unfold indexable. rewrite Hv', Hv, Ht. simpl.
    rewrite andb_false_r. simpl. apply app_nil_r.
  - exact Hi'.
Qed.

End VerseMarker.

Lemma verse_marker_indexes_pending_verse_witness :
  exists st',
    dispatch (C := Sample.collaborators) (TagRecord.mk "v" (JsString "1") "") initialState
      = Ok tt st' /\
    flag VerseBlock st' = true /\
    indexData (outcome_state
                 ((forEach (dispatch (C := Sample.collaborators))
                           [TagRecord.mk "p" JsUndefined ""]
                   ;; dispatch (C := Sample.collaborators)
                               (TagRecord.mk "v" (JsString "2") "Now the earth")) st'))
      = indexData st'.
Proof.
  destruct (verse_marker_indexes_pending_verse (C := Sample.collaborators)
              (TagRecord.mk "v" (JsString "1") "") initialState eq_refl)
    as (st' & Hd & _ & _ & _ & _ & Hf & Hnext).
  exists st'. split; [exact Hd|]. split; [exact Hf|].
  apply Hnext; [reflexivity | | reflexivity].
  constructor; [discriminate | constructor].
Defined.

(** ** Untagged lines *)

Section UntaggedLine.
Context `{C : Collaborators}.

(** C7, as the code has it.  A line for which the tokenizer returns no
    record and which has a character that is not whitespace is appended to
    the html of the current chapter after one space; the line itself is
    unchanged, and nothing else in the state changes. *)
Theorem untagged_line_appended_after_space (line : string) (st : State) :
  parseLine line = [] ->
  Js.remove_whitespace line <> "" ->
  processLine line st =
    Ok tt (on_unit (Unit_.set_chapter
                      (Chapter.set_html (Chapter.html (chapter st) +:+ (" " +:+ line))
                                        (chapter st)))
                   st).
Proof.
  intros Hp Hw. unfold processLine. rewrite Hp.
  destruct (String.eqb_spec (Js.remove_whitespace line) "") as [E|_]; [contradiction|].
  split_state st. eval_engine. cbn. now rewrite app_nil_r.
Qed.

End UntaggedLine.

Lemma untagged_line_appended_after_space_witness :
  processLine (C := Sample.collaborators) "and the earth" initialState =
    Ok tt (on_unit (Unit_.set_chapter
                      (Chapter.set_html (Chapter.html (chapter initialState)
                                         +:+ (" " +:+ "and the earth"))
                                        (chapter initialState)))
                   initialState).
Proof.
  apply (untagged_line_appended_after_space (C := Sample.collaborators)
           "and the earth" initialState); [reflexivity | discriminate].
Defined.

(** The line [and the earth] has no tag record and is not blank, yet the
    html after it is not the html before it followed by the line: a space
    stands in between. *)
Lemma untagged_line_verbatim_counterexample :
  let line := "and the earth" in
  let st' := outcome_state (processLine (C := Sample.collaborators) line initialState) in
  Sample.parseLine line = [] /\
  Js.remove_whitespace line <> "" /\
  Chapter.html (chapter st') <> Chapter.html (chapter initialState) +:+ line /\
  Chapter.html (chapter st') = " and the earth".
Proof. cbv zeta. repeat split; discriminate. Qed.

(** ** Notes *)

Section Notes.
Context `{C : Collaborators}.

Lemma stripCaller_caller_space (caller : ascii) (rest : string) :
  caller <> " "%char ->
  stripCaller (String caller (String " " rest)) = rest.
Proof.
  intros Hc. unfold stripCaller, Js.indexOf. cbn [String.index String.prefix].
  destruct (ascii_dec " " caller) as [E|_]; [congruence|].
  destruct (ascii_dec " " " ") as [_|N]; [|congruence].
  destruct rest; reflexivity.
Qed.

(** C8.  For an [f] or [x] record whose text is a caller of one character
    (a token, hence not the space itself), a space and the rest, the text
    put into the note that is opened is the rest: the markup appended to
    the chapter html is the opening of the note, with its number, followed
    by the rest. *)
Theorem note_text_strips_caller
    (r : TagRecord.t) (st : State) (caller : ascii) (rest : string) :
  TagRecord.key r = "f" \/ TagRecord.key r = "x" ->
  caller <> " "%char ->
  TagRecord.text r = String caller (String " " rest) ->
  stripCaller (TagRecord.text r) = rest /\
  exists st',
    dispatch r st = Ok tt st' /\
    Chapter.html (chapter st') =
      Chapter.html (chapter st) +:+ (noteMarkup (Unit_.noteNumber (st_unit st)) +:+ rest) /\
    flag FootnoteBlock st' = true.
Proof.
  intros Hk Hc Ht.
  assert (Hs : stripCaller (TagRecord.text r) = rest)
    by (rewrite Ht; apply stripCaller_caller_space, Hc).
  split; [exact Hs|].
  assert (Hcase : classify (TagRecord.key r) = CaseNoteOpen)
    by (destruct Hk as [-> | ->]; reflexivity).
  unfold dispatch. rewrite Hcase. unfold noteOpening. rewrite Hs.
  split_state st. eval_engine. cbn. eexists. repeat split.
Qed.

End Notes.

Lemma note_text_strips_caller_witness :
  stripCaller "+ a note" = "a note" /\
  exists st',
    dispatch (C := Sample.collaborators) (TagRecord.mk "f" JsUndefined "+ a note") initialState
      = Ok tt st' /\
    Chapter.html (chapter st') =
      Chapter.html (chapter initialState)
      +:+ (noteMarkup (Unit_.noteNumber (st_unit initialState)) +:+ "a note") /\
    flag FootnoteBlock st' = true.
Proof.
  apply (note_text_strips_caller (C := Sample.collaborators)
           (TagRecord.mk "f" JsUndefined "+ a note") initialState "+"%char "a note");
    [left; reflexivity | discriminate | reflexivity].
Defined.

(** ** The postprocessor *)

Lemma chapterData_withChapterData l st : chapterData (withChapterData l st) = l.
Proof. reflexivity. Qed.

Lemma withChapterData_twice l1 l2 st :
  withChapterData l2 (withChapterData l1 st) = withChapterData l2 st.
Proof. reflexivity. Qed.

Lemma withChapterData_same st : withChapterData (chapterData st) st = st.
Proof. split_state st. reflexivity. Qed.

Section PostprocessorFacts.
Context `{C : Collaborators}.

Lemma chapterAt_Some j c st :
  chapterData st !! j = Some c -> chapterAt j st = Ok c st.
Proof. intros H. unfold chapterAt, bind, gets. now rewrite H. Qed.

Lemma updateChapterAt_Some j c f st :
  chapterData st !! j = Some c ->
  updateChapterAt j f st = Ok tt (withChapterData (<[j := f c]> (chapterData st)) st).
Proof.
  intros H. unfold updateChapterAt. rewrite (bind_Ok_intro _ _ _ _ _ (chapterAt_Some _ _ _ H)).
  reflexivity.
Qed.

(** One iteration of the loop of [addChapterNavigation] at an index [i]
    whose neighbours still carry the ids of [cd]. *)
Lemma navigation_iteration (cd cur : list ChapterRecord.t) (i : nat) (c : ChapterRecord.t) st :
  chapterData st = cur ->
  length cur = length cd ->
  cd !! i = Some c ->
  cur !! i = Some c ->
  (forall j x, j <> i -> cd !! j = Some x ->
               exists y, cur !! j = Some y /\ ChapterRecord.id y = ChapterRecord.id x) ->
  ((let* previd :=
      if i =? 0 then ret JsNull
      else (let* p := chapterAt (i - 1) in ret (ChapterRecord.id p)) in
    updateChapterAt i (ChapterRecord.set_previd previd)) ;;
   (let* nextid :=
      if i =? length cd - 1 then ret JsNull
      else (let* n := chapterAt (i + 1) in ret (ChapterRecord.id n)) in
    updateChapterAt i (ChapterRecord.set_nextid nextid))) st
  = Ok tt (withChapterData (<[i := navigatedAt cd i c]> cur) st).
Proof.
  intros Hst Hlen Hcd Hcur Hids.
  assert (Hi : i < length cd) by (eapply lookup_lt_Some; eauto).
  (* the previous id *)
  set (previd := if i =? 0 then JsNull
                 else from_option ChapterRecord.id JsUndefined (cd !! (i - 1))).
  assert (Hprev : (if i =? 0 then ret JsNull
                   else (let* p := chapterAt (i - 1) in ret (ChapterRecord.id p))) st
                  = Ok previd st).
  { subst previd. destruct (Nat.eqb_spec i 0) as [E|N]; [reflexivity|].
    destruct (lookup_lt_is_Some_2 cd (i - 1)) as [x Hx]; [lia|].
    destruct (Hids (i - 1) x) as (y & Hy & Hid); [lia | exact Hx |].
    rewrite (bind_Ok_intro _ _ _ _ _ (chapterAt_Some _ _ _ (eq_trans (f_equal (fun l => l !! (i - 1)) Hst) Hy))).
    rewrite Hx. simpl. unfold ret. now rewrite Hid. }
  set (cur1 := <[i := ChapterRecord.set_previd previd c]> cur).
  set (st1 := withChapterData cur1 st).
  assert (Hfirst : (let* previd :=
                      if i =? 0 then ret JsNull
                      else (let* p := chapterAt (i - 1) in ret (ChapterRecord.id p)) in
                    updateChapterAt i (ChapterRecord.set_previd previd)) st = Ok tt st1).
  { rewrite (bind_Ok_intro _ _ _ _ _ Hprev).
    rewrite (updateChapterAt_Some i c); [|now rewrite Hst].
    now rewrite Hst. }
  rewrite (bind_Ok_intro _ _ _ _ _ Hfirst).
  set (nextid := if i =? length cd - 1 then JsNull
                 else from_option ChapterRecord.id JsUndefined (cd !! (i + 1))).
  assert (Hnext : (if i =? length cd - 1 then ret JsNull
                   else (let* n := chapterAt (i + 1) in ret (ChapterRecord.id n))) st1
                  = Ok nextid st1).
  { subst nextid. destruct (Nat.eqb_spec i (length cd - 1)) as [E|N]; [reflexivity|].
    destruct (lookup_lt_is_Some_2 cd (i + 1)) as [x Hx]; [lia|].
    destruct (Hids (i + 1) x) as (y & Hy & Hid); [lia | exact Hx |].
    assert (Hy1 : chapterData st1 !! (i + 1) = Some y).
    { subst st1 cur1. rewrite chapterData_withChapterData.
      rewrite list_lookup_insert_ne by lia. exact Hy. }
    rewrite (bind_Ok_intro _ _ _ _ _ (chapterAt_Some _ _ _ Hy1)).
    rewrite Hx. simpl. unfold ret. now rewrite Hid. }
  rewrite (bind_Ok_intro _ _ _ _ _ Hnext).
  rewrite (updateChapterAt_Some i (ChapterRecord.set_previd previd c)).
  - subst st1. rewrite chapterData_withChapterData, withChapterData_twice.
    subst cur1. rewrite list_insert_insert_eq. reflexivity.
  - subst st1 cur1. rewrite chapterData_withChapterData.
    apply list_lookup_insert_eq. rewrite Hlen. exact Hi.
Qed.

Lemma navigatedUpTo_all cd : navigatedUpTo cd (length cd) = navigated cd.
Proof.
  apply imap_ext. intros j x Hx. apply lookup_lt_Some in Hx.
  destruct (Nat.ltb_spec j (length cd)); [reflexivity | lia].
Qed.

Lemma navigatedUpTo_step cd i c :
  cd !! i = Some c ->
  <[i := navigatedAt cd i c]> (navigatedUpTo cd i) = navigatedUpTo cd (S i).
Proof.
  intros Hc. apply list_eq. intros j. unfold navigatedUpTo.
  destruct (decide (i = j)) as [<-|Hne].
  - rewrite list_lookup_insert_eq
      by (rewrite length_imap; eapply lookup_lt_Some; eauto).
    rewrite list_lookup_imap, Hc. simpl.
    destruct (Nat.ltb_spec i (S i)); [reflexivity | lia].
  - rewrite list_lookup_insert_ne by exact Hne.
    rewrite !list_lookup_imap. destruct (cd !! j) as [x|]; [simpl|reflexivity].
    destruct (Nat.ltb_spec j i), (Nat.ltb_spec j (S i)); try reflexivity; lia.
Qed.

Lemma navigation_loop cd n : forall i st,
  i + n = length cd ->
  chapterData st = navigatedUpTo cd i ->
  forEach (fun i : nat =>
    (let* previd :=
       if i =? 0 then ret JsNull
       else (let* p := chapterAt (i - 1) in ret (ChapterRecord.id p)) in
     updateChapterAt i (ChapterRecord.set_previd previd)) ;;
    (let* nextid :=
       if i =? length cd - 1 then ret JsNull
       else (let* n := chapterAt (i + 1) in ret (ChapterRecord.id n)) in
     updateChapterAt i (ChapterRecord.set_nextid nextid)))
    (seq i n) st
  = Ok tt (withChapterData (navigated cd) st).
Proof.
  induction n as [|n IH]; intros i st Hin Hst.
  - simpl. unfold ret. rewrite Nat.add_0_r in Hin. subst i.
    rewrite <- navigatedUpTo_all, <- Hst, withChapterData_same. reflexivity.
  - destruct (lookup_lt_is_Some_2 cd i) as [c Hc]; [lia|].
    cbn [seq forEach].
    erewrite bind_Ok_intro; cycle 1.
    { apply (navigation_iteration cd (navigatedUpTo cd i) i c st Hst).
      - unfold navigatedUpTo. apply length_imap.
      - exact Hc.
      - unfold navigatedUpTo. rewrite list_lookup_imap, Hc. simpl.
        destruct (Nat.ltb_spec i i); [lia | reflexivity].
      - intros j x _ Hx. unfold navigatedUpTo. rewrite list_lookup_imap, Hx. simpl.
        destruct (j <? i); eexists; split; reflexivity. }
    rewrite IH.
    + now rewrite withChapterData_twice.
    + lia.
    + rewrite chapterData_withChapterData. now apply navigatedUpTo_step.
Qed.

Lemma addChapterNavigation_navigated st :
  addChapterNavigation st = Ok tt (withChapterData (navigated (chapterData st)) st).
Proof.
  unfold addChapterNavigation, bind at 1, gets.
  apply navigation_loop; [reflexivity|].
  unfold navigatedUpTo. symmetry. rewrite <- (imap_ext (fun _ c => c)).
  - clear. induction (chapterData st) as [|x l IH]; [reflexivity|].
    rewrite imap_cons. now rewrite IH at 1.
  - reflexivity.
Qed.

Lemma wrap_loop info cd n : forall i st,
  i + n = length cd ->
  chapterData st = wrappedUpTo info cd i ->
  forEach (fun i : nat =>
    let* chapter := chapterAt i in
    updateChapterAt i
      (ChapterRecord.set_html
         (openChapter info chapter +:+ ChapterRecord.html chapter
          +:+ bibleFormatter_closeChapter)))
    (seq i n) st
  = Ok tt (withChapterData (wrapped info cd) st).
Proof.
  induction n as [|n IH]; intros i st Hin Hst.
  - simpl. unfold ret. rewrite Nat.add_0_r in Hin. subst i.
    replace (wrapped info cd) with (chapterData st); [now rewrite withChapterData_same|].
    rewrite Hst. unfold wrapped, wrappedUpTo. apply list_eq. intros j.
    rewrite list_lookup_imap, list_lookup_fmap.
    destruct (cd !! j) as [x|] eqn:Hx; [simpl|reflexivity].
    apply lookup_lt_Some in Hx. destruct (Nat.ltb_spec j (length cd)); [reflexivity|lia].
  - destruct (lookup_lt_is_Some_2 cd i) as [c Hc]; [lia|].
    assert (Hcur : chapterData st !! i = Some c).
    { rewrite Hst. unfold wrappedUpTo. rewrite list_lookup_imap, Hc. simpl.
      destruct (Nat.ltb_spec i i); [lia | reflexivity]. }
    cbn [seq forEach].
    erewrite bind_Ok_intro; cycle 1.
    { rewrite (bind_Ok_intro _ _ _ _ _ (chapterAt_Some _ _ _ Hcur)).
      apply (updateChapterAt_Some i c). exact Hcur. }
    rewrite IH.
    + now rewrite withChapterData_twice.
    + lia.
    + rewrite chapterData_withChapterData, Hst. fold (wrappedAt info c).
      apply list_eq. intros j. unfold wrappedUpTo.
      destruct (decide (i = j)) as [<-|Hne].
      * rewrite list_lookup_insert_eq
          by (rewrite length_imap; eapply lookup_lt_Some; eauto).
        rewrite list_lookup_imap, Hc. simpl.
        destruct (Nat.ltb_spec i (S i)); [reflexivity | lia].
      * rewrite list_lookup_insert_ne by exact Hne.
        rewrite !list_lookup_imap. destruct (cd !! j) as [x|]; [simpl|reflexivity].
        destruct (Nat.ltb_spec j i), (Nat.ltb_spec j (S i)); try reflexivity; lia.
Qed.

Lemma wrapChapterHtmlElements_wrapped info st :
  wrapChapterHtmlElements info st = Ok tt (withChapterData (wrapped info (chapterData st)) st).
Proof.
  unfold wrapChapterHtmlElements, bind at 1, gets.
  apply wrap_loop; [reflexivity|].
  unfold wrappedUpTo. symmetry. rewrite <- (imap_ext (fun _ c => c)).
  - clear. induction (chapterData st) as [|x l IH]; [reflexivity|].
    rewrite imap_cons. now rewrite IH at 1.
  - reflexivity.
Qed.

Lemma generate_phases dir info createIndex st :
  generate dir info createIndex st
  = (assemble dir info createIndex ;; postprocess ;; gets result) st.
Proof.
  unfold generate, assemble, postprocess, bind, modify.
  destruct (forEach processFile dir _) as [[] st1|e st1]; [|reflexivity].
  destruct (addChapterNavigation _) as [[] st2|e st2]; [|reflexivity].
  unfold gets at 1 3.
  destruct (wrapChapterHtmlElements _ _) as [[] st3|e st3]; [|reflexivity].
  destruct (outputFinalComments _) as [[] st4|e st4]; reflexivity.
Qed.

Lemma postprocess_result st :
  exists st',
    postprocess st = Ok tt st' /\
    chapterData st' = wrapped (completeInfo (st_run st)) (navigated (chapterData st)) /\
    indexData st' = indexData st /\
    Run.aboutHtml (st_run st') = Run.aboutHtml (st_run st) /\
    Run.info (st_run st') = completeInfo (st_run st) /\
    unparsedTags st' = unparsedTags st /\
    emitted st' = emitted st /\
    (forall k, flag k st' = flag k st).
Proof.
  unfold postprocess.
  set (st1 := on_run (fun r => Run.set_info (completeInfo r) r) st).
  assert (H1 : modify (on_run (fun r => Run.set_info (completeInfo r) r)) st = Ok tt st1)
    by reflexivity.
  rewrite (bind_Ok_intro _ _ _ _ _ H1).
  rewrite (bind_Ok_intro _ _ _ _ _ (addChapterNavigation_navigated st1)).
  set (st2 := withChapterData (navigated (chapterData st1)) st1).
  assert (H3 : (let* info := gets (fun st => Run.info (st_run st)) in
                wrapChapterHtmlElements info) st2
               = Ok tt (withChapterData
                          (wrapped (completeInfo (st_run st)) (navigated (chapterData st)))
                          st2)).
  { unfold bind at 1, gets. rewrite wrapChapterHtmlElements_wrapped. reflexivity. }
  rewrite (bind_Ok_intro _ _ _ _ _ H3).
  unfold outputFinalComments, bind, gets, when, modify, ret.
  destruct (Module_.outputUnparsedTags _); eexists; (split; [reflexivity|]);
    subst st2 st1; split_state st; repeat split; intros []; reflexivity.
Qed.

Lemma lookup_navigated cd i c :
  navigated cd !! i = Some c ->
  exists c0, cd !! i = Some c0 /\ c = navigatedAt cd i c0.
Proof.
  unfold navigated. rewrite list_lookup_imap.
  destruct (cd !! i) as [c0|]; simpl; [|discriminate].
  intros [= <-]. eauto.
Qed.

Lemma lookup_wrapped info cd i c :
  wrapped info cd !! i = Some c ->
  exists c0, cd !! i = Some c0 /\ c = wrappedAt info c0.
Proof.
  unfold wrapped. rewrite list_lookup_fmap.
  destruct (cd !! i) as [c0|]; simpl; [|discriminate].
  intros [= <-]. eauto.
Qed.

(** The records [generate] returns are those assembled, navigated and then
    wrapped. *)
Lemma generate_chapterData dir info createIndex st res st' :
  generate dir info createIndex st = Ok res st' ->
  exists ste,
    assemble dir info createIndex st = Ok tt ste /\
    RunResult.chapterData res
    = wrapped (completeInfo (st_run ste)) (navigated (chapterData ste)) /\
    RunResult.indexData res = indexData ste /\
    Run.info (st_run st') = completeInfo (st_run ste).
Proof.
  rewrite generate_phases. intros H.
  apply bind_Ok in H as ([] & ste & Ha & H).
  apply bind_Ok in H as ([] & stp & Hp & H).
  destruct (postprocess_result ste) as (stp' & Hp' & Hcd & Hix & _ & Hinfo & _).
  rewrite Hp in Hp'. injection Hp' as <-.
  unfold gets in H. injection H as <- <-.
  exists ste. unfold result. simpl. rewrite Hcd, Hix. auto.
Qed.

(** C3.  In the sequence [generate] returns, the first record has a null
    [previd], every other record has the id of the record before it as
    [previd], every record but the last has the id of the record after it
    as [nextid], and the last record has a null [nextid]. *)
Theorem navigation_links_adjacent_chapters
    dir info createIndex st res st' (i : nat) (c : ChapterRecord.t) :
  generate dir info createIndex st = Ok res st' ->
  RunResult.chapterData res !! i = Some c ->
  (i = 0 -> ChapterRecord.previd c = JsNull) /\
  (forall p, 0 < i -> RunResult.chapterData res !! (i - 1) = Some p ->
             ChapterRecord.previd c = ChapterRecord.id p) /\
  (forall n, RunResult.chapterData res !! (i + 1) = Some n ->
             ChapterRecord.nextid c = ChapterRecord.id n) /\
  (i = length (RunResult.chapterData res) - 1 -> ChapterRecord.nextid c = JsNull).
Proof.
  intros Hg Hc.
  destruct (generate_chapterData _ _ _ _ _ _ Hg) as (ste & _ & Hcd & _).
  rewrite Hcd in *. clear Hcd Hg.
  set (inf := completeInfo (st_run ste)) in *. set (cd := chapterData ste) in *.
  assert (Hlen : length (wrapped inf (navigated cd)) = length cd)
    by (unfold wrapped, navigated; now rewrite length_fmap, length_imap).
  apply lookup_wrapped in Hc as (c1 & Hc1 & ->).
  apply lookup_navigated in Hc1 as (c0 & Hc0 & ->).
  simpl. repeat split.
  - intros ->. reflexivity.
  - intros p Hi Hp.
    apply lookup_wrapped in Hp as (p1 & Hp1 & ->).
    apply lookup_navigated in Hp1 as (p0 & Hp0 & ->).
    destruct (Nat.eqb_spec i 0); [lia|]. rewrite Hp0. reflexivity.
  - intros n Hn.
    apply lookup_wrapped in Hn as (n1 & Hn1 & ->).
    apply lookup_navigated in Hn1 as (n0 & Hn0 & ->).
    apply lookup_lt_Some in Hn0 as Hlt.
    destruct (Nat.eqb_spec i (length cd - 1)); [lia|]. rewrite Hn0. reflexivity.
  - rewrite Hlen. intros ->. now rewrite Nat.eqb_refl.
Qed.

End PostprocessorFacts.

Lemma navigation_links_adjacent_chapters_witness :
  exists res st' c,
    generate (C := Sample.collaborators) Sample.library Sample.info true initialState
      = Ok res st' /\
    RunResult.chapterData res !! 1 = Some c /\
    ChapterRecord.id c = JsString "GEN2" /\
    ((1 = 0 -> ChapterRecord.previd c = JsNull) /\
     (forall p, 0 < 1 -> RunResult.chapterData res !! (1 - 1) = Some p ->
                ChapterRecord.previd c = ChapterRecord.id p) /\
     (forall n, RunResult.chapterData res !! (1 + 1) = Some n ->
                ChapterRecord.nextid c = ChapterRecord.id n) /\
     (1 = length (RunResult.chapterData res) - 1 -> ChapterRecord.nextid c = JsNull)).
Proof.
  eexists _, _, _.
  split; [vm_compute; reflexivity|].
  split; [reflexivity|].
  split; [reflexivity|].
  eapply (navigation_links_adjacent_chapters (C := Sample.collaborators)
            Sample.library Sample.info true initialState);
    [vm_compute; reflexivity | reflexivity].
Defined.

(** ** Components of the state that only grow *)

Lemma extends_preserves {A B} (f : State -> list A) (m : M B) :
extends f m <-> forall old, preserves (fun st => old `prefix_of` f st) m.
Proof.
split.
- intros H old st Hst. etransitivity; [exact Hst | apply H].
- intros H st. apply (H (f st) st). reflexivity.
Qed.

Lemma extends_bind {A B D} (f : State -> list A) (m : M B) (k : B -> M D) :
extends f m -> (forall b, extends f (k b)) -> extends f (bind m k).
Proof.
rewrite !extends_preserves. intros Hm Hk old.
apply preserves_bind; [apply Hm|]. intros b.
specialize (Hk b). rewrite extends_preserves in Hk. apply Hk.
Qed.

Lemma extends_forEach {A B} (f : State -> list A) (body : B -> M unit) (l : list B) :
(forall x, extends f (body x)) -> extends f (forEach body l).
Proof.
intros Hb. apply extends_preserves. intros old.
apply preserves_forEach. intros x. specialize (Hb x).
rewrite extends_preserves in Hb. apply Hb.
Qed.

(** Case analysis over the [switch]: one goal per case and per outcome of
    the tests made in it, each on an explicit state. *)
Ltac split_tests :=
repeat match goal with
       | |- context [match ?b with true => _ | false => _ end] => destruct b; cbn
       | |- context [match getBookInfoByUsfmCode ?x with _ => _ end] =>
           destruct (getBookInfoByUsfmCode x) as [[? ? []]|]; cbn
       end.

Ltac dispatch_cases r st :=
unfold dispatch; destruct (classify (TagRecord.key r));
split_state st; eval_engine; split_tests.

Ltac solve_prefix :=
cbn; first [reflexivity | apply prefix_app_r; reflexivity].

Section AppendOnly.
Context `{C : Collaborators}.

Lemma dispatch_extends_chapterData r : extends chapterData (dispatch r).
Proof. intros st. dispatch_cases r st; solve_prefix. Qed.

Lemma dispatch_extends_unparsedTags r : extends unparsedTags (dispatch r).
Proof. intros st. dispatch_cases r st; solve_prefix. Qed.

Lemma cleanup_extends_chapterData : extends chapterData cleanup.
Proof. intros st. unfold cleanup. split_state st. eval_engine. split_tests; solve_prefix. Qed.

Lemma cleanup_extends_unparsedTags : extends unparsedTags cleanup.
Proof. intros st. unfold cleanup. split_state st. eval_engine. split_tests; solve_prefix. Qed.

Lemma processLine_extends_chapterData line : extends chapterData (processLine line).
Proof.
unfold processLine. destruct (parseLine line) as [|r rs] eqn:E.
- intros st. split_state st. eval_engine. split_tests; solve_prefix.
- apply (extends_forEach chapterData dispatch (r :: rs)), dispatch_extends_chapterData.
Qed.

Lemma processLine_extends_unparsedTags line : extends unparsedTags (processLine line).
Proof.
unfold processLine. destruct (parseLine line) as [|r rs] eqn:E.
- intros st. split_state st. eval_engine. split_tests; solve_prefix.
- apply (extends_forEach unparsedTags dispatch (r :: rs)), dispatch_extends_unparsedTags.
Qed.

Lemma processFile_extends_chapterData file : extends chapterData (processFile file).
Proof.
destruct file as [filename fileContent]. unfold processFile.
destruct (isUsfm filename); [|intros st; reflexivity].
apply extends_bind; [intros st; reflexivity|]. intros _.
apply extends_bind; [|intros _; apply cleanup_extends_chapterData].
apply extends_forEach, processLine_extends_chapterData.
Qed.

Lemma processFile_extends_unparsedTags file : extends unparsedTags (processFile file).
Proof.
destruct file as [filename fileContent]. unfold processFile.
destruct (isUsfm filename); [|intros st; reflexivity].
apply extends_bind; [intros st; reflexivity|]. intros _.
apply extends_bind; [|intros _; apply cleanup_extends_unparsedTags].
apply extends_forEach, processLine_extends_unparsedTags.
Qed.

End AppendOnly.

(** ** The steps of a run *)

Section Steps.
Context `{C : Collaborators}.

Lemma bind_ret_tt (m : M unit) st : (m ;; ret tt) st = m st.
Proof. unfold bind, ret. now destruct (m st) as [[] ?|? ?]. Qed.

Lemma forEach_fmap {A B} (f : B -> M unit) (g : A -> B) (l : list A) st :
forEach f (g <$> l) st = forEach (fun x => f (g x)) l st.
Proof.
revert st. induction l as [|x l IH]; intros st; simpl; [reflexivity|].
unfold bind. destruct (f (g x) st) as [[] st1|e st1]; [apply IH | reflexivity].
Qed.

Lemma forEach_flat_map {A B} (f : B -> M unit) (g : A -> list B) (l : list A) st :
forEach f (flat_map g l) st = forEach (fun x => forEach f (g x)) l st.
Proof.
revert st. induction l as [|x l IH]; intros st; simpl; [reflexivity|].
rewrite forEach_app. unfold bind.
destruct (forEach f (g x) st) as [[] st1|e st1]; [apply IH | reflexivity].
Qed.

Lemma forEach_ext {A} (f g : A -> M unit) (l : list A) st :
(forall x st, f x st = g x st) -> forEach f l st = forEach g l st.
Proof.
intros H. revert st. induction l as [|x l IH]; intros st; simpl; [reflexivity|].
unfold bind. rewrite H. destruct (g x st) as [[] st1|e st1]; [apply IH | reflexivity].
Qed.

Lemma processLine_steps line st :
processLine line st = forEach runStep (stepsOfLine line) st.
Proof.
unfold processLine, stepsOfLine. destruct (parseLine line) as [|r rs].
- simpl. now rewrite bind_ret_tt.
- now rewrite forEach_fmap.
Qed.

Lemma processFile_steps file st :
processFile file st = forEach runStep (stepsOfFile file) st.
Proof.
destruct file as [filename fileContent]. unfold processFile, stepsOfFile. simpl.
destruct (isUsfm filename); [|reflexivity].
set (lines := Js.split (ascii_of_nat 10) fileContent).
assert (Hlines : forall s,
          forEach runStep (flat_map stepsOfLine lines) s = forEach processLine lines s).
{ intros s. rewrite forEach_flat_map. apply forEach_ext.
  intros x s'. symmetry. apply processLine_steps. }
cbn [forEach runStep].
assert (H0 : modify (on_unit (fun _ => Unit_.fresh)) st
             = Ok tt (on_unit (fun _ => Unit_.fresh) st)) by reflexivity.
rewrite !(bind_Ok_intro _ _ _ _ _ H0).
rewrite forEach_app. unfold bind. rewrite Hlines.
destruct (forEach processLine lines _) as [[] st1|e st1]; [|reflexivity].
cbn [forEach runStep]. now rewrite bind_ret_tt.
Qed.

(** The first phase of [generate] is the run of its steps. *)
Lemma assemble_steps dir info createIndex st :
assemble dir info createIndex st
= (beginRun dir info createIndex ;; forEach runStep (stepsOf dir)) st.
Proof.
unfold assemble, beginRun, stepsOf, bind, modify.
rewrite forEach_flat_map. apply forEach_ext. intros file s. apply processFile_steps.
Qed.

Lemma runStep_extends_unparsedTags s : extends unparsedTags (runStep s).
Proof.
destruct s as [|r|line|]; simpl.
- intros st. reflexivity.
- apply dispatch_extends_unparsedTags.
- intros st. split_state st. eval_engine. split_tests; solve_prefix.
- apply cleanup_extends_unparsedTags.
Qed.

Lemma runStep_extends_chapterData s : extends chapterData (runStep s).
Proof.
destruct s as [|r|line|]; simpl.
- intros st. reflexivity.
- apply dispatch_extends_chapterData.
- intros st. split_state st. eval_engine. split_tests; solve_prefix.
- apply cleanup_extends_chapterData.
Qed.

Lemma stateDuring_extends_unparsedTags dir info createIndex done st :
unparsedTags st `prefix_of` unparsedTags (stateDuring dir info createIndex done st).
Proof.
unfold stateDuring. revert st. apply extends_bind.
- unfold beginRun. repeat (apply extends_bind; [|intros _]); intros st; reflexivity.
- intros _. apply extends_forEach, runStep_extends_unparsedTags.
Qed.

(** Later in a run the records pushed earlier are still there, unchanged. *)
Lemma stateDuring_extends_chapterData dir info createIndex done more st :
chapterData (stateDuring dir info createIndex done st)
`prefix_of` chapterData (stateDuring dir info createIndex (done ++ more) st).
Proof.
unfold stateDuring, bind.
destruct (beginRun dir info createIndex st) as [[] st0|e st0]; [|reflexivity].
rewrite forEach_app. unfold bind.
destruct (forEach runStep done st0) as [[] st1|e st1]; [|reflexivity].
apply (extends_forEach chapterData runStep more runStep_extends_chapterData).
Qed.

Lemma assemble_stateDuring dir info createIndex st :
outcome_state (assemble dir info createIndex st)
= stateDuring dir info createIndex (stepsOf dir) st.
Proof. unfold stateDuring. now rewrite assemble_steps. Qed.

End Steps.

(** ** The registry of unparsed tags across calls *)

Section Registry.
Context `{C : Collaborators}.

Lemma postprocess_extends_unparsedTags : extends unparsedTags postprocess.
Proof.
intros st. destruct (postprocess_result st) as (st' & Hp & _ & _ & _ & _ & Ht & _).
rewrite Hp. simpl. rewrite Ht. reflexivity.
Qed.

Lemma assemble_extends_unparsedTags dir info createIndex :
extends unparsedTags (assemble dir info createIndex).
Proof.
unfold assemble.
do 3 (apply extends_bind; [intros st; reflexivity | intros _]).
apply extends_forEach, processFile_extends_unparsedTags.
Qed.

Lemma generate_extends_unparsedTags dir info createIndex :
extends unparsedTags (generate dir info createIndex).
Proof.
intros st. rewrite generate_phases. revert st.
apply extends_bind; [apply assemble_extends_unparsedTags | intros _].
apply extends_bind; [apply postprocess_extends_unparsedTags | intros _].
intros st. reflexivity.
Qed.

(** C10.  [unparsedTags] belongs to the module instance and [generate] does
    not reset it: a call of [generate], and every step inside a call (the
    dispatch of a record, a line, the cleanup, a file), only appends to it.
    So a key that is in the registry after one call is still there after any
    next call on the same instance, and in every state that next call passes
    through. *)
Theorem unparsed_tags_accumulate_across_calls
  (st0 : State) (dir1 : list (string * string)) (info1 : Info.t) (createIndex1 : bool)
  (key : string) :
let st1 := outcome_state (generate dir1 info1 createIndex1 st0) in
key ∈ unparsedTags st1 ->
(forall dir2 info2 createIndex2,
   key ∈ unparsedTags (outcome_state (generate dir2 info2 createIndex2 st1))) /\
(forall dir2 info2 createIndex2 done,
   key ∈ unparsedTags (stateDuring dir2 info2 createIndex2 done st1)) /\
(forall r, extends unparsedTags (dispatch r)) /\
(forall line, extends unparsedTags (processLine line)) /\
extends unparsedTags cleanup /\
(forall file, extends unparsedTags (processFile file)) /\
(forall dir info createIndex, extends unparsedTags (generate dir info createIndex)).
Proof.
intros st1 Hkey. repeat split.
- intros dir2 info2 createIndex2.
  eapply elem_of_prefix; [exact Hkey | apply generate_extends_unparsedTags].
- intros dir2 info2 createIndex2 done.
  eapply elem_of_prefix; [exact Hkey | apply stateDuring_extends_unparsedTags].
- apply dispatch_extends_unparsedTags.
- apply processLine_extends_unparsedTags.
- apply cleanup_extends_unparsedTags.
- apply processFile_extends_unparsedTags.
- apply generate_extends_unparsedTags.
Qed.

End Registry.

Lemma unparsed_tags_accumulate_across_calls_witness :
let dir1 := [("01-GEN.usfm", Sample.lines ["\id GEN"; "\c 1"; "\zz unknown"])] in
let dir2 := [("02-EXO.usfm", Sample.lines ["\id GEN"; "\c 1"; "\yy unknown"; "\zz again"])] in
let st1 :=
  outcome_state (generate (C := Sample.collaborators) dir1 Sample.info false initialState) in
let st2 :=
  outcome_state (generate (C := Sample.collaborators) dir2 Sample.info false st1) in
unparsedTags st1 = ["zz"] /\ "zz" ∈ unparsedTags st2 /\ unparsedTags st2 = ["zz"; "yy"].
Proof.
intros dir1 dir2 st1 st2.
assert (H1 : unparsedTags st1 = ["zz"]) by (vm_compute; reflexivity).
split; [exact H1|]. split; [|vm_compute; reflexivity].
pose proof (unparsed_tags_accumulate_across_calls (C := Sample.collaborators)
              initialState dir1 Sample.info false "zz") as H.
cbv zeta in H. fold st1 in H.
destruct H as [Hafter _].
- rewrite H1. constructor.
- exact (Hafter dir2 Sample.info false).
Defined.

(** ** Records once appended *)

Section AppendedRecords.
Context `{C : Collaborators}.

(** C9, as the code has it.  While the files are assembled, [chapterData]
    only grows at its end: the dispatch of a record, a line, the cleanup and
    a file leave every record that is already in the sequence in its place
    and as it is, so the records a run holds after some of its steps are
    still there, unchanged, after more of them.  The postprocessing pass
    then keeps the number of records and, in each record, [id] and [title];
    besides [previd] and [nextid] it also replaces [html], by the html the
    record had, wrapped between [openChapter(info, record)] and
    [closeChapter()]. *)
Theorem appended_records_keep_id_and_title
  dir info createIndex st res st' :
generate dir info createIndex st = Ok res st' ->
(forall r, extends chapterData (dispatch r)) /\
(forall line, extends chapterData (processLine line)) /\
extends chapterData cleanup /\
(forall file, extends chapterData (processFile file)) /\
(forall done more,
   chapterData (stateDuring dir info createIndex done st)
   `prefix_of` chapterData (stateDuring dir info createIndex (done ++ more) st)) /\
exists ste,
  assemble dir info createIndex st = Ok tt ste /\
  ste = stateDuring dir info createIndex (stepsOf dir) st /\
  length (RunResult.chapterData res) = length (chapterData ste) /\
  forall i c,
    chapterData ste !! i = Some c ->
    exists c',
      RunResult.chapterData res !! i = Some c' /\
      ChapterRecord.id c' = ChapterRecord.id c /\
      ChapterRecord.title c' = ChapterRecord.title c /\
      ChapterRecord.html c' =
        openChapter (Run.info (st_run st')) (navigatedAt (chapterData ste) i c)
        +:+ ChapterRecord.html c +:+ bibleFormatter_closeChapter.
Proof.
intros Hg.
split; [apply dispatch_extends_chapterData|].
split; [apply processLine_extends_chapterData|].
split; [apply cleanup_extends_chapterData|].
split; [apply processFile_extends_chapterData|].
split; [intros done more; apply stateDuring_extends_chapterData|].
destruct (generate_chapterData _ _ _ _ _ _ Hg) as (ste & Ha & Hcd & _ & Hinfo).
exists ste. split; [exact Ha|].
split; [rewrite <- assemble_stateDuring, Ha; reflexivity|].
rewrite Hcd, Hinfo.
split; [unfold wrapped, navigated; now rewrite length_fmap, length_imap|].
intros i c Hc. eexists. split.
- unfold wrapped, navigated. rewrite list_lookup_fmap, list_lookup_imap, Hc. reflexivity.
- repeat split.
Qed.

End AppendedRecords.

Lemma appended_records_keep_id_and_title_witness :
exists res st' ste,
  generate (C := Sample.collaborators) Sample.library Sample.info true initialState
    = Ok res st' /\
  assemble (C := Sample.collaborators) Sample.library Sample.info true initialState
    = Ok tt ste /\
  length (RunResult.chapterData res) = length (chapterData ste) /\
  ChapterRecord.id <$> RunResult.chapterData res = ChapterRecord.id <$> chapterData ste.
Proof.
eexists _, _, _.
split; [vm_compute; reflexivity|].
destruct (appended_records_keep_id_and_title (C := Sample.collaborators)
            Sample.library Sample.info true initialState _ _ ltac:(vm_compute; reflexivity))
  as (_ & _ & _ & _ & _ & ste & Ha & _ & Hlen & _).
assert (Ha' := Ha). vm_compute in Ha'. injection Ha' as <-.
split; [vm_compute; reflexivity|].
split; reflexivity.
Defined.

(** After the files of the sample directory are assembled, the first record
    holds the html of the first chapter of Genesis; in what [generate]
    returns, the html of that record is another string, which starts with
    the markup of [openChapter]. *)
Lemma postprocessing_rewrites_html_counterexample :
exists res st' ste c c',
  generate (C := Sample.collaborators) Sample.library Sample.info true initialState
    = Ok res st' /\
  assemble (C := Sample.collaborators) Sample.library Sample.info true initialState
    = Ok tt ste /\
  chapterData ste !! 0 = Some c /\
  RunResult.chapterData res !! 0 = Some c' /\
  ChapterRecord.html c' <> ChapterRecord.html c.
Proof.
eexists _, _, _, _, _.
split; [vm_compute; reflexivity|].
split; [vm_compute; reflexivity|].
split; [reflexivity|].
split; [reflexivity|].
vm_compute. discriminate.
Qed.

(** ** The block flags *)

Lemma owed_snoc k evs e : owed k (evs ++ [e]) = track k (owed k evs) e.
Proof. unfold owed. now rewrite fold_left_app. Qed.

Lemma owed_owes k evs : owed k evs = true <-> owes k evs.
Proof.
induction evs as [|e evs IH] using rev_ind.
- split; [discriminate|]. intros (before & after & H & _). now destruct before.
- rewrite owed_snoc. destruct e as [k'|k']; simpl; destruct (decide (k' = k)) as [->|Hne].
  + split; [intros _|reflexivity]. exists evs, []. split; [reflexivity|]. apply not_elem_of_nil.
  + rewrite IH. split.
    * intros (before & after & -> & Hn). exists before, (after ++ [Opened k']).
      split; [now rewrite <- app_assoc|].
      rewrite elem_of_app, list_elem_of_singleton. intros [?|?]; [tauto|congruence].
    * intros (before & after & H & Hn).
      destruct after as [|a after _] using rev_ind.
      { apply app_inj_tail in H as [_ [=]]. congruence. }
      rewrite app_comm_cons, app_assoc in H. apply app_inj_tail in H as [-> _].
      exists before, after. split; [reflexivity|].
      intros Hin. apply Hn. rewrite elem_of_app. now left.
  + split; [discriminate|]. intros (before & after & H & Hn). exfalso.
    destruct after as [|a after _] using rev_ind.
    { apply app_inj_tail in H as [_ [=]]. }
    rewrite app_comm_cons, app_assoc in H. apply app_inj_tail in H as [_ <-].
    apply Hn. rewrite elem_of_app, list_elem_of_singleton. now right.
  + rewrite IH. split.
    * intros (before & after & -> & Hn). exists before, (after ++ [Closed k']).
      split; [now rewrite <- app_assoc|].
      rewrite elem_of_app, list_elem_of_singleton. intros [?|?]; [tauto|congruence].
    * intros (before & after & H & Hn).
      destruct after as [|a after _] using rev_ind.
      { apply app_inj_tail in H as [_ [=]]. }
      rewrite app_comm_cons, app_assoc in H. apply app_inj_tail in H as [-> _].
      exists before, after. split; [reflexivity|].
      intros Hin. apply Hn. rewrite elem_of_app. now left.
Qed.

Lemma flags_track_owed st :
flags_track st <-> forall k, flag k st = owed k (emitted st).
Proof.
unfold flags_track. split; intros H k; specialize (H k).
- rewrite <- owed_owes in H. destruct (flag k st), (owed k (emitted st)); intuition congruence.
- rewrite <- owed_owes, H. reflexivity.
Qed.

(** Brings the invariant into four equations, one per flag, on a state split
    into its fields. *)
Ltac flag_equations H :=
let Ht := fresh "Ht" in let Hv := fresh "Hv" in
let Hf := fresh "Hf" in let Hl := fresh "Hl" in
pose proof (H TextBlock) as Ht; pose proof (H VerseBlock) as Hv;
pose proof (H FootnoteBlock) as Hf; pose proof (H ListItemBlock) as Hl;
clear H; unfold owed in Ht, Hv, Hf, Hl; cbn in Ht, Hv, Hf, Hl.

Ltac solve_flags :=
intros []; unfold owed; cbn; rewrite ?fold_left_app; cbn;
first [assumption | reflexivity | congruence].

Section BlockFlags.
Context `{C : Collaborators}.

Lemma dispatch_flags_owed r : preserves flags_owed (dispatch r).
Proof.
intros st H. unfold flags_owed in *.
unfold dispatch; destruct (classify (TagRecord.key r));
  split_state st; flag_equations H; eval_engine; split_tests; solve_flags.
Qed.

Lemma cleanup_flags_owed : preserves flags_owed cleanup.
Proof.
intros st H. unfold flags_owed in *. unfold cleanup.
split_state st; flag_equations H; eval_engine; split_tests; solve_flags.
Qed.

Lemma processLine_flags_owed line : preserves flags_owed (processLine line).
Proof.
unfold processLine. destruct (parseLine line) as [|r rs] eqn:E.
- intros st H. unfold flags_owed in *.
  split_state st; flag_equations H; eval_engine; split_tests; solve_flags.
- apply (preserves_forEach flags_owed dispatch (r :: rs)), dispatch_flags_owed.
Qed.

Lemma processFile_flags_owed file : preserves flags_owed (processFile file).
Proof.
destruct file as [filename fileContent]. unfold processFile.
destruct (isUsfm filename); [|apply preserves_ret].
apply preserves_bind; [apply preserves_modify; intros st H; exact H | intros _].
apply preserves_bind; [|intros _; apply cleanup_flags_owed].
apply preserves_forEach, processLine_flags_owed.
Qed.

Lemma generate_flags_owed dir info createIndex :
preserves flags_owed (generate dir info createIndex).
Proof.
intros st H. rewrite generate_phases. revert st H.
apply preserves_bind; [|intros _; apply preserves_bind; [|intros _; apply preserves_gets]].
- unfold assemble.
  do 3 (apply preserves_bind; [apply preserves_modify; intros st H; exact H | intros _]).
  apply preserves_forEach, processFile_flags_owed.
- intros st H. destruct (postprocess_result st) as (st' & Hp & _ & _ & _ & _ & _ & He & Hf).
  rewrite Hp. simpl. intros k. unfold flags_owed in H. now rewrite Hf, He.
Qed.

Lemma runStep_flags_owed s : preserves flags_owed (runStep s).
Proof.
destruct s as [|r|line|]; simpl.
- apply preserves_modify. intros st H. exact H.
- apply dispatch_flags_owed.
- intros st H. unfold flags_owed in *.
  split_state st; flag_equations H; eval_engine; split_tests; solve_flags.
- apply cleanup_flags_owed.
Qed.

Lemma stateDuring_flags_owed dir info createIndex done st :
flags_owed st -> flags_owed (stateDuring dir info createIndex done st).
Proof.
unfold stateDuring. revert st. apply preserves_bind.
- unfold beginRun.
  repeat (apply preserves_bind; [|intros _]); apply preserves_modify; intros st H; exact H.
- intros _. apply preserves_forEach, runStep_flags_owed.
Qed.

(** For verse, text and list-item blocks the flag also equals the number of
    openings not yet closed, which is 0 or 1: their cases close the open
    block of the kind before they open a new one. *)
Lemma dispatch_flags_balanced r : preserves flags_balanced (dispatch r).
Proof.
intros st H. unfold flags_balanced in *.
pose proof (H TextBlock ltac:(discriminate)) as Ht.
pose proof (H VerseBlock ltac:(discriminate)) as Hv.
pose proof (H ListItemBlock ltac:(discriminate)) as Hl. clear H.
unfold balance in *.
unfold dispatch; destruct (classify (TagRecord.key r));
  split_state st; cbn in Ht, Hv, Hl; eval_engine; split_tests;
  intros [] Hk; try contradiction; cbn; rewrite ?fold_left_app; cbn;
  rewrite ?Ht, ?Hv, ?Hl; reflexivity.
Qed.

Lemma cleanup_flags_balanced : preserves flags_balanced cleanup.
Proof.
intros st H. unfold flags_balanced in *.
pose proof (H TextBlock ltac:(discriminate)) as Ht.
pose proof (H VerseBlock ltac:(discriminate)) as Hv.
pose proof (H ListItemBlock ltac:(discriminate)) as Hl. clear H.
unfold balance in *. unfold cleanup.
split_state st; cbn in Ht, Hv, Hl; eval_engine; split_tests;
  intros [] Hk; try contradiction; cbn; rewrite ?fold_left_app; cbn;
  rewrite ?Ht, ?Hv, ?Hl; reflexivity.
Qed.

Lemma runStep_flags_balanced s : preserves flags_balanced (runStep s).
Proof.
destruct s as [|r|line|]; simpl.
- apply preserves_modify. intros st H. exact H.
- apply dispatch_flags_balanced.
- intros st H. unfold flags_balanced in *.
  pose proof (H TextBlock ltac:(discriminate)) as Ht.
  pose proof (H VerseBlock ltac:(discriminate)) as Hv.
  pose proof (H ListItemBlock ltac:(discriminate)) as Hl. clear H.
  unfold balance in *.
  split_state st; cbn in Ht, Hv, Hl; eval_engine; split_tests;
    intros [] Hk; try contradiction; cbn; rewrite ?fold_left_app; cbn;
    rewrite ?Ht, ?Hv, ?Hl; reflexivity.
- apply cleanup_flags_balanced.
Qed.

Lemma processLine_flags_balanced line : preserves flags_balanced (processLine line).
Proof.
intros st H. rewrite processLine_steps.
now apply (preserves_forEach flags_balanced runStep _ runStep_flags_balanced).
Qed.

Lemma processFile_flags_balanced file : preserves flags_balanced (processFile file).
Proof.
intros st H. rewrite processFile_steps.
now apply (preserves_forEach flags_balanced runStep _ runStep_flags_balanced).
Qed.

Lemma generate_flags_balanced dir info createIndex :
preserves flags_balanced (generate dir info createIndex).
Proof.
intros st H. rewrite generate_phases. revert st H.
apply preserves_bind; [|intros _; apply preserves_bind; [|intros _; apply preserves_gets]].
- unfold assemble.
  do 3 (apply preserves_bind; [apply preserves_modify; intros st H; exact H | intros _]).
  apply preserves_forEach, processFile_flags_balanced.
- intros st H. destruct (postprocess_result st) as (st' & Hp & _ & _ & _ & _ & _ & He & Hf).
  rewrite Hp. simpl. intros k Hk. unfold flags_balanced in H. rewrite Hf, He. now apply H.
Qed.

Lemma stateDuring_flags_balanced dir info createIndex done st :
flags_balanced st -> flags_balanced (stateDuring dir info createIndex done st).
Proof.
unfold stateDuring. revert st. apply preserves_bind.
- unfold beginRun.
  repeat (apply preserves_bind; [|intros _]); apply preserves_modify; intros st H; exact H.
- intros _. apply preserves_forEach, runStep_flags_balanced.
Qed.

Lemma flags_track_kept : keptThroughout flags_track.
Proof.
intros st H0. pose proof (proj1 (flags_track_owed st) H0) as H. clear H0.
split; [|split; [|split; [|split; [|split]]]].
- intros r. apply (proj2 (flags_track_owed _)). now apply dispatch_flags_owed.
- intros line. apply (proj2 (flags_track_owed _)). now apply processLine_flags_owed.
- apply (proj2 (flags_track_owed _)). now apply cleanup_flags_owed.
- intros file. apply (proj2 (flags_track_owed _)). now apply processFile_flags_owed.
- intros dir info createIndex. apply (proj2 (flags_track_owed _)).
  now apply generate_flags_owed.
- intros dir info createIndex done. apply (proj2 (flags_track_owed _)).
  now apply stateDuring_flags_owed.
Qed.

Lemma flags_balanced_kept : keptThroughout flags_balanced.
Proof.
intros st H.
split; [|split; [|split; [|split; [|split]]]].
- intros r. now apply dispatch_flags_balanced.
- intros line. now apply processLine_flags_balanced.
- now apply cleanup_flags_balanced.
- intros file. now apply processFile_flags_balanced.
- intros dir info createIndex. now apply generate_flags_balanced.
- intros dir info createIndex done. now apply stateDuring_flags_balanced.
Qed.

Lemma initial_flags_track : flags_track initialState.
Proof. apply (proj2 (flags_track_owed _)). intros []; reflexivity. Qed.

Lemma initial_flags_balanced : flags_balanced initialState.
Proof. intros [] _; reflexivity. Qed.

(** *** The markup next to the events *)

(** Appending a fragment puts its text at the end of the chapter html and
    its events at the end of the history, and touches no flag. *)
Lemma appendHtml_appends f st :
exists st',
  appendHtml f st = Ok tt st' /\
  Chapter.html (chapter st') = Chapter.html (chapter st) +:+ Fragment.text f /\
  emitted st' = emitted st ++ Fragment.events f /\
  (forall k, flag k st' = flag k st).
Proof.
split_state st. destruct currentChapter. eval_engine. eexists.
split; [reflexivity|]. cbn. repeat split.
Qed.

(** A close function returns the closing markup of its kind, labelled as a
    closing of that kind, when the flag is set, and the empty fragment
    otherwise; it clears its flag and touches nothing else. *)
Lemma closeBlock_fragment k st :
exists st',
  closeBlock k st = Ok (Fragment.mk (closing k st) (closingEvent k st)) st' /\
  flag k st' = false /\
  (forall k', k' <> k -> flag k' st' = flag k' st) /\
  Chapter.html (chapter st') = Chapter.html (chapter st) /\
  emitted st' = emitted st.
Proof.
unfold closing, closingEvent.
destruct k; split_state st; eval_engine;
  match goal with |- context [if ?b then _ else _] => destruct b end;
  cbn; eexists; (split; [reflexivity|]); cbn;
  (split; [reflexivity|]); (split; [|split; reflexivity]);
  intros [] Hk; try contradiction; reflexivity.
Qed.

Lemma dispatch_verse_markup r st :
TagRecord.key r = "v" ->
exists st',
  dispatch r st = Ok tt st' /\
  Chapter.html (chapter st') =
    (Chapter.html (chapter st) +:+ closing VerseBlock st)
    +:+ (openVerse (Verse.id (verse st')) (TagRecord.number r) +:+ TagRecord.text r) /\
  emitted st' = (emitted st ++ closingEvent VerseBlock st) ++ [Opened VerseBlock] /\
  flag VerseBlock st' = true.
Proof.
intros Hk. destruct (dispatch_v r st Hk) as (st' & Hd & Hh & He & _ & Hv & Hf).
exists st'. rewrite Hv. simpl. unfold closing, closingEvent. auto.
Qed.

Lemma classify_paragraph k : key_in k paragraphKeys = true -> classify k = CaseParagraph.
Proof.
intros H. apply existsb_exists in H as (x & Hx & E). apply String.eqb_eq in E. subst x.
simpl in Hx. repeat (destruct Hx as [<-|Hx]; [reflexivity|]). contradiction.
Qed.

Lemma classify_listItem k : key_in k listItemKeys = true -> classify k = CaseListItem.
Proof.
intros H. apply existsb_exists in H as (x & Hx & E). apply String.eqb_eq in E. subst x.
simpl in Hx. repeat (destruct Hx as [<-|Hx]; [reflexivity|]). contradiction.
Qed.

Lemma classify_note k : key_in k ["x"; "f"] = true -> classify k = CaseNoteOpen.
Proof.
intros H. apply existsb_exists in H as (x & Hx & E). apply String.eqb_eq in E. subst x.
simpl in Hx. repeat (destruct Hx as [<-|Hx]; [reflexivity|]). contradiction.
Qed.

Lemma classify_not_opener k :
key_in k openerKeys = false ->
match classify k with
| CaseV | CaseParagraph | CaseListItem | CaseNoteOpen => False
| _ => True
end.
Proof.
unfold openerKeys, key_in. cbn [existsb]. rewrite !existsb_app.
rewrite !orb_false_iff. intros (Hv & Hp & Hl & Hn).
fold (key_in k paragraphKeys) in Hp. fold (key_in k listItemKeys) in Hl.
fold (key_in k ["x"; "f"]) in Hn.
unfold classify. rewrite Hv, Hp, Hl, Hn.
repeat match goal with |- context [if ?b then _ else _] => destruct b end; exact I.
Qed.

Lemma dispatch_paragraph_markup r st :
key_in (TagRecord.key r) paragraphKeys = true ->
exists st',
  dispatch r st = Ok tt st' /\
  Chapter.html (chapter st') =
    (((Chapter.html (chapter st) +:+ closing VerseBlock st) +:+ closing TextBlock st)
     +:+ (div (TagRecord.key r) +:+ br st))
    +:+ (if String.eqb (TagRecord.text r) "" then ""
         else openVerse (Verse.id (verse st)) JsNull +:+ TagRecord.text r +:+ closeVerse) /\
  emitted st' =
    (((emitted st ++ closingEvent VerseBlock st) ++ closingEvent TextBlock st)
     ++ [Opened TextBlock])
    ++ (if String.eqb (TagRecord.text r) "" then []
        else [Opened VerseBlock; Closed VerseBlock]) /\
  flag TextBlock st' = true /\
  flag VerseBlock st' = false.
Proof.
intros Hk. apply classify_paragraph in Hk. unfold dispatch, closing, closingEvent.
rewrite Hk. split_state st. destruct currentChapter, currentVerse. eval_engine.
destruct verseBlockOpen, textBlockOpen, (String.eqb (TagRecord.text r) ""); cbn;
  eexists; (split; [reflexivity|]); cbn; rewrite ?append_empty_r, ?app_nil_r; auto.
Qed.

Lemma dispatch_listItem_markup r st :
key_in (TagRecord.key r) listItemKeys = true ->
exists st',
  dispatch r st = Ok tt st' /\
  Chapter.html (chapter st') =
    ((Chapter.html (chapter st) +:+ closing VerseBlock st) +:+ closing ListItemBlock st)
    +:+ (div (TagRecord.key r) +:+ TagRecord.text r) /\
  emitted st' =
    ((emitted st ++ closingEvent VerseBlock st) ++ closingEvent ListItemBlock st)
    ++ [Opened ListItemBlock] /\
  flag ListItemBlock st' = true /\
  flag VerseBlock st' = false.
Proof.
intros Hk. apply classify_listItem in Hk. unfold dispatch, closing, closingEvent.
rewrite Hk. split_state st. destruct currentChapter. eval_engine.
destruct verseBlockOpen, listItemBlockOpen; cbn;
  eexists; (split; [reflexivity|]); cbn; auto.
Qed.

Lemma dispatch_note_markup r st :
key_in (TagRecord.key r) ["x"; "f"] = true ->
exists st',
  dispatch r st = Ok tt st' /\
  Chapter.html (chapter st') =
    Chapter.html (chapter st)
    +:+ noteOpening (Unit_.noteNumber (st_unit st)) (TagRecord.text r) /\
  emitted st' = emitted st ++ [Opened FootnoteBlock] /\
  flag FootnoteBlock st' = true.
Proof.
intros Hk. apply classify_note in Hk. unfold dispatch. rewrite Hk.
split_state st. destruct currentChapter. eval_engine. cbn. eexists. repeat split.
Qed.

Lemma dispatch_other_opens_nothing r st :
key_in (TagRecord.key r) openerKeys = false ->
exists evs,
  emitted (outcome_state (dispatch r st)) = emitted st ++ evs /\
  forallb isClosing evs = true.
Proof.
intros Hk. apply classify_not_opener in Hk. unfold dispatch.
destruct (classify (TagRecord.key r)); try contradiction; clear Hk;
  split_state st; eval_engine; split_tests; rewrite <- ?app_assoc;
  first [ eexists; split; [reflexivity|]; reflexivity
        | exists []; split; [now rewrite app_nil_r | reflexivity] ].
Qed.

(** C5, as the code has it.  A flag is true exactly when an opening of its
    kind has been emitted and no closing of that kind has been emitted after
    it.  This holds on a new module instance and is kept by the dispatch of
    any record (also when it throws), by a line, by the cleanup, by a file
    and by a whole call of [generate]; it holds in every state a run passes
    through.  For verse, text and list-item blocks, whose cases close the
    open block of the kind before they open a new one, the flag is moreover
    the number of openings that have no closing of their own, 1 or 0; for
    notes it is not, as the note case opens without closing.  The events
    stand next to the markup in the html: appending a fragment appends its
    text and its events; a close function yields the closing markup of its
    kind with the closing event exactly when the flag is set, and clears the
    flag; the verse, paragraph, list-item and note cases append the opening
    markup of their kind after the closings they make, log that opening and
    set the flag; and no other case logs an opening.  In the paragraph case
    the unnumbered verse for the text of the record is opened and closed in
    the same dispatch, after which the verse flag is false. *)
Theorem block_flags_track_open_blocks :
flags_track initialState /\
keptThroughout flags_track /\
flags_balanced initialState /\
keptThroughout flags_balanced /\
(forall f st,
   exists st',
     appendHtml f st = Ok tt st' /\
     Chapter.html (chapter st') = Chapter.html (chapter st) +:+ Fragment.text f /\
     emitted st' = emitted st ++ Fragment.events f /\
     (forall k, flag k st' = flag k st)) /\
(forall k st,
   exists st',
     closeBlock k st = Ok (Fragment.mk (closing k st) (closingEvent k st)) st' /\
     flag k st' = false /\
     (forall k', k' <> k -> flag k' st' = flag k' st) /\
     Chapter.html (chapter st') = Chapter.html (chapter st) /\
     emitted st' = emitted st) /\
(forall r st,
   TagRecord.key r = "v" ->
   exists st',
     dispatch r st = Ok tt st' /\
     Chapter.html (chapter st') =
       (Chapter.html (chapter st) +:+ closing VerseBlock st)
       +:+ (openVerse (Verse.id (verse st')) (TagRecord.number r) +:+ TagRecord.text r) /\
     emitted st' = (emitted st ++ closingEvent VerseBlock st) ++ [Opened VerseBlock] /\
     flag VerseBlock st' = true) /\
(forall r st,
   key_in (TagRecord.key r) paragraphKeys = true ->
   exists st',
     dispatch r st = Ok tt st' /\
     Chapter.html (chapter st') =
       (((Chapter.html (chapter st) +:+ closing VerseBlock st) +:+ closing TextBlock st)
        +:+ (div (TagRecord.key r) +:+ br st))
       +:+ (if String.eqb (TagRecord.text r) "" then ""
            else openVerse (Verse.id (verse st)) JsNull +:+ TagRecord.text r +:+ closeVerse) /\
     emitted st' =
       (((emitted st ++ closingEvent VerseBlock st) ++ closingEvent TextBlock st)
        ++ [Opened TextBlock])
       ++ (if String.eqb (TagRecord.text r) "" then []
           else [Opened VerseBlock; Closed VerseBlock]) /\
     flag TextBlock st' = true /\
     flag VerseBlock st' = false) /\
(forall r st,
   key_in (TagRecord.key r) listItemKeys = true ->
   exists st',
     dispatch r st = Ok tt st' /\
     Chapter.html (chapter st') =
       ((Chapter.html (chapter st) +:+ closing VerseBlock st) +:+ closing ListItemBlock st)
       +:+ (div (TagRecord.key r) +:+ TagRecord.text r) /\
     emitted st' =
       ((emitted st ++ closingEvent VerseBlock st) ++ closingEvent ListItemBlock st)
       ++ [Opened ListItemBlock] /\
     flag ListItemBlock st' = true /\
     flag VerseBlock st' = false) /\
(forall r st,
   key_in (TagRecord.key r) ["x"; "f"] = true ->
   exists st',
     dispatch r st = Ok tt st' /\
     Chapter.html (chapter st') =
       Chapter.html (chapter st)
       +:+ noteOpening (Unit_.noteNumber (st_unit st)) (TagRecord.text r) /\
     emitted st' = emitted st ++ [Opened FootnoteBlock] /\
     flag FootnoteBlock st' = true) /\
(forall r st,
   key_in (TagRecord.key r) openerKeys = false ->
   exists evs,
     emitted (outcome_state (dispatch r st)) = emitted st ++ evs /\
     forallb isClosing evs = true).
Proof.
split; [apply initial_flags_track|].
split; [apply flags_track_kept|].
split; [apply initial_flags_balanced|].
split; [apply flags_balanced_kept|].
split; [apply appendHtml_appends|].
split; [apply closeBlock_fragment|].
split; [apply dispatch_verse_markup|].
split; [apply dispatch_paragraph_markup|].
split; [apply dispatch_listItem_markup|].
split; [apply dispatch_note_markup | apply dispatch_other_opens_nothing].
Qed.

End BlockFlags.

Lemma block_flags_track_open_blocks_witness :
let v := TagRecord.mk "v" (JsString "1") "In the beginning" in
let p := TagRecord.mk "p" JsUndefined "and God said" in
let st := outcome_state (dispatch (C := Sample.collaborators) v initialState) in
let st' := outcome_state (dispatch (C := Sample.collaborators) p st) in
flag VerseBlock st = true /\
flags_track st' /\
flags_balanced st' /\
flags_track (outcome_state (cleanup (C := Sample.collaborators) st)) /\
emitted st' =
  [Opened VerseBlock; Closed VerseBlock; Opened TextBlock; Opened VerseBlock;
   Closed VerseBlock] /\
flag VerseBlock st' = false /\
flag TextBlock st' = true.
Proof.
intros v p st st'.
destruct (block_flags_track_open_blocks (C := Sample.collaborators))
  as (H0 & Hk & B0 & Bk & _ & _ & _ & Hp & _).
destruct (Hk initialState H0) as (Hd & _). destruct (Hk st (Hd v)) as (Hd' & _ & Hc & _).
destruct (Bk initialState B0) as (Bd & _). destruct (Bk st (Bd v)) as (Bd' & _).
split; [reflexivity|]. split; [apply Hd'|]. split; [apply Bd'|]. split; [exact Hc|].
destruct (Hp p st eq_refl) as (st2 & E & _ & He & Ht & Hv).
assert (E' : st' = st2) by (unfold st'; now rewrite E).
rewrite E', He. split; [reflexivity|]. split; [exact Hv | exact Ht].
Defined.

(** A note opened inside an open note.  The note case opens without
    closing, so the html holds two openings of a note; the one close that
    follows clears the flag, and the opening of the outer note is left
    without a closing while the flag is false. *)
Lemma note_opened_in_open_note_counterexample :
let st := outcome_state
            (forEach (dispatch (C := Sample.collaborators))
                     [TagRecord.mk "f" JsUndefined "+ outer";
                      TagRecord.mk "f" JsUndefined "+ inner";
                      TagRecord.mk "f*" JsUndefined ""] initialState) in
flag FootnoteBlock st = false /\
Chapter.html (chapter st) =
  (noteOpening 1 "+ outer" +:+ noteOpening 2 "+ inner") +:+ "</span></span>" /\
emitted st = [Opened FootnoteBlock; Opened FootnoteBlock; Closed FootnoteBlock] /\
balance FootnoteBlock (emitted st) = 1%Z /\
flags_track st.
Proof.
intros st. split; [reflexivity|]. split; [vm_compute; reflexivity|].
split; [reflexivity|]. split; [reflexivity|].
apply (proj2 (flags_track_owed _)). intros []; reflexivity.
Qed.

(** ** The cleanup at the end of a file *)

Section Cleanup.
Context `{C : Collaborators}.

Lemma cleanup_result st :
exists st',
  cleanup st = Ok tt st' /\
  chapterData st' =
    chapterData st
    ++ [ChapterRecord.mk
          (Chapter.id (chapter st)) (Chapter.title (chapter st))
          ((((Chapter.html (chapter st) +:+ closing FootnoteBlock st)
             +:+ closing VerseBlock st) +:+ closing ListItemBlock st)
           +:+ closing TextBlock st)
          JsUndefined JsUndefined] /\
  emitted st' =
    (((emitted st ++ closingEvent FootnoteBlock st) ++ closingEvent VerseBlock st)
     ++ closingEvent ListItemBlock st) ++ closingEvent TextBlock st /\
  indexData st' = indexData st ++ (if indexable st then [pendingCall st] else []) /\
  (forall k, flag k st' = false) /\
  Chapter.html (chapter st') = "" /\
  Chapter.id (chapter st') = JsString "" /\
  Chapter.title (chapter st') = "".
Proof.
unfold cleanup, closing, closingEvent, indexable, pendingCall.
split_state st. destruct currentChapter, currentVerse. eval_engine.
destruct footnoteBlockOpen, verseBlockOpen, listItemBlockOpen, textBlockOpen; cbn;
  (destruct (createIndex && negb (String.eqb text "") && negb (bool_decide (id0 = JsNull)));
   cbn; eexists; (split; [reflexivity|]); cbn;
   rewrite ?app_nil_r;
   (split; [reflexivity|]); (split; [reflexivity|]); (split; [reflexivity|]);
   (split; [intros []; reflexivity|]); auto).
Qed.










End Cleanup.



(** ** Chapter records and chapter markers *)

Lemma count_app {A} (p : A -> bool) (l1 l2 : list A) :
count p (l1 ++ l2) = count p l1 + count p l2.
Proof. induction l1 as [|x l1 IH]; simpl; [reflexivity | rewrite IH; lia]. Qed.

Section ChapterRecords.
Context `{C : Collaborators}.

Lemma dispatch_chapter_effect r st :
let st' := outcome_state (dispatch r st) in
(isChapterMarker r = true ->
   chapterCodes st' = chapterCodes st ++ [Chapter.id (chapter st')]) /\
(isChapterMarker r = false ->
   chapterCodes st' = chapterCodes st /\ Chapter.id (chapter st') = Chapter.id (chapter st)) /\
(flushes r = true ->
   exists record,
     chapterData st' = chapterData st ++ [record] /\
     ChapterRecord.id record = Chapter.id (chapter st)) /\
(flushes r = false -> chapterData st' = chapterData st).
Proof.
unfold flushes, isChapterMarker, dispatch.
destruct (classify (TagRecord.key r));
  split_state st; destruct currentChapter; eval_engine;
  cbv [Chapter.set_html Chapter.set_header Chapter.set_id Chapter.set_number Chapter.set_title
       Chapter.html Chapter.header Chapter.id Chapter.number Chapter.title];
  split_tests;
  (split; [|split; [|split]]); intros H; try discriminate H; cbn; auto;
  eexists; split; reflexivity.
Qed.

Lemma untagged_chapter_effect line st :
let st' := outcome_state
             (when (negb (String.eqb (Js.remove_whitespace line) ""))
                   (appendHtml (Fragment.plain (" " +:+ line))) st) in
chapterCodes st' = chapterCodes st /\
Chapter.id (chapter st') = Chapter.id (chapter st) /\
chapterData st' = chapterData st.
Proof.
split_state st. destruct currentChapter. eval_engine. split_tests; auto.
Qed.

(** Counting: every chapter marker adds a section, every flushing marker
    adds a record. *)
Lemma forEach_dispatch_counts rs : forall st st',
forEach dispatch rs st = Ok tt st' ->
length (chapterData st') = length (chapterData st) + count flushes rs /\
length (chapterCodes st') = length (chapterCodes st) + count isChapterMarker rs.
Proof.
induction rs as [|r rs IH]; intros st st' H; simpl in *.
- injection H as <-. lia.
- apply bind_Ok in H as ([] & st1 & Hd & H).
  destruct (IH _ _ H) as [IH1 IH2].
  pose proof (dispatch_chapter_effect r st) as (Hm & Hn & Hf & Hg).
  rewrite Hd in Hm, Hn, Hf, Hg. simpl in Hm, Hn, Hf, Hg.
  split.
  + rewrite IH1. destruct (flushes r).
    * destruct Hf as (record & -> & _); [reflexivity|]. rewrite length_app. simpl. lia.
    * rewrite Hg by reflexivity. lia.
  + rewrite IH2. destruct (isChapterMarker r).
    * rewrite Hm by reflexivity. rewrite length_app. simpl. lia.
    * destruct Hn as [-> _]; [reflexivity|]. lia.
Qed.

Lemma processLine_counts line st st' :
processLine line st = Ok tt st' ->
length (chapterData st') = length (chapterData st) + count flushes (parseLine line) /\
length (chapterCodes st') = length (chapterCodes st) + count isChapterMarker (parseLine line).
Proof.
unfold processLine. destruct (parseLine line) as [|r rs] eqn:E.
- intros H. pose proof (untagged_chapter_effect line st) as (H1 & _ & H2).
  rewrite H in H1, H2. simpl in *. rewrite H1, H2. lia.
- apply forEach_dispatch_counts.
Qed.

Lemma forEach_processLine_counts lines : forall st st',
forEach processLine lines st = Ok tt st' ->
length (chapterData st') =
  length (chapterData st) + count flushes (flat_map parseLine lines) /\
length (chapterCodes st') =
  length (chapterCodes st) + count isChapterMarker (flat_map parseLine lines).
Proof.
induction lines as [|line lines IH]; intros st st' H; simpl in *.
- injection H as <-. lia.
- apply bind_Ok in H as ([] & st1 & Hl & H).
  destruct (IH _ _ H) as [IH1 IH2]. destruct (processLine_counts _ _ _ Hl) as [H1 H2].
  rewrite !count_app. lia.
Qed.

Lemma processFile_counts file st st' :
processFile file st = Ok tt st' ->
length (chapterData st') = length (chapterData st) + recordsPushedBy file /\
length (chapterCodes st') = length (chapterCodes st) + markersIn file.
Proof.
destruct file as [filename fileContent]. unfold processFile, recordsPushedBy, markersIn. simpl.
destruct (isUsfm filename).
- intros H. apply bind_Ok in H as ([] & st1 & H1 & H).
  apply bind_Ok in H as ([] & st2 & H2 & H).
  injection H1 as <-.
  destruct (forEach_processLine_counts _ _ _ H2) as [Hd Hc].
  destruct (cleanup_result st2) as (st3 & Hcl & Hcd & _).
  rewrite H in Hcl. injection Hcl as <-.
  pose proof (cleanup_extends_chapterData st2) as _.
  assert (Hcodes : chapterCodes st' = chapterCodes st2).
  { clear -H. unfold cleanup in H. split_state st2. revert H. eval_engine.
    split_tests; intros [= <-]; reflexivity. }
  rewrite Hcd, length_app, Hcodes. simpl. unfold recordsOf.
  change (chapterData (on_unit (fun _ => Unit_.fresh) st)) with (chapterData st) in Hd.
  change (chapterCodes (on_unit (fun _ => Unit_.fresh) st)) with (chapterCodes st) in Hc.
  lia.
- intros [= <-]. lia.
Qed.

Lemma forEach_processFile_counts dir : forall st st',
forEach processFile dir st = Ok tt st' ->
length (chapterData st') = length (chapterData st) + sum_list_with recordsPushedBy dir /\
length (chapterCodes st') = length (chapterCodes st) + sum_list_with markersIn dir.
Proof.
induction dir as [|file dir IH]; intros st st' H; simpl in *.
- injection H as <-. lia.
- apply bind_Ok in H as ([] & st1 & Hf & H).
  destruct (IH _ _ H) as [IH1 IH2]. destruct (processFile_counts _ _ _ Hf) as [H1 H2].
  lia.
Qed.

Lemma numberedOk_app seen rs1 rs2 :
numberedOk seen (rs1 ++ rs2) = numberedOk seen rs1 && numberedOk (seenAfter seen rs1) rs2.
Proof.
revert seen. induction rs1 as [|r rs1 IH]; intros seen; simpl.
- unfold seenAfter. simpl. now rewrite orb_false_r.
- unfold seenAfter in *. simpl. destruct (isChapterMarker r); simpl.
  + rewrite IH. simpl. rewrite orb_true_r. now rewrite andb_assoc.
  + now rewrite IH.
Qed.

Lemma seenAfter_app seen rs1 rs2 :
seenAfter seen (rs1 ++ rs2) = seenAfter (seenAfter seen rs1) rs2.
Proof. unfold seenAfter. now rewrite existsb_app, orb_assoc. Qed.

Lemma dispatch_idsMatch r seen st st' :
dispatch r st = Ok tt st' ->
idsMatch seen st ->
numberedOk seen [r] = true ->
idsMatch (seenAfter seen [r]) st'.
Proof.
intros Hd Hi Hn. unfold idsMatch, seenAfter in *. simpl in *.
pose proof (dispatch_chapter_effect r st) as (Hm & Hnm & Hf & Hnf).
rewrite Hd in Hm, Hnm, Hf, Hnf. simpl in Hm, Hnm, Hf, Hnf.
destruct (isChapterMarker r) eqn:Em.
- rewrite orb_true_r, Hm by reflexivity. rewrite andb_true_r in Hn.
  destruct seen.
  + destruct (Hf Hn) as (record & -> & Hid). rewrite fmap_app. simpl.
    rewrite Hid. now rewrite Hi.
  + apply negb_true_iff in Hn. rewrite (Hnf Hn). now rewrite app_nil_r in Hi; rewrite Hi.
- rewrite orb_false_r. destruct (Hnm eq_refl) as [-> ->].
  assert (Hfl : flushes r = false) by (unfold flushes; now rewrite Em).
  now rewrite (Hnf Hfl).
Qed.

Lemma forEach_dispatch_idsMatch rs : forall seen st st',
forEach dispatch rs st = Ok tt st' ->
idsMatch seen st ->
numberedOk seen rs = true ->
idsMatch (seenAfter seen rs) st'.
Proof.
induction rs as [|r rs IH]; intros seen st st' H Hi Hn.
- simpl in H. injection H as <-. unfold seenAfter. simpl. now rewrite orb_false_r.
- simpl in H. apply bind_Ok in H as ([] & st1 & Hd & H).
  change (r :: rs) with ([r] ++ rs) in Hn |- *.
  rewrite numberedOk_app in Hn. apply andb_true_iff in Hn as [Hn1 Hn2].
  rewrite seenAfter_app. eapply IH; eauto using dispatch_idsMatch.
Qed.

Lemma forEach_processLine_idsMatch lines : forall seen st st',
forEach processLine lines st = Ok tt st' ->
idsMatch seen st ->
numberedOk seen (flat_map parseLine lines) = true ->
idsMatch (seenAfter seen (flat_map parseLine lines)) st'.
Proof.
induction lines as [|line lines IH]; intros seen st st' H Hi Hn.
- simpl in H. injection H as <-. unfold seenAfter. simpl. now rewrite orb_false_r.
- simpl in H, Hn |- *. apply bind_Ok in H as ([] & st1 & Hl & H).
  rewrite numberedOk_app in Hn. apply andb_true_iff in Hn as [Hn1 Hn2].
  rewrite seenAfter_app. eapply IH; eauto.
  unfold processLine in Hl. destruct (parseLine line) as [|r rs] eqn:E.
  + pose proof (untagged_chapter_effect line st) as (H1 & H2 & H3).
    rewrite Hl in H1, H2, H3. simpl in H1, H2, H3.
    unfold idsMatch, seenAfter in *. simpl. rewrite orb_false_r. now rewrite H1, H2, H3.
  + eapply forEach_dispatch_idsMatch; eauto.
Qed.

Lemma processFile_idsMatch file st st' :
processFile file st = Ok tt st' ->
idsMatch false st ->
wellNumberedFile file = true ->
idsMatch false st'.
Proof.
destruct file as [filename fileContent]. unfold processFile, wellNumberedFile. simpl.
destruct (isUsfm filename); [|now intros [= <-]].
intros H Hi Hw. apply andb_true_iff in Hw as [Hn Hs].
apply bind_Ok in H as ([] & st1 & H1 & H).
apply bind_Ok in H as ([] & st2 & H2 & H).
injection H1 as <-.
pose proof (forEach_processLine_idsMatch _ false _ _ H2 Hi Hn) as Hi2.
unfold seenAfter, recordsOf in *. rewrite Hs in Hi2. simpl in Hi2.
destruct (cleanup_result st2) as (st3 & Hcl & Hcd & _).
rewrite H in Hcl. injection Hcl as <-.
assert (Hcodes : chapterCodes st' = chapterCodes st2).
{ clear -H. unfold cleanup in H. split_state st2. revert H. eval_engine.
  split_tests; intros [= <-]; reflexivity. }
unfold idsMatch in *. rewrite Hcd, Hcodes, fmap_app, app_nil_r. exact Hi2.
Qed.

Lemma forEach_processFile_idsMatch dir : forall st st',
forEach processFile dir st = Ok tt st' ->
idsMatch false st ->
Forall (fun file => wellNumberedFile file = true) dir ->
idsMatch false st'.
Proof.
induction dir as [|file dir IH]; intros st st' H Hi Hw.
- simpl in H. now injection H as <-.
- simpl in H. apply bind_Ok in H as ([] & st1 & Hf & H).
  inversion Hw; subst. eapply IH; eauto using processFile_idsMatch.
Qed.

Lemma ids_of_postprocessed info cd :
ChapterRecord.id <$> wrapped info (navigated cd) = ChapterRecord.id <$> cd.
Proof.
apply list_eq. intros i. unfold wrapped, navigated.
rewrite !list_lookup_fmap, list_lookup_imap. now destruct (cd !! i).
Qed.

Lemma markerFlags_app rs1 rs2 :
markerFlags (rs1 ++ rs2) = markerFlags rs1 ++ markerFlags rs2.
Proof.
induction rs1 as [|r rs1 IH]; simpl; [reflexivity|].
destruct (isChapterMarker r); simpl; now rewrite IH.
Qed.

(** The records pushed while [rs] is dispatched are those [pushedIds]
    gives: what is pushed from the state before, with the flags of [rs] and
    the ids recorded on the way in front, is what is pushed from the state
    after with the rest. *)
Lemma forEach_dispatch_pushedIds rs : forall st st',
forEach dispatch rs st = Ok tt st' ->
exists codes,
  chapterCodes st' = chapterCodes st ++ codes /\
  length codes = length (markerFlags rs) /\
  forall flags' codes',
    (ChapterRecord.id <$> chapterData st)
    ++ pushedIds (Chapter.id (chapter st)) (markerFlags rs ++ flags') (codes ++ codes')
    = (ChapterRecord.id <$> chapterData st')
      ++ pushedIds (Chapter.id (chapter st')) flags' codes'.
Proof.
induction rs as [|r rs IH]; intros st st' H; simpl in H.
- injection H as <-. exists []. rewrite app_nil_r. auto.
- apply bind_Ok in H as ([] & st1 & Hd & H).
  destruct (IH _ _ H) as (codes & Hc & Hl & Hp).
  pose proof (dispatch_chapter_effect r st) as (Hm & Hnm & Hf & Hnf).
  rewrite Hd in Hm, Hnm, Hf, Hnf. simpl in Hm, Hnm, Hf, Hnf.
  simpl. destruct (isChapterMarker r) eqn:Em.
  + exists (Chapter.id (chapter st1) :: codes).
    split; [rewrite Hc, Hm by reflexivity; now rewrite <- app_assoc|].
    split; [simpl; now rewrite Hl|].
    intros flags' codes'. simpl. rewrite <- Hp.
    destruct (flushes r) eqn:Ef.
    * destruct (Hf eq_refl) as (record & -> & Hid). rewrite fmap_app. simpl.
      rewrite Hid. now rewrite <- app_assoc.
    * now rewrite (Hnf eq_refl).
  + exists codes. destruct (Hnm eq_refl) as [Hcc Hid].
    assert (Hfl : flushes r = false) by (unfold flushes; now rewrite Em).
    split; [now rewrite Hc, Hcc|]. split; [exact Hl|].
    intros flags' codes'. rewrite <- Hp, Hid, (Hnf Hfl). reflexivity.
Qed.

Lemma forEach_processLine_pushedIds lines : forall st st',
forEach processLine lines st = Ok tt st' ->
exists codes,
  chapterCodes st' = chapterCodes st ++ codes /\
  length codes = length (markerFlags (flat_map parseLine lines)) /\
  forall flags' codes',
    (ChapterRecord.id <$> chapterData st)
    ++ pushedIds (Chapter.id (chapter st))
                 (markerFlags (flat_map parseLine lines) ++ flags') (codes ++ codes')
    = (ChapterRecord.id <$> chapterData st')
      ++ pushedIds (Chapter.id (chapter st')) flags' codes'.
Proof.
induction lines as [|line lines IH]; intros st st' H; simpl in H.
- injection H as <-. exists []. rewrite app_nil_r. auto.
- apply bind_Ok in H as ([] & st1 & Hl & H).
  destruct (IH _ _ H) as (codes2 & Hc2 & Hl2 & Hp2).
  assert (H1 : exists codes1,
             chapterCodes st1 = chapterCodes st ++ codes1 /\
             length codes1 = length (markerFlags (parseLine line)) /\
             forall flags' codes',
               (ChapterRecord.id <$> chapterData st)
               ++ pushedIds (Chapter.id (chapter st))
                            (markerFlags (parseLine line) ++ flags') (codes1 ++ codes')
               = (ChapterRecord.id <$> chapterData st1)
                 ++ pushedIds (Chapter.id (chapter st1)) flags' codes').
  { unfold processLine in Hl. destruct (parseLine line) as [|r rs] eqn:E.
    - pose proof (untagged_chapter_effect line st) as (Ha & Hb & Hd).
      rewrite Hl in Ha, Hb, Hd. simpl in Ha, Hb, Hd.
      exists []. rewrite app_nil_r, Ha, Hb, Hd. auto.
    - apply forEach_dispatch_pushedIds, Hl. }
  destruct H1 as (codes1 & Hc1 & Hl1 & Hp1).
  exists (codes1 ++ codes2). simpl.
  split; [now rewrite Hc2, Hc1, app_assoc|].
  split; [now rewrite markerFlags_app, !length_app, Hl1, Hl2|].
  intros flags' codes'. rewrite markerFlags_app, <- !app_assoc, Hp1. apply Hp2.
Qed.

Lemma processFile_pushedIds file st st' :
processFile file st = Ok tt st' ->
exists codes,
  chapterCodes st' = chapterCodes st ++ codes /\
  (ChapterRecord.id <$> chapterData st') =
    (ChapterRecord.id <$> chapterData st) ++ idsPushed [file] codes /\
  forall dir' codes', idsPushed (file :: dir') (codes ++ codes')
                      = idsPushed [file] codes ++ idsPushed dir' codes'.
Proof.
destruct file as [filename fileContent]. unfold processFile. simpl.
destruct (isUsfm filename) eqn:Eu.
- intros H. apply bind_Ok in H as ([] & st1 & H1 & H).
  apply bind_Ok in H as ([] & st2 & H2 & H). injection H1 as <-.
  destruct (forEach_processLine_pushedIds _ _ _ H2) as (codes & Hc & Hl & Hp).
  destruct (cleanup_result st2) as (st3 & Hcl & Hcd & _).
  rewrite H in Hcl. injection Hcl as <-.
  assert (Hcodes : chapterCodes st' = chapterCodes st2).
  { clear -H. unfold cleanup in H. split_state st2. revert H. eval_engine.
    split_tests; intros [= <-]; reflexivity. }
  exists codes. fold (recordsOf fileContent) in Hl, Hp.
  split; [rewrite Hcodes; exact Hc|].
  assert (Htake : forall rest, take (length (markerFlags (recordsOf fileContent))) (codes ++ rest)
                               = codes)
    by (intros rest; rewrite <- Hl; apply take_app_length).
  assert (Hdrop : forall rest, drop (length (markerFlags (recordsOf fileContent))) (codes ++ rest)
                               = rest)
    by (intros rest; rewrite <- Hl; apply drop_app_length).
  split.
  + rewrite Hcd, fmap_app. simpl.
    specialize (Hp [] []). rewrite !app_nil_r in Hp. simpl in Hp.
    rewrite <- Hp. rewrite app_nil_r.
    pose proof (Htake []) as Ht0. rewrite app_nil_r in Ht0. now rewrite Ht0.
  + intros dir' codes'. rewrite Htake, Hdrop.
    pose proof (Htake []) as Ht0. rewrite app_nil_r in Ht0. rewrite Ht0.
    now rewrite app_nil_r.
- intros [= <-]. exists []. rewrite !app_nil_r. auto.
Qed.

Lemma forEach_processFile_pushedIds dir : forall st st',
forEach processFile dir st = Ok tt st' ->
exists codes,
  chapterCodes st' = chapterCodes st ++ codes /\
  (ChapterRecord.id <$> chapterData st') =
    (ChapterRecord.id <$> chapterData st) ++ idsPushed dir codes.
Proof.
induction dir as [|file dir IH]; intros st st' H; simpl in H.
- injection H as <-. exists []. rewrite !app_nil_r. auto.
- apply bind_Ok in H as ([] & st1 & Hf & H).
  destruct (IH _ _ H) as (codes2 & Hc2 & Hi2).
  destruct (processFile_pushedIds _ _ _ Hf) as (codes1 & Hc1 & Hi1 & Hsplit).
  exists (codes1 ++ codes2).
  split; [now rewrite Hc2, Hc1, app_assoc|].
  rewrite Hi2, Hi1, Hsplit. now rewrite app_assoc.
Qed.

(** What the [c] case does, for every state. *)
Lemma dispatch_chapter_marker r st :
TagRecord.key r = "c" ->
let number := Js.parseInt (TagRecord.number r) in
let closed :=
  ((Chapter.html (chapter st) +:+ closing VerseBlock st) +:+ closing ListItemBlock st)
  +:+ closing TextBlock st in
exists st',
  dispatch r st = Ok tt st' /\
  Chapter.number (chapter st') = number /\
  Chapter.id (chapter st') = formatChapterCode (Book.dbsCode (book st)) number /\
  chapterCodes st' = chapterCodes st ++ [Chapter.id (chapter st')] /\
  (if Js.gt1 number
   then chapterData st' =
          chapterData st
          ++ [ChapterRecord.mk (Chapter.id (chapter st)) (Chapter.title (chapter st)) closed
                               JsUndefined JsUndefined]
        /\ Chapter.html (chapter st') = "" +:+ getChapterHeader (br st) (chapter st')
   else chapterData st' = chapterData st
        /\ Chapter.html (chapter st') = closed +:+ getChapterHeader (br st) (chapter st')).
Proof.
intros Hk. unfold dispatch, closing. rewrite Hk. change (classify "c") with CaseC. cbv iota.
split_state st. destruct currentChapter. eval_engine.
cbv [Chapter.set_html Chapter.set_header Chapter.set_id Chapter.set_number Chapter.set_title
     Chapter.html Chapter.header Chapter.id Chapter.number Chapter.title].
split_tests; eexists; (split; [reflexivity|]); cbn; auto 10.
Qed.

(** C1, as the code has it.  The [c] case pushes the chapter accumulated so
    far, and resets the accumulator before the header of the new chapter is
    appended, exactly when the number of the marker is above 1; the cleanup
    pushes one more record per file.  So the sequence returned holds, file
    after file in the order of the directory, one record per marker whose
    number is above 1, with the id of the chapter that stood before that
    marker, and one for the end of the file, while the sections hold one id
    per marker.  When every USFM file has a marker, the first marker of
    each file has a number that is not above 1 and each later one a number
    above 1, the ids of the records are the ids recorded at the markers, in
    the same order: one record per marker.  A file without a marker gives
    one record and no section. *)
Theorem chapter_records_follow_flushing_markers dir info createIndex st res st' :
generate dir info createIndex st = Ok res st' ->
length (RunResult.chapterData res) = sum_list_with recordsPushedBy dir /\
length (Info.sections (Run.info (st_run st'))) = sum_list_with markersIn dir /\
ChapterRecord.id <$> RunResult.chapterData res
  = idsPushed dir (Info.sections (Run.info (st_run st'))) /\
(Forall (fun file => wellNumberedFile file = true) dir ->
   ChapterRecord.id <$> RunResult.chapterData res = Info.sections (Run.info (st_run st'))) /\
(forall r st0,
   TagRecord.key r = "c" ->
   let number := Js.parseInt (TagRecord.number r) in
   let closed :=
     ((Chapter.html (chapter st0) +:+ closing VerseBlock st0) +:+ closing ListItemBlock st0)
     +:+ closing TextBlock st0 in
   exists st1,
     dispatch r st0 = Ok tt st1 /\
     Chapter.number (chapter st1) = number /\
     Chapter.id (chapter st1) = formatChapterCode (Book.dbsCode (book st0)) number /\
     chapterCodes st1 = chapterCodes st0 ++ [Chapter.id (chapter st1)] /\
     (if Js.gt1 number
      then chapterData st1 =
             chapterData st0
             ++ [ChapterRecord.mk (Chapter.id (chapter st0)) (Chapter.title (chapter st0))
                                  closed JsUndefined JsUndefined]
           /\ Chapter.html (chapter st1) = "" +:+ getChapterHeader (br st0) (chapter st1)
      else chapterData st1 = chapterData st0
           /\ Chapter.html (chapter st1) = closed +:+ getChapterHeader (br st0) (chapter st1))).
Proof.
intros Hg.
destruct (generate_chapterData _ _ _ _ _ _ Hg) as (ste & Ha & Hcd & _ & Hinfo).
unfold assemble in Ha.
apply bind_Ok in Ha as ([] & s1 & H1 & Ha). injection H1 as <-.
apply bind_Ok in Ha as ([] & s2 & H2 & Ha). injection H2 as <-.
apply bind_Ok in Ha as ([] & s3 & H3 & Ha). injection H3 as <-.
destruct (forEach_processFile_counts _ _ _ Ha) as [Hn Hm]. simpl in Hn, Hm.
assert (Hlen : length (RunResult.chapterData res) = length (chapterData ste))
  by (rewrite Hcd; unfold wrapped, navigated; now rewrite length_fmap, length_imap).
split; [now rewrite Hlen, Hn|].
split; [rewrite Hinfo; simpl; exact Hm|].
split.
{ destruct (forEach_processFile_pushedIds _ _ _ Ha) as (codes & Hc & Hi).
  simpl in Hc, Hi. rewrite Hcd, ids_of_postprocessed, Hinfo. simpl.
  change (Run.chapterCodes (st_run ste)) with (chapterCodes ste).
  now rewrite Hi, Hc. }
split; [|intros r st0; apply dispatch_chapter_marker].
intros Hw. rewrite Hcd, ids_of_postprocessed, Hinfo. simpl.
pose proof (forEach_processFile_idsMatch _ _ _ Ha eq_refl Hw) as Hi.
unfold idsMatch in Hi. now rewrite app_nil_r in Hi.
Qed.

End ChapterRecords.

Lemma chapter_records_follow_flushing_markers_witness :
exists res st',
  generate (C := Sample.collaborators) Sample.library Sample.info true initialState
    = Ok res st' /\
  Forall (fun file => wellNumberedFile (C := Sample.collaborators) file = true) Sample.library /\
  length (RunResult.chapterData res) = 3 /\
  ChapterRecord.id <$> RunResult.chapterData res = Info.sections (Run.info (st_run st')) /\
  Info.sections (Run.info (st_run st')) = [JsString "GEN1"; JsString "GEN2"; JsString "PS1"].
Proof.
eexists _, _.
split; [vm_compute; reflexivity|].
assert (Hw : Forall (fun file => wellNumberedFile (C := Sample.collaborators) file = true)
                    Sample.library)
  by (repeat constructor).
split; [exact Hw|].
destruct (chapter_records_follow_flushing_markers (C := Sample.collaborators)
            Sample.library Sample.info true initialState _ _ ltac:(vm_compute; reflexivity))
  as (Hlen & _ & _ & Hids & _).
split; [exact Hlen|]. split; [exact (Hids Hw)|]. reflexivity.
Defined.

(** Three files on which the records are not one per chapter marker.  In
    the first the only marker has number 2: the chapter accumulated before
    it, which has no id, is pushed, and two records come from one marker.
    In the second both markers have number 1: the second marker is not the
    first of its file, yet nothing is pushed at it, and one record comes
    from two markers.  The third is empty: the cleanup pushes one record,
    which has no id, and no marker was met. *)
Lemma one_record_per_marker_counterexample :
let file1 := Sample.lines ["\id GEN"; "\c 2"; "\v 1 Now the earth"] in
let file2 := Sample.lines ["\id GEN"; "\c 1"; "\v 1 In the beginning"; "\c 1"; "\v 1 again"] in
let file3 := "" in
count isChapterMarker (recordsOf (C := Sample.collaborators) file1) = 1 /\
match Sample.run [("01-GEN.usfm", file1)] false with
| Ok res _ => ChapterRecord.id <$> RunResult.chapterData res = [JsString ""; JsString "GEN2"]
| Throw _ _ => False
end /\
count isChapterMarker (recordsOf (C := Sample.collaborators) file2) = 2 /\
match Sample.run [("01-GEN.usfm", file2)] false with
| Ok res _ => ChapterRecord.id <$> RunResult.chapterData res = [JsString "GEN1"]
| Throw _ _ => False
end /\
count isChapterMarker (recordsOf (C := Sample.collaborators) file3) = 0 /\
match Sample.run [("01-GEN.usfm", file3)] false with
| Ok res st' =>
    ChapterRecord.id <$> RunResult.chapterData res = [JsString ""] /\
    Info.sections (Run.info (st_run st')) = []
| Throw _ _ => False
end.
Proof.
cbv zeta.
split; [vm_compute; reflexivity|].
split; [vm_compute; reflexivity|].
split; [vm_compute; reflexivity|].
split; [vm_compute; reflexivity|].
split; [vm_compute; reflexivity|].
vm_compute. split; reflexivity.
Qed.

(** * Further properties of the code *)

(** ** The utility functions *)

Lemma last_char_snoc (s : string) (a : ascii) : Js.last_char (s +:+ String a "") = Some a.
Proof.
induction s as [|b s IH]; [reflexivity|].
rewrite append_cons. cbn [Js.last_char]. rewrite IH.
destruct (s +:+ String a "") eqn:E; [|reflexivity].
destruct s; discriminate.
Qed.

Lemma drop_last_snoc (s : string) (a : ascii) : Js.drop_last (s +:+ String a "") = s.
Proof.
induction s as [|b s IH]; [reflexivity|].
rewrite append_cons. cbn [Js.drop_last]. rewrite IH.
destruct (s +:+ String a "") eqn:E; [|reflexivity].
destruct s; discriminate.
Qed.

Lemma last_char_Some (text : string) (a : ascii) :
Js.last_char text = Some a -> text = Js.drop_last text +:+ String a "".
Proof.
induction text as [|b text IH]; [discriminate|].
destruct text as [|b' text'].
- intros [= ->]. reflexivity.
- intros H. specialize (IH H). cbn [Js.drop_last]. rewrite append_cons. now f_equal.
Qed.

Lemma last_char_None (text : string) : Js.last_char text = None -> text = "".
Proof.
induction text as [|b text IH]; [reflexivity|].
destruct text as [|b' text']; [discriminate|].
intros H. specialize (IH H). discriminate.
Qed.

(** X1.  [stripPlural] removes exactly one final [s]: a text that ends in
    [s] loses that one character, and any other text, the empty one
    included, is returned as it is. *)
Theorem stripPlural_drops_one_final_s (text : string) :
(exists s, text = s +:+ "s" /\ stripPlural text = s) \/
((forall s, text <> s +:+ "s") /\ stripPlural text = text).
Proof.
unfold stripPlural. destruct (Js.last_char text) as [a|] eqn:E.
- destruct (Ascii.eqb a "s") eqn:Ea.
  + apply Ascii.eqb_eq in Ea. subst a. left. exists (Js.drop_last text).
    split; [apply last_char_Some, E | reflexivity].
  + right. split; [|reflexivity]. intros s ->.
    rewrite last_char_snoc in E. injection E as <-. discriminate.
- right. split; [|reflexivity]. intros s ->.
  rewrite last_char_snoc in E. discriminate.
Qed.

Lemma length_substring_to (n : nat) (s : string) :
String.length (Js.substring_to n s) = Nat.min n (String.length s).
Proof.
revert n. induction s as [|a s IH]; intros [|n]; simpl; try reflexivity.
now rewrite IH.
Qed.

Lemma filter_chars_substring_to (p : ascii -> bool) (n : nat) (s : string) :
Js.filter_chars p (Js.substring_to n (Js.filter_chars p s))
= Js.substring_to n (Js.filter_chars p s).
Proof.
revert n. induction s as [|a s IH]; intros n; simpl.
- destruct n; reflexivity.
- destruct (p a) eqn:E; [|apply IH].
  destruct n; simpl; [reflexivity|]. now rewrite E, IH.
Qed.

Lemma remove_whitespace_blank (w : string) :
allWhitespace w = true -> Js.remove_whitespace w = "".
Proof.
unfold Js.remove_whitespace. induction w as [|a w IH]; [reflexivity|].
simpl. intros H. apply andb_true_iff in H as [Ha Hw]. rewrite Ha. simpl. now apply IH.
Qed.

Lemma remove_whitespace_visible (w : string) (c : ascii) (rest : string) :
allWhitespace w = true -> Js.is_whitespace c = false ->
Js.remove_whitespace (w +:+ String c rest) = String c (Js.remove_whitespace rest).
Proof.
unfold Js.remove_whitespace. intros Hw Hc. induction w as [|a w IH].
- change ("" +:+ String c rest) with (String c rest). simpl. now rewrite Hc.
- simpl in Hw. apply andb_true_iff in Hw as [Ha Hw]. rewrite append_cons. simpl.
  rewrite Ha. simpl. now apply IH.
Qed.

(** A text is blank or has a first visible character. *)
Lemma first_visible (s : string) :
allWhitespace s = true \/
exists w c rest,
  s = w +:+ String c rest /\ allWhitespace w = true /\ Js.is_whitespace c = false.
Proof.
induction s as [|a s IH]; [now left|].
destruct (Js.is_whitespace a) eqn:Ha.
- destruct IH as [IH | (w & c & rest & -> & Hw & Hc)].
  + left. simpl. now rewrite Ha.
  + right. exists (String a w), c, rest. split; [reflexivity|]. split; [|exact Hc].
    simpl. now rewrite Ha.
- right. exists "", a, s. split; [reflexivity|]. split; [reflexivity | exact Ha].
Qed.

(** X2.  An abbreviation is made of the first three characters of the name
    that are not whitespace, in their order, whatever whitespace lies
    before and between them; a name with fewer such characters is
    abbreviated to all of them, a blank name to the empty text.  So an
    abbreviation contains no whitespace and has at most three characters. *)
Theorem abbreviate_three_visible_characters (text : string) :
((exists w0 c1 w1 c2 w2 c3 rest,
    text = w0 +:+ String c1 (w1 +:+ String c2 (w2 +:+ String c3 rest)) /\
    allWhitespace w0 = true /\ allWhitespace w1 = true /\ allWhitespace w2 = true /\
    Js.is_whitespace c1 = false /\ Js.is_whitespace c2 = false /\
    Js.is_whitespace c3 = false /\
    abbreviate text = String c1 (String c2 (String c3 ""))) \/
 (exists w0 c1 w1 c2 w2,
    text = w0 +:+ String c1 (w1 +:+ String c2 w2) /\
    allWhitespace w0 = true /\ allWhitespace w1 = true /\ allWhitespace w2 = true /\
    Js.is_whitespace c1 = false /\ Js.is_whitespace c2 = false /\
    abbreviate text = String c1 (String c2 "")) \/
 (exists w0 c1 w1,
    text = w0 +:+ String c1 w1 /\
    allWhitespace w0 = true /\ allWhitespace w1 = true /\
    Js.is_whitespace c1 = false /\
    abbreviate text = String c1 "") \/
 (allWhitespace text = true /\ abbreviate text = "")) /\
Js.remove_whitespace (abbreviate text) = abbreviate text /\
String.length (abbreviate text) = Nat.min 3 (String.length (Js.remove_whitespace text)).
Proof.
split; [|split; [apply filter_chars_substring_to | apply length_substring_to]].
unfold abbreviate.
destruct (first_visible text) as [H0 | (w0 & c1 & r1 & -> & H0 & Hc1)].
{ right. right. right. split; [exact H0|]. now rewrite remove_whitespace_blank. }
rewrite (remove_whitespace_visible _ _ _ H0 Hc1).
destruct (first_visible r1) as [H1 | (w1 & c2 & r2 & -> & H1 & Hc2)].
{ right. right. left. exists w0, c1, r1. rewrite (remove_whitespace_blank _ H1). auto 10. }
rewrite (remove_whitespace_visible _ _ _ H1 Hc2).
destruct (first_visible r2) as [H2 | (w2 & c3 & r3 & -> & H2 & Hc3)].
{ right. left. exists w0, c1, w1, c2, r2. rewrite (remove_whitespace_blank _ H2). auto 12. }
rewrite (remove_whitespace_visible _ _ _ H2 Hc3).
left. exists w0, c1, w1, c2, w2, c3, r3. simpl. auto 14.
Qed.

Lemma prefix_empty (s : string) : String.prefix "" s = true.
Proof. destruct s; reflexivity. Qed.

Lemma indexOf_char_None (c : ascii) (s : string) :
hasChar c s = false -> Js.indexOf (String c "") s = None.
Proof.
unfold Js.indexOf. induction s as [|a s IH]; [reflexivity|].
cbn [hasChar String.index String.prefix]. intros H.
apply orb_false_iff in H as [Ha Hs].
destruct (ascii_dec c a) as [->|_]; [rewrite Ascii.eqb_refl in Ha; discriminate|].
now rewrite (IH Hs).
Qed.

Lemma indexOf_char_Some (c : ascii) (a rest : string) :
hasChar c a = false -> Js.indexOf (String c "") (a +:+ String c rest) = Some (String.length a).
Proof.
unfold Js.indexOf. induction a as [|b a IH].
- intros _. change ("" +:+ String c rest) with (String c rest).
  cbn [String.index String.prefix].
  destruct (ascii_dec c c) as [_|N]; [|congruence]. now rewrite prefix_empty.
- cbn [hasChar]. intros H. apply orb_false_iff in H as [Hb Ha].
  rewrite append_cons. cbn [String.index String.prefix].
  destruct (ascii_dec c b) as [->|_]; [rewrite Ascii.eqb_refl in Hb; discriminate|].
  now rewrite (IH Ha).
Qed.

Lemma substring_from_append (a rest : string) :
Js.substring_from (String.length a) (a +:+ rest) = rest.
Proof.
induction a as [|b a IH]; [destruct rest; reflexivity|].
rewrite append_cons. exact IH.
Qed.

Lemma hasChar_split (c : ascii) (s : string) :
hasChar c s = true ->
exists a rest, s = a +:+ String c rest /\ hasChar c a = false.
Proof.
induction s as [|b s IH]; [discriminate|].
cbn [hasChar]. destruct (Ascii.eqb b c) eqn:E.
- apply Ascii.eqb_eq in E. subst b. intros _. exists "", s. split; reflexivity.
- simpl. intros H. destruct (IH H) as (a & rest & -> & Ha).
  exists (String b a), rest. split; [reflexivity|]. cbn [hasChar]. now rewrite E, Ha.
Qed.

(** X3.  [stripCaller] returns what follows the first space of the text,
    whatever the length of the caller before it; a text without a space is
    returned whole, caller included. *)
Theorem stripCaller_cuts_at_first_space (text : string) :
(exists caller rest,
   text = caller +:+ " " +:+ rest /\ hasChar " " caller = false /\ stripCaller text = rest) \/
(hasChar " " text = false /\ stripCaller text = text).
Proof.
destruct (hasChar " " text) eqn:E.
- left. destruct (hasChar_split _ _ E) as (caller & rest & -> & Hc).
  exists caller, rest. split; [reflexivity|]. split; [exact Hc|].
  unfold stripCaller. change (caller +:+ " " +:+ rest) with (caller +:+ String " " rest).
  rewrite (indexOf_char_Some " " caller rest Hc).
  replace (String.length caller + 1) with (String.length (caller +:+ " "))
    by (clear; induction caller as [|b a IH]; [reflexivity|]; rewrite append_cons; simpl; lia).
  rewrite <- (substring_from_append (caller +:+ " ") rest) at 2.
  now rewrite append_assoc.
- right. split; [reflexivity|]. unfold stripCaller.
  now rewrite (indexOf_char_None " " text E).
Qed.

(** ** Whole runs *)

Section Runs.
Context `{C : Collaborators}.

Lemma generate_steps dir info createIndex st :
generate dir info createIndex st
= (beginRun dir info createIndex ;; forEach runStep (stepsOf dir) ;; postprocess ;; gets result)
    st.
Proof.
rewrite generate_phases. unfold bind at 1. rewrite assemble_steps.
unfold bind, beginRun, modify. reflexivity.
Qed.

Lemma preserves_forEach_in {A} (P : State -> Prop) (body : A -> M unit) (l : list A) :
(forall x, x ∈ l -> preserves P (body x)) -> preserves P (forEach body l).
Proof.
induction l as [|x l IH]; intros Hb; simpl.
- apply preserves_ret.
- apply preserves_bind; [apply Hb; left|].
  intros _. apply IH. intros y Hy. apply Hb. now right.
Qed.

Lemma elem_of_stepsOfLine r line :
StepDispatch r ∈ stepsOfLine line <-> r ∈ parseLine line.
Proof.
unfold stepsOfLine. destruct (parseLine line) as [|r0 rs].
- split; intros H; [|inversion H].
  apply list_elem_of_singleton in H. discriminate.
- rewrite list_elem_of_fmap. split.
  + intros (y & [= ->] & Hy). exact Hy.
  + intros H. eauto.
Qed.

Lemma elem_of_flat_map {A B} (f : A -> list B) (l : list A) (y : B) :
y ∈ flat_map f l <-> exists x, x ∈ l /\ y ∈ f x.
Proof.
rewrite list_elem_of_In, in_flat_map. split; intros (x & Hx & Hy); exists x.
- now rewrite !list_elem_of_In.
- now rewrite <- !list_elem_of_In.
Qed.

Lemma elem_of_stepsOf r dir : StepDispatch r ∈ stepsOf dir <-> r ∈ dispatched dir.
Proof.
unfold stepsOf, dispatched. rewrite !elem_of_flat_map.
split; intros (file & Hf & H); exists file; (split; [exact Hf|]).
- unfold stepsOfFile in H. destruct (isUsfm (fst file)); [|inversion H].
  apply elem_of_cons in H as [H|H]; [discriminate|].
  apply elem_of_app in H as [H|H].
  + unfold recordsOf. apply elem_of_flat_map in H as (line & Hl & H).
    apply elem_of_flat_map. exists line. split; [exact Hl|]. now apply elem_of_stepsOfLine.
  + apply list_elem_of_singleton in H. discriminate.
- unfold stepsOfFile. destruct (isUsfm (fst file)); [|inversion H].
  right. apply elem_of_app. left.
  unfold recordsOf in H. apply elem_of_flat_map in H as (line & Hl & H).
  apply elem_of_flat_map. exists line. split; [exact Hl|]. now apply elem_of_stepsOfLine.
Qed.

(** *** The registry of unparsed tags *)

Lemma key_in_elem_of k l : key_in k l = true <-> k ∈ l.
Proof.
unfold key_in. rewrite existsb_exists. split.
- intros (x & Hx & E). apply String.eqb_eq in E. subst x. now apply list_elem_of_In.
- intros H. exists k. split; [now apply list_elem_of_In | apply String.eqb_refl].
Qed.

Lemma unrecognised_spec k : unrecognised k = true <-> classify k = CaseDefault /\ k <> "".
Proof.
unfold unrecognised. destruct (classify k); try (split; [discriminate | intros [? _]; discriminate]).
rewrite negb_true_iff. split.
- intros H. split; [reflexivity|]. intros ->. discriminate.
- intros [_ H]. now apply String.eqb_neq.
Qed.

Lemma dispatch_unparsedTags r st k :
k ∈ unparsedTags (outcome_state (dispatch r st)) <->
k ∈ unparsedTags st \/ (k = TagRecord.key r /\ unrecognised k = true).
Proof.
unfold unrecognised, dispatch. destruct r as [key number text]. cbn [TagRecord.key TagRecord.text].
destruct (classify key) eqn:E;
  try (split_state st; eval_engine; split_tests;
       (split; [auto | intros [H|[-> H]]; [exact H | rewrite E in H; discriminate]])).
split_state st. eval_engine.
destruct (String.eqb_spec key "") as [->|Hne]; cbn.
- split; [auto | intros [H|[-> H]]; [exact H | rewrite E in H; discriminate]].
- match goal with |- context [key_in key ?l] => destruct (key_in key l) eqn:Ek end; cbn.
  + apply key_in_elem_of in Ek. split; [auto|]. intros [H|[-> _]]; assumption.
  + rewrite elem_of_app, list_elem_of_singleton. split.
    * intros [H | ->]; [now left | right]. split; [reflexivity|]. rewrite E.
      apply negb_true_iff. now apply String.eqb_neq.
    * intros [H|[-> _]]; auto.
Qed.

Lemma dispatch_unparsedTags_NoDup r :
preserves (fun st => NoDup (unparsedTags st)) (dispatch r).
Proof.
intros st. unfold dispatch. destruct r as [key number text].
cbn [TagRecord.key TagRecord.text].
destruct (classify key) eqn:E;
  try (split_state st; eval_engine; split_tests; cbn; intros H; exact H).
split_state st. eval_engine.
destruct (negb (String.eqb key "")); cbn; [|auto].
match goal with |- context [key_in key ?l] => destruct (key_in key l) eqn:Ek end; cbn; [auto|].
intros H. apply NoDup_app. split; [exact H|]. split; [|apply NoDup_singleton].
intros x Hx Hx'. apply list_elem_of_singleton in Hx'. subst x.
apply key_in_elem_of in Hx. congruence.
Qed.

(** A step other than a dispatch leaves the registry alone. *)
Lemma runStep_unparsedTags s st :
(forall r, s <> StepDispatch r) ->
unparsedTags (outcome_state (runStep s st)) = unparsedTags st.
Proof.
destruct s as [|r|line|]; intros Hs; simpl.
- reflexivity.
- now destruct (Hs r).
- split_state st. eval_engine. split_tests; reflexivity.
- unfold cleanup. split_state st. eval_engine. split_tests; reflexivity.
Qed.

End Runs.

Section RunProperties.
Context `{C : Collaborators}.

Lemma beginRun_result dir info createIndex st :
exists st0,
  beginRun dir info createIndex st = Ok tt st0 /\
  st_run st0 = Run.set_aboutHtml (getAboutContent dir) (Run.fresh info createIndex) /\
  st_unit st0 = st_unit st /\
  st_module st0 = Module_.add_effect (StartProgress (length dir) "Books") (st_module st).
Proof. eexists. split; [reflexivity|]. auto. Qed.

Lemma generate_Ok dir info createIndex st res st' :
generate dir info createIndex st = Ok res st' ->
exists st0 ste,
  beginRun dir info createIndex st = Ok tt st0 /\
  forEach runStep (stepsOf dir) st0 = Ok tt ste /\
  postprocess ste = Ok tt st' /\
  res = result st'.
Proof.
rewrite generate_steps. intros H.
apply bind_Ok in H as ([] & st0 & H0 & H).
apply bind_Ok in H as ([] & ste & He & H).
apply bind_Ok in H as ([] & stp & Hp & H).
unfold gets in H. injection H as <- <-. eauto 10.
Qed.

Lemma runStep_Ok_state s st st1 : runStep s st = Ok tt st1 -> st1 = outcome_state (runStep s st).
Proof. now intros ->. Qed.

Lemma steps_unparsedTags steps st st' k :
forEach runStep steps st = Ok tt st' ->
(k ∈ unparsedTags st' <->
 k ∈ unparsedTags st \/
 exists r, StepDispatch r ∈ steps /\ TagRecord.key r = k /\ unrecognised k = true).
Proof.
revert st. induction steps as [|s steps IH]; intros st H; simpl in H.
- injection H as <-. split; [auto|]. intros [H|(r & Hr & _)]; [exact H | inversion Hr].
- apply bind_Ok in H as ([] & st1 & H1 & H). rewrite (IH _ H). clear IH H.
  apply runStep_Ok_state in H1. subst st1.
  destruct s as [|r0|line|].
  + rewrite runStep_unparsedTags by discriminate. split.
    * intros [H|(r & Hr & H)]; [now left | right; exists r; split; [now right | exact H]].
    * intros [H|(r & Hr & H)]; [now left | right; exists r]. split; [|exact H].
      apply elem_of_cons in Hr as [Hr|Hr]; [discriminate | exact Hr].
  + simpl. rewrite dispatch_unparsedTags. split.
    * intros [[H|[-> H]]|(r & Hr & H)]; [now left | right; exists r0 | right; exists r].
      -- split; [left | auto].
      -- split; [now right | exact H].
    * intros [H|(r & Hr & <- & H)]; [now left; left|].
      apply elem_of_cons in Hr as [[= ->]|Hr]; [left; right; auto | right; eauto].
  + rewrite runStep_unparsedTags by discriminate. split.
    * intros [H|(r & Hr & H)]; [now left | right; exists r; split; [now right | exact H]].
    * intros [H|(r & Hr & H)]; [now left | right; exists r]. split; [|exact H].
      apply elem_of_cons in Hr as [Hr|Hr]; [discriminate | exact Hr].
  + rewrite runStep_unparsedTags by discriminate. split.
    * intros [H|(r & Hr & H)]; [now left | right; exists r; split; [now right | exact H]].
    * intros [H|(r & Hr & H)]; [now left | right; exists r]. split; [|exact H].
      apply elem_of_cons in Hr as [Hr|Hr]; [discriminate | exact Hr].
Qed.

(** X4.  After a call of [generate] that returns, the registry of unparsed
    tags holds the keys it held before the call and the keys of the records
    of the USFM files of the directory that no case of the switch names,
    the empty key apart, and nothing else. *)
Theorem registry_holds_unrecognised_keys dir info createIndex st res st' k :
generate dir info createIndex st = Ok res st' ->
(k ∈ unparsedTags st' <->
 k ∈ unparsedTags st \/
 exists r, r ∈ dispatched dir /\ TagRecord.key r = k /\ unrecognised k = true).
Proof.
intros H. apply generate_Ok in H as (st0 & ste & H0 & He & Hp & _).
destruct (postprocess_result ste) as (stp & Hp' & _ & _ & _ & _ & Ht & _).
rewrite Hp in Hp'. injection Hp' as <-. rewrite Ht.
rewrite (steps_unparsedTags _ _ _ k He).
destruct (beginRun_result dir info createIndex st) as (st0' & H0' & _ & _ & Hm).
rewrite H0 in H0'. injection H0' as <-.
assert (Hu : unparsedTags st0 = unparsedTags st) by (unfold unparsedTags; now rewrite Hm).
rewrite Hu. split; (intros [H|(r & Hr & H)]; [now left | right; exists r]);
  (split; [now apply elem_of_stepsOf | exact H]).
Qed.

Lemma generate_registry_invariant (P : list string -> Prop) :
(forall r, preserves (fun st => P (unparsedTags st)) (dispatch r)) ->
forall dir info createIndex,
  preserves (fun st => P (unparsedTags st)) (generate dir info createIndex).
Proof.
intros Hd dir info createIndex st HP. rewrite generate_steps. revert st HP.
change (preserves (fun st => P (unparsedTags st))
          (beginRun dir info createIndex ;; forEach runStep (stepsOf dir) ;; postprocess ;;
           gets result)).
apply preserves_bind; [intros st H; exact H | intros _].
apply preserves_bind; [|intros _].
- apply preserves_forEach. intros s st H.
  destruct s as [|r|line|]; [| apply Hd, H | |];
    rewrite runStep_unparsedTags by discriminate; exact H.
- apply preserves_bind; [|intros _; apply preserves_gets].
  intros st H. destruct (postprocess_result st) as (stp & -> & _ & _ & _ & _ & Ht & _).
  simpl. now rewrite Ht.
Qed.

(** X5.  The registry of unparsed tags never holds a key twice: a registry
    without duplicates is without duplicates after a call of [generate],
    whether the call returns or throws. *)
Theorem registry_has_no_duplicates dir info createIndex st :
NoDup (unparsedTags st) ->
NoDup (unparsedTags (outcome_state (generate dir info createIndex st))).
Proof.
apply (generate_registry_invariant (fun l => NoDup l) dispatch_unparsedTags_NoDup).
Qed.

End RunProperties.

Section RunFrame.
Context `{C : Collaborators}.

Lemma classify_v k : classify k = CaseV -> k = "v".
Proof.
destruct (String.eqb_spec k "v") as [->|Hne]; [reflexivity|].
apply String.eqb_neq in Hne. unfold classify. rewrite Hne.
repeat match goal with |- context [if ?b then _ else _] => destruct b end; discriminate.
Qed.

Lemma runStep_frame s st : frame (outcome_state (runStep s st)) = frame st.
Proof.
unfold frame. destruct s as [|r|line|]; simpl.
- reflexivity.
- dispatch_cases r st; reflexivity.
- split_state st. eval_engine. split_tests; reflexivity.
- unfold cleanup. split_state st. eval_engine. split_tests; reflexivity.
Qed.

Lemma steps_frame steps st : frame (outcome_state (forEach runStep steps st)) = frame st.
Proof.
apply (preserves_forEach (fun s => frame s = frame st) runStep steps); [|reflexivity].
intros s st1 H. now rewrite runStep_frame.
Qed.

Lemma runStep_indexData s st :
exists l,
  indexData (outcome_state (runStep s st)) = indexData st ++ l /\
  (l = [] \/ (indexable st = true /\ l = [pendingCall st])).
Proof.
destruct s as [|r|line|]; simpl.
- exists []. rewrite app_nil_r. auto.
- assert (classify (TagRecord.key r) = CaseV \/ classify (TagRecord.key r) <> CaseV)
    as [E|E] by (destruct (classify (TagRecord.key r)); auto; right; discriminate).
  + apply classify_v in E. destruct (dispatch_v r st E) as (st' & -> & _ & _ & Hi & _).
    simpl. rewrite Hi. eexists. split; [reflexivity|].
    destruct (indexable st); auto.
  + destruct (dispatch_other_keeps_verse r st E) as [_ ->].
    exists []. rewrite app_nil_r. auto.
- exists []. rewrite app_nil_r. split; [|auto].
  split_state st. eval_engine. split_tests; reflexivity.
- destruct (cleanup_result st) as (st' & -> & _ & _ & Hi & _).
  simpl. rewrite Hi. eexists. split; [reflexivity|].
  destruct (indexable st); auto.
Qed.

Lemma pendingCall_wellFormed st :
indexable st = true ->
wellFormedCall (Run.info (st_run st)) (pendingCall st) /\ Run.createIndex (st_run st) = true.
Proof.
unfold indexable, pendingCall, wellFormedCall. simpl.
rewrite !andb_true_iff, !negb_true_iff. intros [[Hc Ht] Hi].
apply String.eqb_neq in Ht. apply bool_decide_eq_false in Hi. auto.
Qed.

Lemma steps_indexData info createIndex steps st :
Run.info (st_run st) = info ->
Run.createIndex (st_run st) = createIndex ->
Forall (wellFormedCall info) (indexData st) ->
(createIndex = false -> indexData st = []) ->
Forall (wellFormedCall info) (indexData (outcome_state (forEach runStep steps st))) /\
(createIndex = false -> indexData (outcome_state (forEach runStep steps st)) = []).
Proof.
intros Hi Hc Hf Hn.
apply (preserves_forEach
         (fun s => frame s = frame st /\ Forall (wellFormedCall info) (indexData s) /\
                   (createIndex = false -> indexData s = []))
         runStep steps); [|auto].
clear Hf Hn. intros s st1 (Hfr & Hf & Hn).
split; [now rewrite runStep_frame|].
destruct (runStep_indexData s st1) as (l & -> & [-> | [Hx ->]]).
- rewrite app_nil_r. auto.
- apply pendingCall_wellFormed in Hx as [Hw Hci].
  assert (E1 : Run.info (st_run st1) = info) by (injection Hfr; congruence).
  assert (E2 : Run.createIndex (st_run st1) = createIndex) by (injection Hfr; congruence).
  rewrite E1 in Hw. split.
  + apply Forall_app. split; [exact Hf | now constructor].
  + intros E. congruence.
Qed.

(** X6.  In the data [generate] returns, every submission to the verse
    indexer carries a verse text that is not empty, a verse id that is not
    null and the language of the [info] passed to the call; when
    [createIndex] is false there is no submission at all. *)
Theorem index_submissions_are_well_formed dir info createIndex st res st' :
generate dir info createIndex st = Ok res st' ->
Forall (wellFormedCall info) (RunResult.indexData res) /\
(createIndex = false -> RunResult.indexData res = []).
Proof.
intros H. apply generate_Ok in H as (st0 & ste & H0 & He & Hp & ->).
destruct (postprocess_result ste) as (stp & Hp' & _ & Hix & _).
rewrite Hp in Hp'. injection Hp' as <-.
change (RunResult.indexData (result st')) with (indexData st'). rewrite Hix.
destruct (beginRun_result dir info createIndex st) as (st0' & H0' & Hr & _).
rewrite H0 in H0'. injection H0' as <-.
assert (Hs : ste = outcome_state (forEach runStep (stepsOf dir) st0)) by now rewrite He.
rewrite Hs. apply steps_indexData.
- now rewrite Hr.
- now rewrite Hr.
- unfold indexData. rewrite Hr. constructor.
- intros _. unfold indexData. now rewrite Hr.
Qed.

(** *** When a run returns *)

Lemma dispatch_returns r st : resolves r = true -> exists st', dispatch r st = Ok tt st'.
Proof.
unfold resolves, bookIdOf, dispatch.
destruct (classify (TagRecord.key r)); intros H;
  try (split_state st; eval_engine; split_tests; eexists; reflexivity).
destruct (getBookInfoByUsfmCode _) as [[code name [|n ns]]|]; try discriminate.
eexists. reflexivity.
Qed.

Lemma dispatch_throws r st : resolves r = false -> exists e st', dispatch r st = Throw e st'.
Proof.
unfold resolves, bookIdOf, dispatch.
destruct (classify (TagRecord.key r)); intros H; try discriminate.
destruct (getBookInfoByUsfmCode _) as [[code name [|n ns]]|]; try discriminate;
  eexists; eexists; reflexivity.
Qed.

Lemma runStep_returns s st :
(forall r, s = StepDispatch r -> resolves r = true) -> exists st', runStep s st = Ok tt st'.
Proof.
destruct s as [|r|line|]; intros H; simpl.
- eexists. reflexivity.
- apply dispatch_returns, H. reflexivity.
- split_state st. eval_engine. split_tests; eexists; reflexivity.
- destruct (cleanup_result st) as (st' & -> & _). eauto.
Qed.

Lemma steps_return steps st :
(forall r, StepDispatch r ∈ steps -> resolves r = true) ->
exists st', forEach runStep steps st = Ok tt st'.
Proof.
revert st. induction steps as [|s steps IH]; intros st H; simpl.
- eexists. reflexivity.
- destruct (runStep_returns s st) as (st1 & H1).
  { intros r ->. apply H. left. }
  rewrite (bind_Ok_intro _ _ _ _ _ H1). apply IH. intros r Hr. apply H. now right.
Qed.

Lemma steps_throw steps st r :
StepDispatch r ∈ steps -> resolves r = false ->
exists e st', forEach runStep steps st = Throw e st'.
Proof.
revert st. induction steps as [|s steps IH]; intros st Hr Hn; [inversion Hr|].
simpl. unfold bind. destruct (runStep s st) as [[] st1|e st1] eqn:E; [|eauto].
apply elem_of_cons in Hr as [<-|Hr]; [|now apply IH].
simpl in E. destruct (dispatch_throws r st Hn) as (e & st' & E'). congruence.
Qed.

(** X7.  [generate] returns exactly when every [id] record of the USFM
    files of the directory names a book of the book table that has an
    English name, and throws when one of them does not.  Nothing else in a
    run throws: not the other records, not the lines without records, not
    the cleanup and not the postprocessing. *)
Theorem generate_returns_iff_ids_resolve dir info createIndex st :
(exists res st', generate dir info createIndex st = Ok res st') <->
forallb resolves (dispatched dir) = true.
Proof.
rewrite forallb_forall. split.
- intros (res & st' & H) r Hr.
  apply generate_Ok in H as (st0 & ste & _ & He & _).
  destruct (resolves r) eqn:E; [reflexivity|].
  apply list_elem_of_In, elem_of_stepsOf in Hr.
  destruct (steps_throw _ st0 r Hr E) as (e & s & Ht). congruence.
- intros H. rewrite generate_steps.
  destruct (beginRun_result dir info createIndex st) as (st0 & H0 & _).
  rewrite (bind_Ok_intro _ _ _ _ _ H0).
  destruct (steps_return (stepsOf dir) st0) as (ste & He).
  { intros r Hr. apply H, list_elem_of_In, elem_of_stepsOf, Hr. }
  rewrite (bind_Ok_intro _ _ _ _ _ He).
  destruct (postprocess_result ste) as (stp & Hp & _).
  rewrite (bind_Ok_intro _ _ _ _ _ Hp). eexists. eexists. reflexivity.
Qed.

End RunFrame.

Section FileProperties.
Context `{C : Collaborators}.

Lemma processFile_usfm name content st st' :
isUsfm name = true ->
processFile (name, content) st = Ok tt st' ->
exists st1,
  forEach processLine (Js.split (ascii_of_nat 10) content) (on_unit (fun _ => Unit_.fresh) st)
  = Ok tt st1 /\
  cleanup st1 = Ok tt st'.
Proof.
intros Hu H. unfold processFile in H. rewrite Hu in H.
apply bind_Ok in H as ([] & s0 & H0 & H). injection H0 as <-.
apply bind_Ok in H as ([] & st1 & H1 & H). eauto.
Qed.

Lemma processFile_other name content st :
isUsfm name = false -> processFile (name, content) st = Ok tt st.
Proof. intros Hu. unfold processFile. now rewrite Hu. Qed.

Lemma usfmEntries_cons file dir :
usfmEntries (file :: dir)
= if isUsfm (fst file) then file :: usfmEntries dir else usfmEntries dir.
Proof.
unfold usfmEntries. rewrite filter_cons.
destruct (isUsfm (fst file)); [now rewrite decide_True | now rewrite decide_False].
Qed.

Lemma forEach_processFile_flags dir k : forall st st',
forEach processFile dir st = Ok tt st' ->
flag k st' = match usfmEntries dir with [] => flag k st | _ :: _ => false end.
Proof.
induction dir as [|[name content] dir IH]; intros st st' H; cbn [forEach] in H.
- now injection H as <-.
- apply bind_Ok in H as ([] & st1 & Hf & H). rewrite (IH _ _ H), usfmEntries_cons. simpl.
  destruct (isUsfm name) eqn:Hu.
  + apply (processFile_usfm _ _ _ _ Hu) in Hf as (s1 & _ & Hc).
    destruct (cleanup_result s1) as (s2 & Hc' & _ & _ & _ & Hfl & _).
    rewrite Hc in Hc'. injection Hc' as <-. rewrite Hfl. now destruct (usfmEntries dir).
  + rewrite (processFile_other _ _ _ Hu) in Hf. now injection Hf as <-.
Qed.

(** X8.  When [generate] returns from a directory with a USFM file, none of
    the four block flags is set: the cleanup of the last file has closed
    what was open.  [generate] itself never resets the flags, so from a
    directory without a USFM file they come back as they went in. *)
Theorem run_leaves_no_block_open dir info createIndex st res st' k :
generate dir info createIndex st = Ok res st' ->
flag k st' = match usfmEntries dir with [] => flag k st | _ :: _ => false end.
Proof.
intros H. rewrite generate_phases in H.
apply bind_Ok in H as ([] & ste & Ha & H).
apply bind_Ok in H as ([] & stp & Hp & H).
unfold gets in H. injection H as _ <-.
destruct (postprocess_result ste) as (stp' & Hp' & _ & _ & _ & _ & _ & _ & Hfl).
rewrite Hp in Hp'. injection Hp' as <-. rewrite Hfl.
unfold assemble in Ha.
apply bind_Ok in Ha as ([] & s1 & H1 & Ha). injection H1 as <-.
apply bind_Ok in Ha as ([] & s2 & H2 & Ha). injection H2 as <-.
apply bind_Ok in Ha as ([] & s3 & H3 & Ha). injection H3 as <-.
now rewrite (forEach_processFile_flags _ k _ _ Ha).
Qed.

(** *** The numbers of the notes *)

Lemma dispatch_noteNumber r st st' :
dispatch r st = Ok tt st' ->
Unit_.noteNumber (st_unit st')
= (Unit_.noteNumber (st_unit st) + Z.of_nat (count isNoteOpen [r]))%Z.
Proof.
unfold isNoteOpen, count, dispatch.
destruct (classify (TagRecord.key r)); split_state st; eval_engine; split_tests;
  intros H; try discriminate; injection H as <-; cbn; lia.
Qed.

Lemma forEach_dispatch_noteNumber rs : forall st st',
forEach dispatch rs st = Ok tt st' ->
Unit_.noteNumber (st_unit st')
= (Unit_.noteNumber (st_unit st) + Z.of_nat (count isNoteOpen rs))%Z.
Proof.
induction rs as [|r rs IH]; intros st st' H; simpl in H.
- injection H as <-. simpl. lia.
- apply bind_Ok in H as ([] & st1 & Hd & H).
  rewrite (IH _ _ H), (dispatch_noteNumber _ _ _ Hd).
  change (r :: rs) with ([r] ++ rs). rewrite count_app. lia.
Qed.

Lemma processLine_noteNumber line st st' :
processLine line st = Ok tt st' ->
Unit_.noteNumber (st_unit st')
= (Unit_.noteNumber (st_unit st) + Z.of_nat (count isNoteOpen (parseLine line)))%Z.
Proof.
unfold processLine. destruct (parseLine line) as [|r rs] eqn:E.
- split_state st. eval_engine. split_tests; intros H; injection H as <-; cbn; lia.
- apply forEach_dispatch_noteNumber.
Qed.

Lemma forEach_processLine_noteNumber lines : forall st st',
forEach processLine lines st = Ok tt st' ->
Unit_.noteNumber (st_unit st')
= (Unit_.noteNumber (st_unit st) + Z.of_nat (count isNoteOpen (flat_map parseLine lines)))%Z.
Proof.
induction lines as [|line lines IH]; intros st st' H; simpl in H.
- injection H as <-. simpl. lia.
- apply bind_Ok in H as ([] & st1 & Hd & H).
  rewrite (IH _ _ H), (processLine_noteNumber _ _ _ Hd). simpl. rewrite count_app. lia.
Qed.

(** X9.  Notes are numbered from 1 in each USFM file, one number per [f] or
    [x] record: when a file has been handled, the number the next note
    would get is one more than the number of such records in the file,
    whatever the number stood at before the file. *)
Theorem notes_are_numbered_per_file file st st' :
isUsfm (fst file) = true ->
processFile file st = Ok tt st' ->
Unit_.noteNumber (st_unit st')
= (1 + Z.of_nat (count isNoteOpen (recordsOf (snd file))))%Z.
Proof.
destruct file as [name content]. simpl. intros Hu H.
apply (processFile_usfm _ _ _ _ Hu) in H as (st1 & Hl & Hc).
apply forEach_processLine_noteNumber in Hl. simpl in Hl. unfold recordsOf. rewrite <- Hl.
clear Hl. revert Hc. unfold cleanup. split_state st1. eval_engine.
split_tests; intros H; injection H as <-; reflexivity.
Qed.

End FileProperties.

Section RunOutputs.
Context `{C : Collaborators}.

(** X10.  The [aboutHtml] that [generate] returns is the content of
    [about.html] as the directory had it when the call began, or the empty
    string when the directory has no such file: no record and no step of the
    run writes to it. *)
Theorem about_html_is_returned_unchanged dir info createIndex st res st' :
generate dir info createIndex st = Ok res st' ->
RunResult.aboutHtml res = getAboutContent dir.
Proof.
intros H. apply generate_Ok in H as (st0 & ste & H0 & He & Hp & ->).
destruct (postprocess_result ste) as (stp & Hp' & _ & _ & Hab & _).
rewrite Hp in Hp'. injection Hp' as <-.
change (RunResult.aboutHtml (result st')) with (Run.aboutHtml (st_run st')). rewrite Hab.
pose proof (steps_frame (stepsOf dir) st0) as Hfr. rewrite He in Hfr. simpl in Hfr.
destruct (beginRun_result dir info createIndex st) as (st0' & H0' & Hr & _).
rewrite H0 in H0'. injection H0' as <-.
injection Hfr as _ _ -> _ _ _. now rewrite Hr.
Qed.

Lemma postprocess_module st :
exists st',
  postprocess st = Ok tt st' /\
  st_module st' =
    (if Module_.outputUnparsedTags (st_module st)
     then Module_.add_effect (ConsoleLog (unparsedTagsLine (unparsedTags st))) (st_module st)
     else st_module st).
Proof.
unfold postprocess.
set (st1 := on_run (fun r => Run.set_info (completeInfo r) r) st).
assert (H1 : modify (on_run (fun r => Run.set_info (completeInfo r) r)) st = Ok tt st1)
  by reflexivity.
rewrite (bind_Ok_intro _ _ _ _ _ H1).
rewrite (bind_Ok_intro _ _ _ _ _ (addChapterNavigation_navigated st1)).
set (st2 := withChapterData (navigated (chapterData st1)) st1).
assert (H3 : (let* info := gets (fun st => Run.info (st_run st)) in
              wrapChapterHtmlElements info) st2
             = Ok tt (withChapterData
                        (wrapped (Run.info (st_run st2)) (chapterData st2)) st2)).
{ unfold bind at 1, gets. rewrite wrapChapterHtmlElements_wrapped. reflexivity. }
rewrite (bind_Ok_intro _ _ _ _ _ H3).
unfold outputFinalComments, bind, gets, when, modify, ret, unparsedTagsLine.
subst st2 st1. split_state st. cbn.
destruct outputUnparsedTags; eexists; (split; [reflexivity|]); reflexivity.
Qed.

(** X11.  A call of [generate] that returns has made exactly one call of
    [startProgress], whose total is the number of all entries of the
    directory, USFM files or not, and then, when [outputUnparsedTags] is
    set, has printed one line with the whole registry of unparsed tags, the
    keys of earlier calls included. *)
Theorem run_reports_progress_and_unparsed_tags dir info createIndex st res st' :
generate dir info createIndex st = Ok res st' ->
Module_.effects (st_module st')
= Module_.effects (st_module st)
  ++ StartProgress (length dir) "Books"
     :: (if Module_.outputUnparsedTags (st_module st)
         then [ConsoleLog (unparsedTagsLine (unparsedTags st'))]
         else []).
Proof.
intros H. apply generate_Ok in H as (st0 & ste & H0 & He & Hp & _).
destruct (postprocess_module ste) as (stp & Hp' & Hm).
rewrite Hp in Hp'. injection Hp' as <-.
pose proof (steps_frame (stepsOf dir) st0) as Hfr. rewrite He in Hfr. simpl in Hfr.
destruct (beginRun_result dir info createIndex st) as (st0' & H0' & _ & _ & Hm0).
rewrite H0 in H0'. injection H0' as <-.
injection Hfr as _ _ _ He1 He2 _.
unfold unparsedTags. rewrite Hm, He2, Hm0. cbn [Module_.add_effect Module_.outputUnparsedTags].
destruct (Module_.outputUnparsedTags (st_module st)).
- cbn [Module_.add_effect Module_.effects Module_.unparsedTags]. rewrite He1, Hm0.
  cbn [Module_.add_effect Module_.effects]. now rewrite <- app_assoc.
- rewrite He1, Hm0. reflexivity.
Qed.

Lemma processLine_divisions line st :
divisionsOf (outcome_state (processLine line st)) = divisionsOf st.
Proof.
unfold processLine. destruct (parseLine line) as [|r rs].
- unfold divisionsOf. split_state st. eval_engine. split_tests; reflexivity.
- apply (preserves_forEach (fun s => divisionsOf s = divisionsOf st) dispatch (r :: rs));
    [|reflexivity].
  intros r' st1 <-. unfold divisionsOf. dispatch_cases r' st1; reflexivity.
Qed.

Lemma processFile_divisions file st st' :
processFile file st = Ok tt st' ->
divisionsOf st' =
  if isUsfm (fst file)
  then (Run.bookCodes (st_run st) ++ [Book.dbsCode (book st')],
        Run.bookNames (st_run st) ++ [Book.name (book st')],
        Run.bookAbbreviations (st_run st) ++ [Book.abbreviation (book st')])
  else divisionsOf st.
Proof.
destruct file as [name content]. cbn [fst]. intros H. destruct (isUsfm name) eqn:Hu.
- apply (processFile_usfm _ _ _ _ Hu) in H as (st1 & Hl & Hc).
  assert (Hd : divisionsOf st1 = divisionsOf st).
  { replace st1 with (outcome_state
      (forEach processLine (Js.split (ascii_of_nat 10) content)
                           (on_unit (fun _ => Unit_.fresh) st))) by now rewrite Hl.
    apply (preserves_forEach (fun s => divisionsOf s = divisionsOf st) processLine);
      [|reflexivity].
    intros line s <-. apply processLine_divisions. }
  revert Hc Hd. unfold cleanup, divisionsOf. split_state st1. split_state st. eval_engine.
  split_tests; intros H; injection H as <-; cbn; intros [= -> -> ->]; reflexivity.
- rewrite (processFile_other _ _ _ Hu) in H. now injection H as <-.
Qed.

Lemma forEach_processFile_divisions dir : forall st st',
forEach processFile dir st = Ok tt st' ->
length (Run.bookCodes (st_run st')) = length (Run.bookCodes (st_run st)) + length (usfmEntries dir) /\
length (Run.bookNames (st_run st')) = length (Run.bookNames (st_run st)) + length (usfmEntries dir) /\
length (Run.bookAbbreviations (st_run st'))
= length (Run.bookAbbreviations (st_run st)) + length (usfmEntries dir).
Proof.
induction dir as [|file dir IH]; intros st st' H; cbn [forEach] in H.
- injection H as <-. simpl. lia.
- apply bind_Ok in H as ([] & st1 & Hf & H).
  destruct (IH _ _ H) as (I1 & I2 & I3). rewrite I1, I2, I3. clear IH I1 I2 I3 H.
  apply processFile_divisions in Hf. rewrite usfmEntries_cons.
  unfold divisionsOf in Hf. destruct (isUsfm (fst file)); injection Hf as -> -> ->;
    rewrite ?length_app; simpl; lia.
Qed.

(** X12.  When [generate] returns, the [info] object has the type [bible]
    and the language it came with, and its lists of divisions, division
    names and division abbreviations have one entry per USFM file of the
    directory, whatever the file contains. *)
Theorem info_lists_one_division_per_file dir info createIndex st res st' :
generate dir info createIndex st = Ok res st' ->
Info.type (Run.info (st_run st')) = JsString "bible" /\
Info.lang (Run.info (st_run st')) = Info.lang info /\
length (Info.divisions (Run.info (st_run st'))) = length (usfmEntries dir) /\
length (Info.divisionNames (Run.info (st_run st'))) = length (usfmEntries dir) /\
length (Info.divisionAbbreviations (Run.info (st_run st'))) = length (usfmEntries dir).
Proof.
intros H. destruct (generate_chapterData _ _ _ _ _ _ H) as (ste & Ha & _ & _ & ->).
assert (Hfr : frame ste
              = frame (outcome_state (beginRun dir info createIndex st))).
{ pose proof Ha as Hs. rewrite assemble_steps in Hs.
  apply bind_Ok in Hs as ([] & st0 & H0 & Hs). rewrite H0. simpl.
  pose proof (steps_frame (stepsOf dir) st0) as Hfr. now rewrite Hs in Hfr. }
injection Hfr as Hi _ _ _ _ _. simpl in Hi.
unfold assemble in Ha.
apply bind_Ok in Ha as ([] & s1 & H1 & Ha). injection H1 as <-.
apply bind_Ok in Ha as ([] & s2 & H2 & Ha). injection H2 as <-.
apply bind_Ok in Ha as ([] & s3 & H3 & Ha). injection H3 as <-.
destruct (forEach_processFile_divisions _ _ _ Ha) as (L1 & L2 & L3).
simpl in L1, L2, L3. unfold completeInfo. simpl. rewrite Hi. auto.
Qed.

End RunOutputs.

(** ** What each group of markers closes *)

Ltac solve_notin :=
let H := fresh in
intros H; cbn in H;
repeat (apply elem_of_cons in H as [H|H]; [discriminate|]); inversion H.

Ltac solve_events :=
rewrite <- ?app_assoc; eexists; split; [reflexivity|]; solve_notin.

Section MarkerGroups.
Context `{C : Collaborators}.

Lemma classify_closing_keys key :
key_in key ("b" :: "c" :: headingKeys) = true ->
classify key = CaseB \/ classify key = CaseC \/ classify key = CaseHeading.
Proof.
intros H. apply key_in_elem_of in H.
repeat (apply elem_of_cons in H as [->|H]; [vm_compute; auto|]). inversion H.
Qed.

Lemma classify_paragraph_keys key :
key_in key (paragraphKeys ++ listItemKeys) = true ->
(key_in key paragraphKeys = true /\ classify key = CaseParagraph) \/
(key_in key paragraphKeys = false /\ classify key = CaseListItem).
Proof.
intros H. apply key_in_elem_of in H.
repeat (apply elem_of_cons in H as [->|H]; [vm_compute; auto|]). inversion H.
Qed.

(** X13.  A break, a chapter marker and a heading close the verse, the
    list item and the text block, in that order, and open nothing: the
    block events they append are the closings of those of the three that
    were open.  None of them closes a note: the footnote flag is after
    them what it was before. *)
Theorem break_chapter_heading_close_blocks_but_not_notes r st :
key_in (TagRecord.key r) ("b" :: "c" :: headingKeys) = true ->
let st' := outcome_state (dispatch r st) in
flag VerseBlock st' = false /\ flag ListItemBlock st' = false /\ flag TextBlock st' = false /\
flag FootnoteBlock st' = flag FootnoteBlock st /\
emitted st' =
  emitted st ++ closingEvent VerseBlock st ++ closingEvent ListItemBlock st
  ++ closingEvent TextBlock st.
Proof.
intros H. apply classify_closing_keys in H. unfold dispatch, closingEvent.
destruct H as [-> | [-> | ->]]; split_state st; eval_engine;
  destruct verseBlockOpen, listItemBlockOpen, textBlockOpen; cbn; split_tests;
  rewrite <- ?app_assoc, ?app_nil_r; auto.
Qed.

(** X14.  A paragraph marker closes the verse and the text block but not
    a list item, and a list-item marker closes the verse and the list item
    but not a text block: the flag of the other block is left as it was and
    no closing of that block is appended, so an open list item stays open
    under a paragraph and an open paragraph under a list item. *)
Theorem paragraph_and_list_item_leave_the_other_open r st :
key_in (TagRecord.key r) (paragraphKeys ++ listItemKeys) = true ->
let st' := outcome_state (dispatch r st) in
let other := blockLeftOpen (TagRecord.key r) in
flag other st' = flag other st /\
exists evs, emitted st' = emitted st ++ evs /\ Closed other ∉ evs.
Proof.
intros H. apply classify_paragraph_keys in H. unfold dispatch, blockLeftOpen.
destruct H as [[-> ->] | [-> ->]]; split_state st; eval_engine; split_tests;
  (split; [reflexivity|]); solve_events.
Qed.

(** *** A file without an [id] record *)






End MarkerGroups.

(** *** Evaluation of the properties of runs *)

Lemma registry_holds_unrecognised_keys_witness :
exists res st',
  generate (C := Sample.collaborators) Sample2.unknownTags Sample.info false initialState
    = Ok res st' /\
  "zz" ∈ unparsedTags st' /\ "yy" ∈ unparsedTags st' /\ "c" ∉ unparsedTags st'.
Proof.
eexists _, _. split; [vm_compute; reflexivity|].
pose proof (fun k => registry_holds_unrecognised_keys (C := Sample.collaborators)
              Sample2.unknownTags Sample.info false initialState _ _ k
              ltac:(vm_compute; reflexivity)) as H.
split; [|split].
- apply H. right. exists (TagRecord.mk "zz" JsUndefined "unknown").
  split; [|split; reflexivity]. apply list_elem_of_In. vm_compute. tauto.
- apply H. right. exists (TagRecord.mk "yy" JsUndefined "other").
  split; [|split; reflexivity]. apply list_elem_of_In. vm_compute. tauto.
- intros Hc. apply H in Hc as [Hc | (r & _ & _ & Hu)]; [inversion Hc | discriminate Hu].
Defined.

Lemma registry_has_no_duplicates_witness :
NoDup (unparsedTags initialState) /\
NoDup (unparsedTags
         (outcome_state (generate (C := Sample.collaborators) Sample2.unknownTags Sample.info
                                  false initialState))).
Proof.
assert (H0 : NoDup (unparsedTags initialState)) by apply NoDup_nil_2.
split; [exact H0|].
exact (registry_has_no_duplicates (C := Sample.collaborators) Sample2.unknownTags Sample.info
         false initialState H0).
Defined.

Lemma index_submissions_are_well_formed_witness :
exists res st',
  generate (C := Sample.collaborators) Sample.library Sample.info true initialState
    = Ok res st' /\
  length (RunResult.indexData res) = 3 /\
  Forall (wellFormedCall Sample.info) (RunResult.indexData res).
Proof.
eexists _, _. split; [vm_compute; reflexivity|]. split; [reflexivity|].
exact (proj1 (index_submissions_are_well_formed (C := Sample.collaborators)
                Sample.library Sample.info true initialState _ _
                ltac:(vm_compute; reflexivity))).
Defined.

Lemma run_leaves_no_block_open_witness :
exists res st',
  generate (C := Sample.collaborators) Sample.library Sample.info true Sample2.noteOpen
    = Ok res st' /\
  flag FootnoteBlock Sample2.noteOpen = true /\
  flag FootnoteBlock st' = false.
Proof.
eexists _, _. split; [vm_compute; reflexivity|]. split; [reflexivity|].
exact (run_leaves_no_block_open (C := Sample.collaborators)
         Sample.library Sample.info true Sample2.noteOpen _ _ FootnoteBlock
         ltac:(vm_compute; reflexivity)).
Defined.

Lemma notes_are_numbered_per_file_witness :
exists st',
  isUsfm (fst Sample2.notes) = true /\
  processFile (C := Sample.collaborators) Sample2.notes Sample2.noteOpen = Ok tt st' /\
  Unit_.noteNumber (st_unit Sample2.noteOpen) = 2%Z /\
  Unit_.noteNumber (st_unit st') = 4%Z.
Proof.
eexists. split; [reflexivity|]. split; [vm_compute; reflexivity|]. split; [reflexivity|].
exact (notes_are_numbered_per_file (C := Sample.collaborators) Sample2.notes Sample2.noteOpen _
         ltac:(reflexivity) ltac:(vm_compute; reflexivity)).
Defined.

Lemma about_html_is_returned_unchanged_witness :
exists res st',
  generate (C := Sample.collaborators) Sample.library Sample.info true initialState
    = Ok res st' /\
  RunResult.aboutHtml res = "<p>About</p>".
Proof.
eexists _, _. split; [vm_compute; reflexivity|].
exact (about_html_is_returned_unchanged (C := Sample.collaborators)
         Sample.library Sample.info true initialState _ _ ltac:(vm_compute; reflexivity)).
Defined.

Lemma run_reports_progress_and_unparsed_tags_witness :
exists res st',
  generate (C := Sample.collaborators) Sample2.unknownTags Sample.info false initialState
    = Ok res st' /\
  Module_.effects (st_module st')
  = [StartProgress 1 "Books"; ConsoleLog "Unparsed USFM Tags: [ zz,yy ]"].
Proof.
eexists _, _. split; [vm_compute; reflexivity|].
exact (run_reports_progress_and_unparsed_tags (C := Sample.collaborators)
         Sample2.unknownTags Sample.info false initialState _ _
         ltac:(vm_compute; reflexivity)).
Defined.

Lemma info_lists_one_division_per_file_witness :
exists res st',
  generate (C := Sample.collaborators) Sample.library Sample.info true initialState
    = Ok res st' /\
  length Sample.library = 3 /\
  length (Info.divisions (Run.info (st_run st'))) = 2 /\
  Info.type (Run.info (st_run st')) = JsString "bible".
Proof.
eexists _, _. split; [vm_compute; reflexivity|]. split; [reflexivity|].
destruct (info_lists_one_division_per_file (C := Sample.collaborators)
            Sample.library Sample.info true initialState _ _
            ltac:(vm_compute; reflexivity)) as (Ht & _ & Hd & _).
split; [exact Hd | exact Ht].
Defined.

Lemma break_chapter_heading_close_blocks_but_not_notes_witness :
let r := TagRecord.mk "c" (JsString "2") "" in
let st' := outcome_state (dispatch (C := Sample.collaborators) r Sample2.noteOpen) in
key_in (TagRecord.key r) ("b" :: "c" :: headingKeys) = true /\
flag VerseBlock Sample2.noteOpen = true /\ flag FootnoteBlock Sample2.noteOpen = true /\
flag VerseBlock st' = false /\ flag FootnoteBlock st' = true.
Proof.
intros r st'. split; [reflexivity|]. split; [reflexivity|]. split; [reflexivity|].
destruct (break_chapter_heading_close_blocks_but_not_notes (C := Sample.collaborators)
            r Sample2.noteOpen ltac:(reflexivity)) as (Hv & _ & _ & Hf & _).
split; [exact Hv | exact Hf].
Defined.

Lemma paragraph_and_list_item_leave_the_other_open_witness :
let r := TagRecord.mk "p" JsUndefined "" in
let st' := outcome_state (dispatch (C := Sample.collaborators) r Sample2.listItemOpen) in
key_in (TagRecord.key r) (paragraphKeys ++ listItemKeys) = true /\
flag ListItemBlock Sample2.listItemOpen = true /\
flag ListItemBlock st' = true /\ flag TextBlock st' = true.
Proof.
intros r st'. split; [reflexivity|]. split; [reflexivity|].
split; [|reflexivity].
exact (proj1 (paragraph_and_list_item_leave_the_other_open (C := Sample.collaborators)
                r Sample2.listItemOpen ltac:(reflexivity))).
Defined.


(** ** The catalog reader *)

Lemma addEvents_nil s : addEvents [] s = s.
Proof. destruct s. unfold addEvents. simpl. now rewrite app_nil_r. Qed.

Lemma addEvents_app l1 l2 s : addEvents l2 (addEvents l1 s) = addEvents (l1 ++ l2) s.
Proof. unfold addEvents. simpl. now rewrite app_assoc. Qed.

Lemma grab_bind_Ok {A B} (m : Grab.G A) (k : A -> Grab.G B) s b s2 :
Grab.bind m k s = Grab.Ok b s2 ->
exists a s1, m s = Grab.Ok a s1 /\ k a s1 = Grab.Ok b s2.
Proof. unfold Grab.bind. destruct (m s) as [a s1|e s1]; [eauto | discriminate]. Qed.

Lemma grab_bind_Ok_intro {A B} (m : Grab.G A) (k : A -> Grab.G B) s a s1 :
m s = Grab.Ok a s1 -> Grab.bind m k s = k a s1.
Proof. unfold Grab.bind. now intros ->. Qed.

Lemma grab_bind_Throw_intro {A B} (m : Grab.G A) (k : A -> Grab.G B) s e s1 :
m s = Grab.Throw e s1 -> Grab.bind m k s = Grab.Throw e s1.
Proof. unfold Grab.bind. now intros ->. Qed.

Lemma keeps_bind {A B} (P : GrabState.t -> Prop) (m : Grab.G A) (k : A -> Grab.G B) :
keeps P m -> (forall a, keeps P (k a)) -> keeps P (Grab.bind m k).
Proof.
intros Hm Hk s H. unfold Grab.bind. specialize (Hm s H).
destruct (m s) as [a s1|e s1]; simpl in *; [apply Hk, Hm | exact Hm].
Qed.

Lemma keeps_forEach {A} (P : GrabState.t -> Prop) (body : A -> Grab.G unit) (l : list A) :
(forall x, keeps P (body x)) -> keeps P (Grab.forEach body l).
Proof.
intros Hb. induction l as [|x l IH]; simpl.
- intros s H. exact H.
- apply keeps_bind; [apply Hb | intros _; exact IH].
Qed.

Lemma display_result msg isError s :
Grab.display msg isError s = Grab.Ok tt (addEvents (shown s msg isError) s).
Proof.
unfold Grab.display, shown, Grab.bind, Grab.gets, Grab.emit, Grab.ret.
destruct (GrabState.silenceNotification s) eqn:E.
- now rewrite addEvents_nil.
- destruct isError; reflexivity.
Qed.

Lemma length_filter_count {A} (p : A -> bool) (l : list A) :
length (List.filter p l) = count p l.
Proof. induction l as [|x l IH]; simpl; [reflexivity|]. destruct (p x); simpl; lia. Qed.

Lemma getLanguageData_result code s :
exists found,
  Grab.getLanguageData code s = Grab.Ok found s /\
  (forall lang, found = Some lang ->
     lang ∈ GrabState.languageData s /\ Language.lc lang = code) /\
  (found = None <-> languageKnown s code = false).
Proof.
unfold Grab.getLanguageData, Grab.bind, Grab.gets, languageKnown, knownIn.
rewrite <- length_filter_count.
destruct (List.filter _ _) as [|x [|y l]] eqn:E.
- exists None. split; [reflexivity|]. split; [discriminate|]. split; reflexivity.
- exists (Some x). split; [reflexivity|]. split; [|split; discriminate].
  intros lang [= <-].
  assert (Hin : In x (List.filter (fun lang => String.eqb (Language.lc lang) code)
                                  (GrabState.languageData s)))
    by (rewrite E; now left).
  apply filter_In in Hin as [Hin Hc]. split; [now apply list_elem_of_In|].
  now apply String.eqb_eq.
- exists None. split; [reflexivity|]. split; [discriminate|]. split; reflexivity.
Qed.

(** X16.  The language of a code is found only when exactly one entry of
    the language list carries the code: the lookup then answers that entry,
    and it answers null when no entry or more than one entry carries it, so
    that a language listed twice is treated as unknown.  The lookup changes
    nothing. *)
Theorem language_lookup_needs_exactly_one_entry code s :
exists found,
  Grab.getLanguageData code s = Grab.Ok found s /\
  (forall lang, found = Some lang ->
     lang ∈ GrabState.languageData s /\ Language.lc lang = code) /\
  (found = None <->
   count (fun lang => String.eqb (Language.lc lang) code) (GrabState.languageData s) <> 1).
Proof.
destruct (getLanguageData_result code s) as (found & H & Hs & Hn).
exists found. split; [exact H|]. split; [exact Hs|].
rewrite Hn. unfold languageKnown, knownIn. apply Nat.eqb_neq.
Qed.

Lemma first_field_char (c : ascii) (a b : string) :
hasChar c a = false -> Js.first_field c (a +:+ String c b) = a.
Proof.
unfold Js.first_field. induction a as [|x a IH].
- intros _. change ("" +:+ String c b) with (String c b). cbn [Js.split].
  now rewrite Ascii.eqb_refl.
- cbn [hasChar]. intros H. apply orb_false_iff in H as [Hx Ha].
  rewrite append_cons. cbn [Js.split]. rewrite Hx. specialize (IH Ha).
  destruct (Js.split c (a +:+ String c b)) as [|w ws]; now subst.
Qed.

Lemma first_field_none (c : ascii) (s : string) :
hasChar c s = false -> Js.first_field c s = s.
Proof.
unfold Js.first_field. induction s as [|x s IH]; [reflexivity|].
cbn [hasChar]. intros H. apply orb_false_iff in H as [Hx Hs].
cbn [Js.split]. rewrite Hx. specialize (IH Hs).
destruct (Js.split c s) as [|w ws]; [now subst | now subst].
Qed.

(** X17.  The language code a catalog language is looked up with, and that
    goes into the id of its versions, is the text before the first dash of
    its [lc], and the whole [lc] when it has no dash. *)
Theorem language_code_is_text_before_first_dash (lc : string) :
(exists a b,
   lc = a +:+ "-" +:+ b /\ hasChar "-" a = false /\ Grab.languageCode lc = a) \/
(hasChar "-" lc = false /\ Grab.languageCode lc = lc).
Proof.
unfold Grab.languageCode. destruct (hasChar "-" lc) eqn:E.
- left. destruct (hasChar_split _ _ E) as (a & b & -> & Ha). exists a, b.
  split; [reflexivity|]. split; [exact Ha|].
  rewrite (indexOf_char_Some "-" a b Ha). now apply first_field_char.
- right. split; [reflexivity|]. now rewrite (indexOf_char_None "-" lc E).
Qed.

Section GrabProperties.
Context `{L : GrabLibraries}.

Lemma getFiles_from (toc : list TocEntry.t) (files : list JsVal) :
fold_left (fun files entry => files ++ [TocEntry.src entry]) toc files
= files ++ (TocEntry.src <$> toc).
Proof.
revert files. induction toc as [|entry toc IH]; intros files; simpl.
- now rewrite app_nil_r.
- rewrite IH. now rewrite <- app_assoc.
Qed.

Lemma getFiles_result (toc : option (list TocEntry.t)) s :
match toc with
| Some entries => Grab.getFiles toc s = Grab.Ok (TocEntry.src <$> entries) s
| None => exists e, Grab.getFiles toc s = Grab.Throw e s
end.
Proof.
destruct toc as [entries|]; simpl.
- unfold Grab.ret. f_equal. apply getFiles_from.
- eexists. reflexivity.
Qed.

Lemma createAboutFile_result version s :
match Version.status version with
| Some _ => exists content, Grab.createAboutFile version s = Grab.Ok content s
| None => exists e, Grab.createAboutFile version s = Grab.Throw e s
end.
Proof.
unfold Grab.createAboutFile. destruct (Version.status version); eexists; reflexivity.
Qed.

(** The body of the inner loop returns on a complete version and throws on
    any other; it never changes the state. *)
Lemma makeBible_result code lang version s :
if complete version
then exists bible,
       Grab.makeBible code lang version s = Grab.Ok bible s /\
       (Language.lc lang = code -> bibleFor lang code version bible)
else exists e, Grab.makeBible code lang version s = Grab.Throw e s.
Proof.
unfold complete, Grab.makeBible, bibleFor.
pose proof (createAboutFile_result version s) as Ha.
pose proof (getFiles_result (Version.toc version) s) as Hf.
destruct (Version.status version) as [status|].
- destruct Ha as (content & Ha). rewrite (grab_bind_Ok_intro _ _ _ _ _ Ha).
  destruct (Version.slug version) as [slug|].
  + destruct (Version.toc version) as [toc|].
    * rewrite (grab_bind_Ok_intro _ _ _ _ _ Hf). eexists. split; [reflexivity|]. simpl.
      intros Hc. split; [exact Hc|]. split; [exists slug; auto|].
      do 7 (split; [reflexivity|]). exists toc. auto.
    * destruct Hf as (e & Hf). rewrite (grab_bind_Throw_intro _ _ _ _ _ Hf). eauto.
  + destruct (Version.toc version); eexists; reflexivity.
- destruct Ha as (e & Ha). rewrite (grab_bind_Throw_intro _ _ _ _ _ Ha).
  destruct (Version.slug version), (Version.toc version); eauto.
Qed.

Lemma makeBibles_returns code lang versions : forall acc s,
forallb complete versions = true ->
exists made,
  Grab.makeBibles code lang versions acc s = Grab.Ok (acc ++ made) s /\
  Forall2 (fun version bible =>
             Grab.makeBible code lang version s = Grab.Ok bible s) versions made.
Proof.
induction versions as [|version versions IH]; intros acc s H; simpl.
- exists []. rewrite app_nil_r. split; [reflexivity | constructor].
- simpl in H. apply andb_true_iff in H as [Hv Hvs].
  pose proof (makeBible_result code lang version s) as Hm. rewrite Hv in Hm.
  destruct Hm as (bible & Hm & _). rewrite (grab_bind_Ok_intro _ _ _ _ _ Hm).
  destruct (IH (acc ++ [bible]) s Hvs) as (made & -> & Hf).
  exists (bible :: made). rewrite <- app_assoc. split; [reflexivity|].
  constructor; assumption.
Qed.

Lemma makeBibles_throws code lang versions : forall acc s,
forallb complete versions = false ->
exists e, Grab.makeBibles code lang versions acc s = Grab.Throw e s.
Proof.
induction versions as [|version versions IH]; intros acc s H; simpl; [discriminate|].
simpl in H. pose proof (makeBible_result code lang version s) as Hm.
destruct (complete version).
- destruct Hm as (bible & Hm & _). rewrite (grab_bind_Ok_intro _ _ _ _ _ Hm).
  apply IH. exact H.
- destruct Hm as (e & Hm). rewrite (grab_bind_Throw_intro _ _ _ _ _ Hm). eauto.
Qed.

End GrabProperties.

Section GrabVersions.
Context `{L : GrabLibraries}.

Lemma makeBibles_made code lang versions s made :
Language.lc lang = code ->
lang ∈ GrabState.languageData s ->
Forall2 (fun version bible => Grab.makeBible code lang version s = Grab.Ok bible s)
        versions made ->
Forall2 (bibleOf s) ((fun version => (code, version)) <$> versions) made.
Proof.
intros Hc Hin H. induction H as [|version bible versions made Hm _ IH]; simpl.
- constructor.
- constructor; [|exact IH]. exists lang. split; [exact Hin|]. simpl.
  pose proof (makeBible_result code lang version s) as Hr.
  destruct (complete version).
  + destruct Hr as (bible' & Hr & Hrest). rewrite Hm in Hr. injection Hr as <-.
    now apply Hrest.
  + destruct Hr as (e & Hr). congruence.
Qed.

Lemma collectBibleVersions_result languages : forall acc s,
if forallb (describable s) languages
then exists made,
       Grab.collectBibleVersions languages acc s
       = Grab.Ok (acc ++ made) (addEvents (skippedLines s languages) s) /\
       Forall2 (bibleOf s) (versionsOf s languages) made
else exists e s', Grab.collectBibleVersions languages acc s = Grab.Throw e s'.
Proof.
induction languages as [|language languages IH]; intros acc s.
- simpl. exists []. rewrite app_nil_r, addEvents_nil. split; [reflexivity | constructor].
- unfold versionsOf, versionsIn.
  cbn [forallb Grab.collectBibleVersions skippedLines flat_map].
  fold (versionsIn (GrabState.languageData s) languages).
  fold (versionsOf s languages).
  unfold describable at 1.
  destruct (CatalogLanguage.lc language) as [lc|]; [|cbn [andb]; eauto].
  set (code := Grab.languageCode lc).
  destruct (getLanguageData_result code s) as (found & Hg & Hs & Hn).
  rewrite (grab_bind_Ok_intro _ _ _ _ _ Hg).
  fold (languageKnown s code).
  destruct found as [lang|].
  + assert (Hk : languageKnown s code = true).
    { destruct (languageKnown s code); [reflexivity|]. discriminate (proj2 Hn eq_refl). }
    rewrite Hk. destruct (Hs lang eq_refl) as [Hin Hc].
    destruct (CatalogLanguage.vers language) as [versions|]; [|cbn [andb]; eauto].
    destruct (forallb complete versions) eqn:Hv.
    * destruct (makeBibles_returns code lang _ acc s Hv) as (made & Hm & Hf).
      rewrite (grab_bind_Ok_intro _ _ _ _ _ Hm). cbn [andb].
      specialize (IH (acc ++ made) s).
      destruct (forallb (describable s) languages).
      -- destruct IH as (made' & -> & Hf'). exists (made ++ made').
         rewrite app_assoc. split; [reflexivity|].
         apply Forall2_app; [|exact Hf']. now apply (makeBibles_made code lang).
      -- exact IH.
    * destruct (makeBibles_throws code lang _ acc s Hv) as (e & Hm).
      rewrite (grab_bind_Throw_intro _ _ _ _ _ Hm). cbn [andb]. eauto.
  + rewrite (proj1 Hn eq_refl). cbn [andb].
    rewrite (grab_bind_Ok_intro _ _ _ _ _ (display_result _ true s)).
    set (s1 := addEvents _ s). specialize (IH acc s1).
    change (forallb (describable s1) languages) with (forallb (describable s) languages) in IH.
    destruct (forallb (describable s) languages); [|exact IH].
    destruct IH as (made & -> & Hf). exists made. split.
    * subst s1. now rewrite addEvents_app.
    * destruct (CatalogLanguage.vers language); exact Hf.
Qed.

(** X18.  [getBibleVersions] makes one object per version of each catalog
    language whose code is known, in the order of the catalog, and none for
    the other languages.  The [lang] of the object is the [lc] of the entry
    of the language list, which is the code the id is built from; the
    abbreviation is the upper case of the slug, for a slug without the two
    code units whose upper case lies beyond 255, and the files are the
    [src] of the entries of [toc], in order. *)
Theorem one_bible_per_version_of_a_known_language languages s bibles s' :
Grab.getBibleVersions languages s = Grab.Ok bibles s' ->
Forall2 (bibleOf s) (versionsOf s languages) bibles.
Proof.
unfold Grab.getBibleVersions. intros H.
pose proof (collectBibleVersions_result languages [] s) as Hr.
destruct (forallb (describable s) languages).
- destruct Hr as (made & Hr & Hf). rewrite H in Hr. injection Hr as -> _. exact Hf.
- destruct Hr as (e & s1 & Hr). congruence.
Qed.

(** X19.  [getBibleVersions] returns exactly when every catalog language
    has a code and every catalog language whose code is known has versions,
    each of them with a [status], a [slug] and a [toc]: the test that guards
    the reading of the checking level guards neither the about text, which
    reads the status, nor the abbreviation, which is a method call on the
    slug, nor the list of files, which reads the length of the table of
    contents.  The versions of a language whose code is not known are never
    reached. *)
Theorem incomplete_versions_stop_the_catalog languages s :
(exists bibles s', Grab.getBibleVersions languages s = Grab.Ok bibles s') <->
forallb (describable s) languages = true.
Proof.
unfold Grab.getBibleVersions.
pose proof (collectBibleVersions_result languages [] s) as Hr.
destruct (forallb (describable s) languages).
- destruct Hr as (made & Hr & _). split; [reflexivity|]. intros _. eauto.
- destruct Hr as (e & s1 & Hr). split; [|discriminate].
  intros (bibles & s' & H). congruence.
Qed.

(** X20.  Apart from what it returns, [getBibleVersions] only prints: it
    leaves the settings and the language list as they are and adds one
    error line per catalog language whose code is not known, or nothing at
    all when notifications are silenced. *)
Theorem unknown_languages_are_reported_and_skipped languages s bibles s' :
Grab.getBibleVersions languages s = Grab.Ok bibles s' ->
s' = addEvents (skippedLines s languages) s.
Proof.
unfold Grab.getBibleVersions. intros H.
pose proof (collectBibleVersions_result languages [] s) as Hr.
destruct (forallb (describable s) languages).
- destruct Hr as (made & Hr & Hf). rewrite H in Hr. now injection Hr as _ ->.
- destruct Hr as (e & s1 & Hr). congruence.
Qed.

End GrabVersions.

Section GrabCallbacks.
Context `{L : GrabLibraries}.

Lemma keeps_ret {A} (P : GrabState.t -> Prop) (a : A) : keeps P (Grab.ret a).
Proof. intros s H. exact H. Qed.

Lemma keeps_throw {A} (P : GrabState.t -> Prop) (e : string) : keeps P (Grab.throw (A := A) e).
Proof. intros s H. exact H. Qed.

Lemma keeps_gets {A} (P : GrabState.t -> Prop) (f : GrabState.t -> A) : keeps P (Grab.gets f).
Proof. intros s H. exact H. Qed.

Lemma makeBibles_state code lang versions : forall acc s,
Grab.outcome_state (Grab.makeBibles code lang versions acc s) = s.
Proof.
induction versions as [|version versions IH]; intros acc s; simpl; [reflexivity|].
pose proof (makeBible_result code lang version s) as Hm.
destruct (complete version).
- destruct Hm as (bible & Hm & _). rewrite (grab_bind_Ok_intro _ _ _ _ _ Hm). apply IH.
- destruct Hm as (e & Hm). now rewrite (grab_bind_Throw_intro _ _ _ _ _ Hm).
Qed.

Lemma keeps_getLanguageData (P : GrabState.t -> Prop) code : keeps P (Grab.getLanguageData code).
Proof. intros s H. now destruct (getLanguageData_result code s) as (found & -> & _). Qed.

Lemma collectBibleVersions_keeps (P : GrabState.t -> Prop) :
(forall msg isError, keeps P (Grab.display msg isError)) ->
forall languages acc, keeps P (Grab.collectBibleVersions languages acc).
Proof.
intros Hd. induction languages as [|language languages IH]; intros acc; simpl.
- apply keeps_ret.
- destruct (CatalogLanguage.lc language) as [lc|]; [|apply keeps_throw].
  apply keeps_bind; [apply keeps_getLanguageData|].
  intros [lang|].
  + destruct (CatalogLanguage.vers language) as [versions|]; [|apply keeps_throw].
    apply keeps_bind; [|intros bibles; apply IH].
    intros s H. now rewrite makeBibles_state.
  + apply keeps_bind; [apply Hd | intros _; apply IH].
Qed.

Lemma collectCategories_keeps (P : GrabState.t -> Prop) :
(forall msg isError, keeps P (Grab.display msg isError)) ->
forall cat acc, keeps P (Grab.collectCategories cat acc).
Proof.
intros Hd. induction cat as [|c cat IH]; intros acc; simpl.
- apply keeps_ret.
- destruct (Js.loose_eq_string (Category.slug c) "bible"); [|apply IH].
  destruct (Category.langs c) as [langs|]; [|apply keeps_throw].
  apply keeps_bind; [|intros versions; apply IH].
  now apply collectBibleVersions_keeps.
Qed.

(** The part of [process] that does not depend on the property kept. *)
Lemma process_keeps (P : GrabState.t -> Prop) delError languages catalog :
(forall msg isError, keeps P (Grab.display msg isError)) ->
(forall e,
   (exists url, e = Request url) \/ (exists pattern, e = Del pattern) \/
   (exists v, e = ConsoleValue v) ->
   keeps P (Grab.emit e)) ->
(forall l, keeps P (fun s => Grab.Ok tt (GrabState.set_languageData l s))) ->
keeps P (Grab.onCatalogResponse catalog Grab.downloadBibles) ->
keeps P (Grab.process delError languages catalog).
Proof.
intros Hd He Hl Hc. unfold Grab.process, Grab.prepareFolder, Grab.onFolderPrepared.
apply keeps_bind.
{ apply keeps_bind; [apply Hd | intros _].
  apply keeps_bind; [apply keeps_gets | intros dest]. apply He; eauto. }
intros _. destruct (Grab.truthy delError); [apply Hd|].
unfold Grab.downloadLanguageData, Grab.onLanguagesResponse.
apply keeps_bind.
{ apply keeps_bind; [apply keeps_gets | intros url].
  apply keeps_bind; [apply Hd | intros _]. apply He; eauto. }
intros _. destruct (Grab.truthy (Response.error languages)).
{ apply keeps_bind; [apply Hd | intros _]. apply He; eauto. }
destruct (negb _).
{ apply keeps_bind; [apply Hd | intros _]. apply Hd. }
destruct (parseLanguages _); [|apply keeps_throw].
apply keeps_bind; [apply Hl | intros _].
unfold Grab.getBibles.
apply keeps_bind; [|intros _; exact Hc].
apply keeps_bind; [apply keeps_gets | intros url].
apply keeps_bind; [apply Hd | intros _]. apply He; eauto.
Qed.

(** *** Silenced notifications *)

Lemma filter_isConsoleLine_emit e s :
isConsoleLine e = false ->
List.filter isConsoleLine (GrabState.events (GrabState.emit e s))
= List.filter isConsoleLine (GrabState.events s).
Proof.
intros He. simpl. rewrite List.filter_app. simpl. rewrite He. apply app_nil_r.
Qed.

(** X21.  With [silenceNotification] set, a whole run of [process] prints
    no line through [display], error lines included: neither an unknown
    language nor a failed clean-up nor a failed request of the language
    list is reported, whatever the answers of the environment are. *)
Theorem silenced_run_prints_no_line delError languages catalog s :
GrabState.silenceNotification s = true ->
List.filter isConsoleLine
  (GrabState.events (Grab.outcome_state (Grab.process delError languages catalog s)))
= List.filter isConsoleLine (GrabState.events s).
Proof.
intros Hs.
set (P := fun s' => GrabState.silenceNotification s' = true /\
                    List.filter isConsoleLine (GrabState.events s')
                    = List.filter isConsoleLine (GrabState.events s)).
assert (Hd : forall msg isError, keeps P (Grab.display msg isError)).
{ intros msg isError s1 [H1 H2]. rewrite display_result. unfold shown. rewrite H1.
  rewrite addEvents_nil. simpl. now split. }
assert (He : forall e, isConsoleLine e = false -> keeps P (Grab.emit e)).
{ intros e He s1 [H1 H2]. split; [exact H1|].
  unfold Grab.emit, Grab.outcome_state. now rewrite filter_isConsoleLine_emit. }
cut (P (Grab.outcome_state (Grab.process delError languages catalog s))); [now intros [_ H]|].
apply process_keeps; [exact Hd | | | | now split].
- intros e [(u & ->) | [(p & ->) | (v & ->)]]; now apply He.
- intros l s1 H. exact H.
- unfold Grab.onCatalogResponse.
  destruct (_ && _); [|apply keeps_throw].
  destruct (parseCatalog _); [|apply keeps_throw].
  apply keeps_bind; [now apply collectCategories_keeps|].
  intros bibles. unfold Grab.downloadBibles.
  apply keeps_bind; [apply Hd | intros _].
  apply keeps_forEach. intros bible. unfold Grab.downloadThisOne.
  apply keeps_bind; [apply keeps_gets | intros dest]. now apply He.
Qed.

(** *** The answers of the environment *)

(** X22.  When the clean-up of the input folder fails, [process] stops
    there without throwing: it has announced the clean-up, asked for the
    deletion of the directories that match [uw_*] under the destination
    folder, and reported the error; it makes no request and creates no
    directory. *)
Theorem failed_cleanup_stops_the_run delError languages catalog s :
Grab.truthy delError = true ->
Grab.process delError languages catalog s
= Grab.Ok tt
    (addEvents
       (shown s "Preparing the input folder." false
        ++ [Del (GrabState.destinationFolder s +:+ "/uw_*")]
        ++ shown s ("Unable to locate directories to clean up received error: "
                    +:+ Js.toString delError) true)
       s).
Proof.
intros Ht. unfold Grab.process, Grab.prepareFolder, Grab.onFolderPrepared.
rewrite Ht.
rewrite (grab_bind_Ok_intro _ _ _ tt
           (addEvents (shown s "Preparing the input folder." false
                       ++ [Del (GrabState.destinationFolder s +:+ "/uw_*")]) s)).
- rewrite display_result, addEvents_app. now rewrite <- app_assoc.
- rewrite (grab_bind_Ok_intro _ _ _ _ _ (display_result _ false s)).
  unfold Grab.bind, Grab.gets, Grab.emit. now rewrite <- addEvents_app.
Qed.

(** X23.  A request of the language list that fails, or that is answered
    with a status other than 200, is only reported: the callback of
    [downloadLanguageData] does not throw, leaves the language list and the
    settings as they are and never calls the continuation, so the catalog
    is not requested.  The error object itself is printed with
    [console.log], whether notifications are silenced or not. *)
Theorem failed_language_request_is_only_reported response callback s :
failed response = true ->
Grab.onLanguagesResponse response callback s
= Grab.Ok tt
    (addEvents
       (if Grab.truthy (Response.error response)
        then shown s "Error - downloadLanguageData:" true
             ++ [ConsoleValue (Response.error response)]
        else shown s ("Error - downloadLanguageData: status code = "
                      +:+ Js.num_toString (Int (Response.statusCode response))) true
             ++ shown s (Response.body response) false)
       s).
Proof.
unfold failed, Grab.onLanguagesResponse. intros Hf.
destruct (Grab.truthy (Response.error response)).
- rewrite (grab_bind_Ok_intro _ _ _ _ _ (display_result _ true s)).
  unfold Grab.emit. now rewrite <- addEvents_app.
- simpl in Hf. rewrite Hf.
  rewrite (grab_bind_Ok_intro _ _ _ _ _ (display_result _ true s)).
  rewrite display_result. now rewrite addEvents_app.
Qed.

(** X24.  A request of the catalog that fails, or that is answered with a
    status other than 200, makes the callback of [getBibles] throw before
    anything else happens; the message carries the error as text, which
    reads [null] when the request itself succeeded. *)
Theorem failed_catalog_request_throws response callback s :
failed response = true ->
Grab.onCatalogResponse response callback s
= Grab.Throw ("uwGrabAvailableTexts - Unable to grab Unfolding Word content: "
              +:+ Js.toString (Response.error response) +:+ ".") s.
Proof.
unfold failed, Grab.onCatalogResponse. intros Hf.
destruct (Grab.truthy (Response.error response)); [reflexivity|].
simpl in Hf. apply negb_true_iff in Hf. now rewrite Hf.
Qed.

Lemma emit_addEvents e s : GrabState.emit e s = addEvents [e] s.
Proof. reflexivity. Qed.

Lemma shown_addEvents l s msg isError : shown (addEvents l s) msg isError = shown s msg isError.
Proof. reflexivity. Qed.

Lemma forEach_emit {A} (f : A -> GrabEvent) (l : list A) s :
Grab.forEach (fun x => Grab.emit (f x)) l s = Grab.Ok tt (addEvents (f <$> l) s).
Proof.
revert s. induction l as [|x l IH]; intros s; simpl.
- now rewrite addEvents_nil.
- unfold Grab.bind, Grab.emit at 1. rewrite IH.
  now rewrite emit_addEvents, addEvents_app.
Qed.

(** X25.  When [mkdirp] reports an error its callback throws it and
    nothing is written.  Otherwise the callback writes [info.json] and
    [about.html] under the path [mkdirp] hands back, read as text, and then
    queues the files of the version for download, in the order of the table
    of contents, and starts the download into that path. *)
Theorem made_directory_is_filled bible err madePath s :
Grab.onDirectoryMade bible err madePath s
= if Grab.truthy err then Grab.Throw (Js.toString err) s
  else Grab.Ok tt
         (addEvents
            ([WriteFile (Js.toString madePath +:+ "/info.json")
                        (stringifyVersionInfo (Bible.version_info bible));
              WriteFile (Js.toString madePath +:+ "/about.html") (Bible.about bible)]
             ++ shown s ("Downloading the usfm files... This may take a while... "
                         +:+ "Go grab a cup of coffee...") false
             ++ (DownloadGet <$> Bible.files bible)
             ++ [DownloadDest madePath; DownloadRun])
            s).
Proof.
unfold Grab.onDirectoryMade. destruct (Grab.truthy err); [reflexivity|].
unfold Grab.bind at 1, Grab.emit at 1. unfold Grab.bind at 1, Grab.emit at 1.
rewrite (grab_bind_Ok_intro _ _ _ _ _ (display_result _ false _)).
rewrite (grab_bind_Ok_intro _ _ _ _ _ (forEach_emit DownloadGet _ _)).
unfold Grab.bind, Grab.emit.
rewrite !emit_addEvents, !shown_addEvents, !addEvents_app, <- ?app_assoc. reflexivity.
Qed.

End GrabCallbacks.

Section GrabDirectories.
Context `{L : GrabLibraries}.

Lemma forEach_downloadThisOne bibles : forall s,
Grab.forEach Grab.downloadThisOne bibles s
= Grab.Ok tt (addEvents ((fun bible => Mkdirp (directoryOf s bible)) <$> bibles) s).
Proof.
induction bibles as [|bible bibles IH]; intros s; simpl.
- now rewrite addEvents_nil.
- unfold Grab.bind at 1, Grab.downloadThisOne at 1, Grab.bind, Grab.gets, Grab.emit.
  rewrite IH, emit_addEvents, addEvents_app. reflexivity.
Qed.

Lemma downloadBibles_result bibles s :
Grab.downloadBibles bibles s
= Grab.Ok tt
    (addEvents (shown s "Parsing the Bible data." false
                ++ ((fun bible => Mkdirp (directoryOf s bible)) <$> bibles)) s).
Proof.
unfold Grab.downloadBibles.
rewrite (grab_bind_Ok_intro _ _ _ _ _ (display_result _ false s)).
rewrite forEach_downloadThisOne, addEvents_app. reflexivity.
Qed.

Lemma getBibleVersions_Ok languages s bibles s' :
Grab.getBibleVersions languages s = Grab.Ok bibles s' ->
Forall2 (bibleOf s) (versionsOf s languages) bibles /\
s' = addEvents (skippedLines s languages) s.
Proof.
unfold Grab.getBibleVersions. intros H.
pose proof (collectBibleVersions_result languages [] s) as Hr.
destruct (forallb (describable s) languages).
- destruct Hr as (made & Hr & Hf). rewrite H in Hr. injection Hr as -> ->. auto.
- destruct Hr as (e & s1 & Hr). congruence.
Qed.

Lemma shown_console s msg isError : forallb isConsoleLine (shown s msg isError) = true.
Proof. unfold shown. now destruct (GrabState.silenceNotification s). Qed.

Lemma skippedLines_console s languages : forallb isConsoleLine (skippedLines s languages) = true.
Proof.
unfold skippedLines. induction languages as [|language languages IH]; [reflexivity|].
cbn [flat_map]. rewrite forallb_app, IH, andb_true_r.
destruct (CatalogLanguage.lc language) as [lc|]; [|reflexivity].
destruct (languageKnown s _); [reflexivity | apply shown_console].
Qed.

(** What the loop over the categories returns: the objects made for the
    versions of the categories whose slug is [bible], after those it
    started with, in a state that differs by console lines only. *)
Lemma collectCategories_result cat : forall acc s bibles s',
Grab.collectCategories cat acc s = Grab.Ok bibles s' ->
exists made lines,
  bibles = acc ++ made /\
  Forall2 (bibleOf s) (catalogVersions (GrabState.languageData s) cat) made /\
  s' = addEvents lines s /\
  forallb isConsoleLine lines = true.
Proof.
induction cat as [|c cat IH]; intros acc s bibles s' H; cbn [Grab.collectCategories] in H.
- injection H as <- <-. exists [], []. rewrite app_nil_r, addEvents_nil.
  repeat split. constructor.
- unfold catalogVersions. cbn [flat_map]. fold (catalogVersions (GrabState.languageData s) cat).
  destruct (Js.loose_eq_string (Category.slug c) "bible").
  + destruct (Category.langs c) as [languages|]; [|discriminate].
    apply grab_bind_Ok in H as (versions & s1 & Hv & H).
    apply getBibleVersions_Ok in Hv as [Hf ->].
    apply IH in H as (made & lines & -> & Hf' & -> & Hl).
    exists (versions ++ made), (skippedLines s languages ++ lines).
    rewrite app_assoc, addEvents_app. split; [reflexivity|]. split.
    * apply Forall2_app; [exact Hf | exact Hf'].
    * split; [reflexivity|]. now rewrite forallb_app, skippedLines_console.
  + apply IH in H as (made & lines & -> & Hf' & -> & Hl). exists made, lines. auto.
Qed.

Lemma Forall2_elem_of_r {A B} (P : A -> B -> Prop) (l1 : list A) (l2 : list B) (y : B) :
Forall2 P l1 l2 -> y ∈ l2 -> exists x, x ∈ l1 /\ P x y.
Proof.
intros H. induction H as [|x y' l1 l2 Hxy _ IH]; intros Hy; [inversion Hy|].
apply elem_of_cons in Hy as [->|Hy].
- exists x. split; [left | exact Hxy].
- destruct (IH Hy) as (x' & Hx' & HP). exists x'. split; [now right | exact HP].
Qed.

Lemma console_not_mkdirp lines path :
forallb isConsoleLine lines = true -> Mkdirp path ∉ lines.
Proof.
intros H Hin. rewrite forallb_forall in H. apply list_elem_of_In in Hin.
specialize (H _ Hin). discriminate.
Qed.

(** The directories asked for once the catalog has arrived. *)
Lemma catalog_directories catalog s path :
Mkdirp path
  ∈ GrabState.events (Grab.outcome_state (Grab.onCatalogResponse catalog Grab.downloadBibles s)) ->
Mkdirp path ∈ GrabState.events s \/
exists cat code version slug,
  parseCatalog (Response.body catalog) = Some cat /\
  (code, version) ∈ catalogVersions (GrabState.languageData s) cat /\
  Version.slug version = Some slug /\
  path = versionDirectory s code slug.
Proof.
unfold Grab.onCatalogResponse.
destruct (_ && _); [|now left].
destruct (parseCatalog _) as [cat|] eqn:Ep; [|now left].
unfold Grab.bind.
destruct (Grab.collectCategories cat [] s) as [bibles s1|e s1] eqn:E.
- apply collectCategories_result in E as (made & lines & -> & Hf & -> & Hl).
  rewrite downloadBibles_result. simpl. rewrite !elem_of_app.
  intros [[H|H]|[H|H]].
  + now left.
  + now destruct (console_not_mkdirp _ _ Hl H).
  + now destruct (console_not_mkdirp _ _ (shown_console _ _ _) H).
  + right. apply list_elem_of_fmap in H as (bible & [= ->] & Hb).
    destruct (Forall2_elem_of_r _ _ _ _ Hf Hb) as ([code version] & Hd & lang & _ & HB).
    destruct HB as (_ & (slug & Hslug & Hid & _) & _). simpl in Hslug, Hid.
    exists cat, code, version, slug. repeat split; try assumption.
    unfold directoryOf, versionDirectory. simpl. now rewrite Hid.
- intros H. left. revert path H.
  set (P := fun s' => forall p, Mkdirp p ∈ GrabState.events s' -> Mkdirp p ∈ GrabState.events s).
  assert (Hd : forall msg isError, keeps P (Grab.display msg isError)).
  { intros msg isError s0 H0 p. rewrite display_result. simpl. rewrite elem_of_app.
    intros [Hp|Hp]; [now apply H0|].
    now destruct (console_not_mkdirp _ _ (shown_console _ _ _) Hp). }
  pose proof (collectCategories_keeps P Hd cat [] s (fun p Hp => Hp)) as Hk.
  rewrite E in Hk. exact Hk.
Qed.

Lemma hasChar_append (c : ascii) (a b : string) :
hasChar c (a +:+ b) = hasChar c a || hasChar c b.
Proof.
induction a as [|x a IH]; [reflexivity|].
rewrite append_cons. cbn [hasChar]. rewrite IH. now rewrite orb_assoc.
Qed.

Lemma versionDirectory_directChild s code slug :
hasChar "/" code = false -> hasChar "/" slug = false ->
directChild s (versionDirectory s code slug).
Proof.
intros Hc Hs. exists ("uw_" +:+ code +:+ "_" +:+ slug).
split; [reflexivity|]. split.
- change ("uw_" +:+ code +:+ "_" +:+ slug)
    with (String "u" (String "w" (String "_" (code +:+ "_" +:+ slug)))).
  cbn [String.prefix].
  destruct (ascii_dec "u" "u") as [_|N]; [|congruence].
  destruct (ascii_dec "w" "w") as [_|N]; [|congruence].
  destruct (ascii_dec "_" "_") as [_|N]; [|congruence].
  apply prefix_empty.
- rewrite !hasChar_append, Hc, Hs. reflexivity.
Qed.

Lemma prepareFolder_result s :
Grab.prepareFolder s
= Grab.Ok tt (addEvents (shown s "Preparing the input folder." false
                         ++ [Del (GrabState.destinationFolder s +:+ "/uw_*")]) s).
Proof.
unfold Grab.prepareFolder.
rewrite (grab_bind_Ok_intro _ _ _ _ _ (display_result _ false s)).
unfold Grab.bind, Grab.gets, Grab.emit. now rewrite emit_addEvents, addEvents_app.
Qed.

Lemma downloadLanguageData_result s :
Grab.downloadLanguageData s
= Grab.Ok tt
    (addEvents (shown s ("Getting the list of languages from "
                         +:+ GrabState.languagesUrl s +:+ ".") false
                ++ [Request (GrabState.languagesUrl s)]) s).
Proof.
unfold Grab.downloadLanguageData, Grab.bind at 1, Grab.gets.
rewrite (grab_bind_Ok_intro _ _ _ _ _ (display_result _ false s)).
unfold Grab.emit. now rewrite emit_addEvents, addEvents_app.
Qed.

Lemma getBibles_result s :
Grab.getBibles s
= Grab.Ok tt
    (addEvents (shown s ("Getting the bibles available from "
                         +:+ GrabState.catalogUrl s +:+ ".") false
                ++ [Request (GrabState.catalogUrl s)]) s).
Proof.
unfold Grab.getBibles, Grab.bind at 1, Grab.gets.
rewrite (grab_bind_Ok_intro _ _ _ _ _ (display_result _ false s)).
unfold Grab.emit. now rewrite emit_addEvents, addEvents_app.
Qed.

Lemma mkdirp_not_added l s p :
(forall q, Mkdirp q ∉ l) ->
Mkdirp p ∈ GrabState.events (addEvents l s) -> Mkdirp p ∈ GrabState.events s.
Proof.
intros Hl. simpl. rewrite elem_of_app. intros [H|H]; [exact H | now destruct (Hl p)].
Qed.

Lemma shown_no_mkdirp s msg isError p : Mkdirp p ∉ shown s msg isError.
Proof. apply console_not_mkdirp, shown_console. Qed.

Lemma shown_then_no_mkdirp s msg isError e p :
(forall q, e <> Mkdirp q) -> Mkdirp p ∉ shown s msg isError ++ [e].
Proof.
intros He H. apply elem_of_app in H as [H|H].
- now apply shown_no_mkdirp in H.
- apply list_elem_of_singleton in H. now destruct (He p).
Qed.

Lemma no_mkdirp_app (l1 l2 : list GrabEvent) :
(forall p, Mkdirp p ∉ l1) -> (forall p, Mkdirp p ∉ l2) -> forall p, Mkdirp p ∉ l1 ++ l2.
Proof.
intros H1 H2 p H. apply elem_of_app in H as [H|H]; [now destruct (H1 p) | now destruct (H2 p)].
Qed.

(** The part of [process] before the catalog arrives: either the run ends
    there, having asked for no directory, or the language list has been
    parsed and stored and the callback of [getBibles] runs in a state that
    differs from the first by the language list and by events that are no
    requests for a directory. *)
Lemma process_stages delError languages catalog s :
(forall p,
   Mkdirp p
     ∈ GrabState.events (Grab.outcome_state (Grab.process delError languages catalog s)) ->
   Mkdirp p ∈ GrabState.events s) \/
exists languageData lines,
  parseLanguages (Response.body languages) = Some languageData /\
  (forall p, Mkdirp p ∉ lines) /\
  Grab.outcome_state (Grab.process delError languages catalog s)
  = Grab.outcome_state
      (Grab.onCatalogResponse catalog Grab.downloadBibles
         (addEvents lines (GrabState.set_languageData languageData s))).
Proof.
unfold Grab.process.
rewrite (grab_bind_Ok_intro _ _ _ _ _ (prepareFolder_result s)).
set (l1 := shown s "Preparing the input folder." false ++ _).
assert (H1 : forall p, Mkdirp p ∉ l1)
  by (intros p; apply shown_then_no_mkdirp; discriminate).
unfold Grab.onFolderPrepared.
destruct (Grab.truthy delError).
{ left. intros p. rewrite display_result, addEvents_app. simpl Grab.outcome_state.
  apply mkdirp_not_added, no_mkdirp_app; [exact H1 | intros q; apply shown_no_mkdirp]. }
rewrite (grab_bind_Ok_intro _ _ _ _ _ (downloadLanguageData_result _)), addEvents_app.
set (l2 := l1 ++ _).
assert (H2 : forall p, Mkdirp p ∉ l2).
{ apply no_mkdirp_app; [exact H1|]. intros p. apply shown_then_no_mkdirp. discriminate. }
unfold Grab.onLanguagesResponse.
destruct (Grab.truthy (Response.error languages)).
{ left. intros p. rewrite (grab_bind_Ok_intro _ _ _ _ _ (display_result _ true _)).
  unfold Grab.emit. rewrite emit_addEvents, !addEvents_app. simpl Grab.outcome_state.
  apply mkdirp_not_added, no_mkdirp_app; [exact H2|].
  intros q. apply shown_then_no_mkdirp. discriminate. }
destruct (negb _).
{ left. intros p. rewrite (grab_bind_Ok_intro _ _ _ _ _ (display_result _ true _)).
  rewrite display_result, !addEvents_app. simpl Grab.outcome_state.
  apply mkdirp_not_added, no_mkdirp_app; [exact H2|].
  apply no_mkdirp_app; intros q; apply shown_no_mkdirp. }
destruct (parseLanguages _) as [languageData|] eqn:Ep.
2:{ left. intros p. simpl Grab.outcome_state. now apply mkdirp_not_added. }
right. unfold Grab.bind at 1.
rewrite (grab_bind_Ok_intro _ _ _ _ _ (getBibles_result _)).
change (GrabState.set_languageData languageData (addEvents l2 s))
  with (addEvents l2 (GrabState.set_languageData languageData s)).
rewrite addEvents_app.
eexists _, _. split; [reflexivity|]. split; [|reflexivity].
apply no_mkdirp_app; [exact H2|]. intros p. apply shown_then_no_mkdirp. discriminate.
Qed.

(** X26.  Every directory a run of [process] asks [mkdirp] for is named
    after a version of the catalog: its path is the destination folder, a
    slash and [uw_], the language code, an underscore and the slug of a
    version of a language whose code is known in the language list that was
    downloaded, in a category whose slug is [bible].  When neither the code
    nor the slug holds a slash, the directory is an entry of the destination
    folder itself and its name begins with [uw_]; nothing of the kind is
    stated for a code or a slug with a slash, whose directory can lie
    elsewhere. *)
Theorem created_directories_are_named_after_versions delError languages catalog s path :
Mkdirp path
  ∈ GrabState.events (Grab.outcome_state (Grab.process delError languages catalog s)) ->
Mkdirp path ∈ GrabState.events s \/
exists languageData cat code version slug,
  parseLanguages (Response.body languages) = Some languageData /\
  parseCatalog (Response.body catalog) = Some cat /\
  (code, version) ∈ catalogVersions languageData cat /\
  Version.slug version = Some slug /\
  path = versionDirectory s code slug /\
  (hasChar "/" code = false -> hasChar "/" slug = false -> directChild s path).
Proof.
intros H.
destruct (process_stages delError languages catalog s)
  as [Hs | (languageData & lines & Hl & Hq & Hs)]; [left; now apply Hs|].
rewrite Hs in H. apply catalog_directories in H as [H | (cat & code & version & slug & H)].
- left. now apply (mkdirp_not_added lines (GrabState.set_languageData languageData s)).
- right. destruct H as (Hc & Hin & Hslug & ->).
  exists languageData, cat, code, version, slug.
  split; [exact Hl|]. split; [exact Hc|]. split; [exact Hin|]. split; [exact Hslug|].
  split; [reflexivity|]. intros H1 H2.
  now apply (versionDirectory_directChild s code slug).
Qed.

End GrabDirectories.

(** *** Evaluation of the properties of the catalog reader *)

Lemma one_bible_per_version_of_a_known_language_witness :
exists bibles s',
  Grab.getBibleVersions (L := GrabSample.libraries) GrabSample.bibleLanguages GrabSample.loaded
    = Grab.Ok bibles s' /\
  (fun bible => VersionInfo.id (Bible.version_info bible)) <$> bibles
    = ["uw_en_ulb"; "uw_en_udb"; "uw_pt_ulb"] /\
  Forall2 (bibleOf GrabSample.loaded)
          (versionsOf GrabSample.loaded GrabSample.bibleLanguages) bibles.
Proof.
eexists _, _. split; [vm_compute; reflexivity|]. split; [reflexivity|].
exact (one_bible_per_version_of_a_known_language (L := GrabSample.libraries)
         GrabSample.bibleLanguages GrabSample.loaded _ _ ltac:(vm_compute; reflexivity)).
Defined.

Lemma unknown_languages_are_reported_and_skipped_witness :
exists bibles s',
  Grab.getBibleVersions (L := GrabSample.libraries) GrabSample.bibleLanguages GrabSample.loaded
    = Grab.Ok bibles s' /\
  GrabState.events s'
  = [ConsoleLine "X Error > Error - getBibleVersions, Language not found: ar";
     ConsoleLine "X Error > Error - getBibleVersions, Language not found: xx"].
Proof.
eexists _, _. split; [vm_compute; reflexivity|].
rewrite (unknown_languages_are_reported_and_skipped (L := GrabSample.libraries)
           GrabSample.bibleLanguages GrabSample.loaded _ _ ltac:(vm_compute; reflexivity)).
vm_compute. reflexivity.
Defined.

Lemma silenced_run_prints_no_line_witness :
GrabState.silenceNotification GrabSample.silenced = true /\
List.filter isConsoleLine
  (GrabState.events
     (Grab.outcome_state
        (Grab.process (L := GrabSample.libraries) JsNull (GrabSample.answer "languages")
                      (GrabSample.answer "catalog") GrabSample.silenced)))
= [].
Proof.
split; [reflexivity|].
exact (silenced_run_prints_no_line (L := GrabSample.libraries) JsNull
         (GrabSample.answer "languages") (GrabSample.answer "catalog") GrabSample.silenced
         eq_refl).
Defined.

Lemma failed_cleanup_stops_the_run_witness :
Grab.truthy (JsString "EACCES") = true /\
GrabState.events
  (Grab.outcome_state
     (Grab.process (L := GrabSample.libraries) (JsString "EACCES")
                   (GrabSample.answer "languages") (GrabSample.answer "catalog")
                   GrabSample.configured))
= [ConsoleLine "> Preparing the input folder.";
   Del "input/uw_*";
   ConsoleLine "X Error > Unable to locate directories to clean up received error: EACCES"].
Proof.
split; [reflexivity|].
rewrite (failed_cleanup_stops_the_run (L := GrabSample.libraries) (JsString "EACCES")
           (GrabSample.answer "languages") (GrabSample.answer "catalog")
           GrabSample.configured eq_refl).
reflexivity.
Defined.

Lemma failed_language_request_is_only_reported_witness :
failed GrabSample.notFound = true /\
Grab.onLanguagesResponse (L := GrabSample.libraries) GrabSample.notFound
  (Grab.throw "the continuation") GrabSample.configured
= Grab.Ok tt
    (addEvents
       [ConsoleLine "X Error > Error - downloadLanguageData: status code = 404";
        ConsoleLine "> Not Found"]
       GrabSample.configured).
Proof.
split; [reflexivity|].
exact (failed_language_request_is_only_reported (L := GrabSample.libraries)
         GrabSample.notFound (Grab.throw "the continuation") GrabSample.configured eq_refl).
Defined.

Lemma failed_catalog_request_throws_witness :
failed GrabSample.notFound = true /\
Grab.onCatalogResponse (L := GrabSample.libraries) GrabSample.notFound Grab.downloadBibles
  GrabSample.loaded
= Grab.Throw "uwGrabAvailableTexts - Unable to grab Unfolding Word content: null."
             GrabSample.loaded.
Proof.
split; [reflexivity|].
exact (failed_catalog_request_throws (L := GrabSample.libraries)
         GrabSample.notFound Grab.downloadBibles GrabSample.loaded eq_refl).
Defined.

Lemma created_directories_are_named_after_versions_witness :
Mkdirp "input/uw_pt_ulb"
  ∈ GrabState.events
      (Grab.outcome_state
         (Grab.process (L := GrabSample.libraries) JsNull (GrabSample.answer "languages")
                       (GrabSample.answer "catalog") GrabSample.configured)) /\
directChild GrabSample.configured "input/uw_pt_ulb".
Proof.
assert (Hin : Mkdirp "input/uw_pt_ulb"
                ∈ GrabState.events
                    (Grab.outcome_state
                       (Grab.process (L := GrabSample.libraries) JsNull
                                     (GrabSample.answer "languages")
                                     (GrabSample.answer "catalog") GrabSample.configured)))
  by (apply list_elem_of_In; vm_compute; tauto).
split; [exact Hin|].
destruct (created_directories_are_named_after_versions (L := GrabSample.libraries) JsNull
            (GrabSample.answer "languages") (GrabSample.answer "catalog")
            GrabSample.configured "input/uw_pt_ulb" Hin)
  as [H | (languageData & cat & code & version & slug & _ & _ & _ & _ & Hp & Hd)];
  [inversion H|].
assert (Hy : "pt_ulb" = code +:+ "_" +:+ slug)
  by exact (f_equal (Js.substring_from 9) Hp).
assert (Hn : hasChar "/" (code +:+ "_" +:+ slug) = false) by now rewrite <- Hy.
rewrite !hasChar_append in Hn. apply orb_false_iff in Hn as [Hc Hn].
apply orb_false_iff in Hn as [_ Hs]. exact (Hd Hc Hs).
Defined.
